(** * Ledger core of the digital-wallet backend

    A shallow embedding of the service layer (PaymentService,
    BillSplitService, CashbackService), of the domain classes they
    construct (Transaction, BillSplit, Wallet, User) and of the storage
    primitives they call (Database.get / query / run / transaction),
    followed by the properties of the ledger.

    Modelling conventions.
    - A JavaScript number is a finite binary64 number, held as the
      rational it denotes ([Q]); NaN and the infinities are left out.
      The arithmetic of the source is read in two ways.  In the exact
      reading ([+], [-], [*], [/] of [Q]) the rounding step of binary64
      is left out: it serves the properties that rounding cannot change
      (signs, control flow, stores left alone, records, counts).  In the
      binary64 reading ([add64], [sub64], [mul64], [div64]) every
      operation is rounded as the source rounds it: it serves every
      property that fixes a computed amount.  A function of the
      services or of the repositories whose computed amounts a property
      below fixes has both readings, the binary64 one under a name that
      ends in 64; the static helpers of BillSplit, the status of a
      budget and the number of pages of a history have the binary64
      reading only.
    - Identifiers (of users, merchants, transactions) are strings, the
      empty one being the falsy one; what a service tests at run time
      (amounts, weights, the list of debtors, the QR payload) is a
      JavaScript value.
    - [async] functions are run sequentially, one call after the other; a
      rejected promise and a thrown exception are the same thing, [Throw].
    - The relational store is a record of tables.  Every call of a storage
      primitive may be rejected by the environment: the world carries a
      plan of faults, one flag per statement.
    - uuidv4() draws from a supply of strings carried by the world.
    - Timestamps (created_at, updated_at, settled_at) take part in no
      decision of the services and are not stored; the clock is read for
      the validity window of cashback rules and the age of a QR code. *)

From Stdlib Require Import QArith Qround Qminmax Qabs Qpower Lqa ZArith Lia Bool List.
From stdpp Require Import base option list gmap strings.
Import ListNotations.

Local Open Scope Q_scope.
Local Open Scope string_scope.

(** ** JavaScript values of request payloads *)

#[local] Unset Elimination Schemes.
Inductive jsval : Type :=
| JUndefined
| JNull
| JBool (b : bool)
| JNum (q : Q)
| JStr (s : string)
| JArr (l : list jsval)
| JObj (fields : list (string * jsval)).
#[local] Set Elimination Schemes.

(** ToBoolean: [undefined], [null], [false], [0] and [''] are falsy. *)
Definition truthy (v : jsval) : bool :=
  match v with
  | JUndefined | JNull => false
  | JBool b => b
  | JNum q => negb (Qeq_bool q 0)
  | JStr s => negb (String.eqb s "")
  | JArr _ | JObj _ => true
  end.

(** [!s] on a string: only the empty string is falsy. *)
Definition str_truthy (s : string) : bool := negb (String.eqb s "").

(** [typeof v !== 'number'] *)
Definition typeof_number (v : jsval) : option Q :=
  match v with JNum q => Some q | _ => None end.

Fixpoint assoc (k : string) (l : list (string * jsval)) : option jsval :=
  match l with
  | [] => None
  | (k', v) :: l' => if String.eqb k k' then Some v else assoc k l'
  end.

(** Property access [v.k]: a TypeError on [undefined] and [null] ([None]),
    [undefined] where the property is missing. *)
Definition get_prop (v : jsval) (k : string) : option jsval :=
  match v with
  | JUndefined | JNull => None
  | JObj fields => Some (default JUndefined (assoc k fields))
  | _ => Some JUndefined
  end.

(** ** Numbers *)

Definition Qleb (x y : Q) : bool := Qle_bool x y.
Definition Qltb (x y : Q) : bool := negb (Qle_bool y x).

(** [Math.round(x)]: the nearest integer, ties towards +infinity. *)
Definition Math_round (x : Q) : Z := Qfloor (x + (1 # 2)).

(** [Math.round(x * 100) / 100] in the exact reading: the rounding to the
    cent, a half cent going up. *)
Definition round2 (x : Q) : Q := inject_Z (Math_round (x * 100)) / 100.

(** A number with at most two decimal places. *)
Definition two_decimals (x : Q) : Prop := exists k : Z, x == inject_Z k / 100.

(** ** Binary64

    A finite binary64 number is held as the rational it denotes.  Every
    arithmetic operation of the source on numbers, and every arithmetic
    expression of SQLite on REAL values, returns the binary64 number
    nearest to the exact result, a tie going to the even significand
    (IEEE 754, the default rounding); so does the reading of a decimal
    literal or of a decimal text. *)

(** The largest [e] with [2^e <= n / d]. *)
Definition log2_floor (n d : positive) : Z :=
  let e := (Z.log2 (Zpos n) - Z.log2 (Zpos d))%Z in
  if (0 <=? e)%Z
  then if (Zpos n <? Zpos d * 2 ^ e)%Z then (e - 1)%Z else e
  else if (Zpos n * 2 ^ (- e) <? Zpos d)%Z then (e - 1)%Z else e.

(** The integer nearest to [n / d], a tie going to the even one. *)
Definition nearest_even (n d : Z) : Z :=
  let q := (n / d)%Z in
  let r := (n mod d)%Z in
  match (2 * r ?= d)%Z with
  | Lt => q
  | Gt => (q + 1)%Z
  | Eq => if Z.even q then q else (q + 1)%Z
  end.

(** [m * 2^e] *)
Definition scaled (m e : Z) : Q :=
  if (0 <=? e)%Z then inject_Z (m * 2 ^ e) else Qmake m (Z.to_pos (2 ^ (- e))).

(** The exponent of the last place of [n / d]: a significand of 53 bits,
    and no place below 2^-1074 (the subnormal numbers). *)
Definition last_place (n d : positive) : Z :=
  Z.max (log2_floor n d - 52) (-1074).

Definition fl64_pos (n d : positive) : Q :=
  let e := last_place n d in
  let m := if (0 <=? e)%Z
           then nearest_even (Zpos n) (Zpos d * 2 ^ e)
           else nearest_even (Zpos n * 2 ^ (- e)) (Zpos d) in
  Qred (scaled m e).

(** The binary64 number nearest to a rational.  (A result beyond the
    largest binary64 number is an infinity in the source; the infinities
    are left out.) *)
Definition fl64 (x : Q) : Q :=
  match Qnum x with
  | Z0 => 0
  | Zpos n => fl64_pos n (Qden x)
  | Zneg n => - fl64_pos n (Qden x)
  end.

(** [x + y], [x - y], [x * y] and [x / y] of two numbers. *)
Definition add64 (x y : Q) : Q := fl64 (x + y).
Definition sub64 (x y : Q) : Q := fl64 (x - y).
Definition mul64 (x y : Q) : Q := fl64 (x * y).
Definition div64 (x y : Q) : Q := fl64 (x / y).

(** [Math.round(x * 100) / 100]; [Math.round] itself is exact. *)
Definition round2_64 (x : Q) : Q :=
  div64 (inject_Z (Math_round (mul64 x 100))) 100.

(** The number that a decimal literal denotes. *)
Definition dec (q : Q) : Q := fl64 q.

(** [l.reduce((sum, x) => sum + x, 0)] *)
Definition sum64 (l : list Q) : Q := fold_left add64 l 0.

(** Half a unit in the last place of a number between 1 and 2, and half
    the smallest positive binary64 number: the bounds of the relative
    and of the absolute rounding error. *)
Definition u64 : Q := Eval vm_compute in (1 # (2 ^ 53)).
Definition eta64 : Q := Eval vm_compute in (1 # (2 ^ 1075)).

(** ** Tables *)

Inductive TxType : Type :=
| payment | cashback | topup | transfer_out | transfer_in
| bill_split | split_settlement | refund.

Inductive TxStatus : Type := tx_pending | tx_ok | tx_failed | tx_cancelled.

Inductive SplitStatus : Type := pending | settled | cancelled.

Definition TxType_eqb (a b : TxType) : bool :=
  match a, b with
  | payment, payment | cashback, cashback | topup, topup
  | transfer_out, transfer_out | transfer_in, transfer_in
  | bill_split, bill_split | split_settlement, split_settlement
  | refund, refund => true
  | _, _ => false
  end.

Definition SplitStatus_eqb (a b : SplitStatus) : bool :=
  match a, b with
  | pending, pending | settled, settled | cancelled, cancelled => true
  | _, _ => false
  end.

(** The metadata bag of a transaction, a JSON object of strings. *)
Definition Meta : Type := list (string * string).

Fixpoint meta_get (k : string) (m : Meta) : option string :=
  match m with
  | [] => None
  | (k', v) :: m' => if String.eqb k k' then Some v else meta_get k m'
  end.

Record UserRow : Type := mkUser { u_name : string; u_phone : string }.

Record MerchantRow : Type := mkMerchant { m_name : string; m_category : string }.

(** The balance and the currency of a wallet are set (not NULL). *)
Record WalletRow : Type := mkWallet { w_balance : Q; w_currency : string }.

Record TxRow : Type := mkTx {
  tx_id : string;
  tx_user_id : string;
  tx_merchant_id : option string;
  tx_amount : Q;
  tx_currency : string;
  tx_type : TxType;
  tx_status : TxStatus;
  tx_meta : Meta
}.

Record SplitRow : Type := mkSplit {
  split_id : nat;
  sp_tx_id : string;
  payer_user_id : string;
  debtor_user_id : string;
  total_amount : Q;
  share_amount : Q;
  sp_weight : Q;
  sp_status : SplitStatus
}.

(** CHECK (rule_type IN ('percent', 'flat')) *)
Inductive RuleType : Type := percent | flat.

(** A NULL rate or flat_amount behaves as 0 in the arithmetic of the
    service and is stored as 0 here. *)
Record RuleRow : Type := mkRule {
  rule_type : RuleType;
  r_category : option string;
  rate : Q;
  flat_amount : Q;
  cap : option Q;
  first_time_only : bool;
  starts_at : option string;
  ends_at : option string;
  active : bool
}.

Record Store : Type := mkStore {
  users : gmap string UserRow;
  merchants : gmap string MerchantRow;
  wallets : gmap string WalletRow;
  transactions : list TxRow;
  bill_splits : list SplitRow;
  next_split_id : nat;
  cashback_rules : gmap string RuleRow
}.

(** ** The world: store, fault plan, uuid supply, clock *)

Record World : Type := mkWorld {
  db : Store;
  faults : list bool;
  uuids : list string;
  now : string
}.

Definition set_db (w : World) (s : Store) : World :=
  mkWorld s (faults w) (uuids w) (now w).

(** ** Exceptions and the monad of the services *)

Inductive Err : Type :=
| StorageError
| ValidationError
| TypeError
| SyntaxError.

Inductive outcome (A : Type) : Type :=
| Ok (a : A)
| Throw (e : Err).
Arguments Ok {A} a.
Arguments Throw {A} e.

Definition M (A : Type) : Type := World -> outcome A * World.

Definition ret {A} (a : A) : M A := fun w => (Ok a, w).

Definition bind {A B} (m : M A) (k : A -> M B) : M B :=
  fun w => match m w with
           | (Ok a, w') => k a w'
           | (Throw e, w') => (Throw e, w')
           end.

Definition throw {A} (e : Err) : M A := fun w => (Throw e, w).

(** [try { body } catch (error) { handler }] *)
Definition try_catch {A} (body : M A) (handler : Err -> M A) : M A :=
  fun w => match body w with
           | (Ok a, w') => (Ok a, w')
           | (Throw e, w') => handler e w'
           end.

(** A constructor or validator that may throw, run inside a service. *)
Definition lift {A} (o : outcome A) : M A := fun w => (o, w).

#[global] Instance M_ret : MRet M := @ret.
#[global] Instance M_bind : MBind M := fun A B k m => bind m k.

(** [uuidv4().substring(0, 8)] *)
Definition uuid8 : M string :=
  fun w => (Ok (String.substring 0 8 (hd "" (uuids w))),
            mkWorld (db w) (faults w) (tl (uuids w)) (now w)).

(** [new Date().toISOString()] *)
Definition current_time : M string := fun w => (Ok (now w), w).

(** ** Database.js: the storage primitives *)

Module Database.

(** The SQL statements issued by the services and repositories. *)
Inductive Stmt : Type :=
(** UPDATE wallets SET balance = balance - ?, updated_at = ? WHERE user_id = ? *)
| DebitWallet (amount : Q) (user_id : string)
(** UPDATE wallets SET balance = balance + ?, updated_at = ? WHERE user_id = ? *)
| CreditWallet (amount : Q) (user_id : string)
(** INSERT INTO transactions (tx_id, ..., meta) VALUES (?, ..., ?) *)
| InsertTransaction (row : TxRow)
(** INSERT INTO bill_splits (tx_id, ..., settled_at) VALUES (?, ..., ?) *)
| InsertBillSplit (row : SplitRow)
(** UPDATE bill_splits SET status = ?[, settled_at = ?] WHERE split_id = ? *)
| UpdateSplitStatus (status : SplitStatus) (id : nat).

(** [balance + ?] and [balance - ?] in the exact reading. *)
Definition add_balance (d : Q) (w : WalletRow) : WalletRow :=
  mkWallet (w_balance w + d) (w_currency w).
Definition sub_balance (d : Q) (w : WalletRow) : WalletRow :=
  mkWallet (w_balance w - d) (w_currency w).

Definition set_wallets (s : Store) (ws : gmap string WalletRow) : Store :=
  mkStore (users s) (merchants s) ws (transactions s) (bill_splits s)
          (next_split_id s) (cashback_rules s).
Definition set_transactions (s : Store) (txs : list TxRow) : Store :=
  mkStore (users s) (merchants s) (wallets s) txs (bill_splits s)
          (next_split_id s) (cashback_rules s).
Definition set_bill_splits (s : Store) (bs : list SplitRow) (next : nat) : Store :=
  mkStore (users s) (merchants s) (wallets s) (transactions s) bs
          next (cashback_rules s).

Definition has_key {V} (m : gmap string V) (k : string) : bool :=
  match m !! k with Some _ => true | None => false end.

Definition find_tx (s : Store) (id : string) : option TxRow :=
  find (fun r => String.eqb (tx_id r) id) (transactions s).

Definition find_split (s : Store) (id : nat) : option SplitRow :=
  find (fun r => Nat.eqb (split_id r) id) (bill_splits s).

(** CHECK (type IN ('payment', 'cashback', 'topup', 'transfer_out',
    'transfer_in', 'bill_split')) *)
Definition type_check (t : TxType) : bool :=
  match t with
  | payment | cashback | topup | transfer_out | transfer_in | bill_split => true
  | split_settlement | refund => false
  end.

(** The constraints of the transactions table: primary key tx_id, foreign
    keys user_id and merchant_id (foreign keys are switched on at
    connection time), and the CHECK on type. *)
Definition tx_constraints (s : Store) (r : TxRow) : bool :=
  match find_tx s (tx_id r) with Some _ => false | None => true end
  && has_key (users s) (tx_user_id r)
  && match tx_merchant_id r with
     | None => true
     | Some m => has_key (merchants s) m
     end
  && type_check (tx_type r).

(** The foreign keys of the bill_splits table. *)
Definition split_constraints (s : Store) (r : SplitRow) : bool :=
  match find_tx s (sp_tx_id r) with Some _ => true | None => false end
  && has_key (users s) (payer_user_id r)
  && has_key (users s) (debtor_user_id r).

Definition with_id (id : nat) (r : SplitRow) : SplitRow :=
  mkSplit id (sp_tx_id r) (payer_user_id r) (debtor_user_id r)
          (total_amount r) (share_amount r) (sp_weight r) (sp_status r).

Definition with_status (st : SplitStatus) (r : SplitRow) : SplitRow :=
  mkSplit (split_id r) (sp_tx_id r) (payer_user_id r) (debtor_user_id r)
          (total_amount r) (share_amount r) (sp_weight r) st.

(** One statement on the store; [None] is a constraint violation.  An
    UPDATE whose WHERE clause matches no row changes nothing and is not
    an error. *)
Definition exec (st : Stmt) (s : Store) : option Store :=
  match st with
  | DebitWallet a u => Some (set_wallets s (alter (sub_balance a) u (wallets s)))
  | CreditWallet a u => Some (set_wallets s (alter (add_balance a) u (wallets s)))
  | InsertTransaction r =>
      if tx_constraints s r
      then Some (set_transactions s (transactions s ++ [r]))
      else None
  | InsertBillSplit r =>
      if split_constraints s r
      then Some (set_bill_splits s
                   (bill_splits s ++ [with_id (next_split_id s) r])
                   (S (next_split_id s)))
      else None
  | UpdateSplitStatus status id =>
      Some (set_bill_splits s
              (map (fun r => if Nat.eqb (split_id r) id
                             then with_status status r else r)
                   (bill_splits s))
              (next_split_id s))
  end.

(** The statements of a bundle in order, each with its fault flag; the
    first failure abandons the bundle. *)
Fixpoint exec_all (l : list Stmt) (fs : list bool) (s : Store) : option Store :=
  match l with
  | [] => Some s
  | st :: l' =>
      if hd false fs then None
      else match exec st s with
           | Some s' => exec_all l' (tl fs) s'
           | None => None
           end
  end.

Definition next_fault : M bool :=
  fun w => (Ok (hd false (faults w)),
            mkWorld (db w) (tl (faults w)) (uuids w) (now w)).

(** [db.get] and [db.query]: a read of the store. *)
Definition get {A} (read : Store -> A) : M A :=
  f ← next_fault;
  if f : bool then throw StorageError
  else fun w => (Ok (read (db w)), w).

(** [db.run]: one statement outside any bundle. *)
Definition run (st : Stmt) : M unit :=
  f ← next_fault;
  if f : bool then throw StorageError
  else fun w => match exec st (db w) with
                | Some s' => (Ok tt, set_db w s')
                | None => (Throw StorageError, w)
                end.

(** [db.transaction]: BEGIN TRANSACTION, the statements, then COMMIT, or
    ROLLBACK as soon as one of them fails: the store is left as it was
    and the promise is rejected.  BEGIN, COMMIT and ROLLBACK themselves are
    taken to succeed.  The services never pass an empty list, on which the
    source would leave the promise unsettled. *)
Definition transaction (l : list Stmt) : M unit :=
  fun w =>
    let w' := mkWorld (db w) (drop (length l) (faults w)) (uuids w) (now w) in
    match exec_all l (faults w) (db w) with
    | Some s' => (Ok tt, set_db w' s')
    | None => (Throw StorageError, w')
    end.

(** The statement of WalletRepository.transfer and updateBalance:
    UPDATE wallets SET balance = ?, updated_at = ? WHERE user_id = ? *)
Inductive BalanceStmt : Type :=
| SetBalance (newBalance : Q) (user_id : string).

Definition set_balance (b : Q) (w : WalletRow) : WalletRow :=
  mkWallet b (w_currency w).

(** The wallets table has no constraint on the balance: the statement is
    never refused for the value it sets. *)
Definition exec_balance (st : BalanceStmt) (s : Store) : option Store :=
  match st with
  | SetBalance b u => Some (set_wallets s (alter (set_balance b) u (wallets s)))
  end.

(** [db.run] and [db.transaction] for another kind of statement. *)
Fixpoint exec_all_of {S} (exec : S -> Store -> option Store)
    (l : list S) (fs : list bool) (s : Store) : option Store :=
  match l with
  | [] => Some s
  | st :: l' =>
      if hd false fs then None
      else match exec st s with
           | Some s' => exec_all_of exec l' (tl fs) s'
           | None => None
           end
  end.

Definition run_of {S} (exec : S -> Store -> option Store) (st : S) : M unit :=
  f ← next_fault;
  if f : bool then throw StorageError
  else fun w => match exec st (db w) with
                | Some s' => (Ok tt, set_db w s')
                | None => (Throw StorageError, w)
                end.

Definition transaction_of {S} (exec : S -> Store -> option Store)
    (l : list S) : M unit :=
  fun w =>
    let w' := mkWorld (db w) (drop (length l) (faults w)) (uuids w) (now w) in
    match exec_all_of exec l (faults w) (db w) with
    | Some s' => (Ok tt, set_db w' s')
    | None => (Throw StorageError, w')
    end.

(** The two updates of a balance as SQLite evaluates them: [balance + ?]
    and [balance - ?] on REAL values are binary64 operations, and the
    result is stored as it is. *)
Definition add_balance64 (d : Q) (w : WalletRow) : WalletRow :=
  mkWallet (add64 (w_balance w) d) (w_currency w).
Definition sub_balance64 (d : Q) (w : WalletRow) : WalletRow :=
  mkWallet (sub64 (w_balance w) d) (w_currency w).

(** One statement on the store with the arithmetic of binary64; the
    statements other than the two updates of a balance compute nothing. *)
Definition exec64 (st : Stmt) (s : Store) : option Store :=
  match st with
  | DebitWallet a u => Some (set_wallets s (alter (sub_balance64 a) u (wallets s)))
  | CreditWallet a u => Some (set_wallets s (alter (add_balance64 a) u (wallets s)))
  | InsertTransaction _ | InsertBillSplit _ | UpdateSplitStatus _ _ => exec st s
  end.

(** [db.run] and [db.transaction] with the arithmetic of binary64. *)
Definition run64 : Stmt -> M unit := run_of exec64.
Definition transaction64 : list Stmt -> M unit := transaction_of exec64.

End Database.

(** ** Domain classes: the constructors validate and throw *)

Definition check (b : bool) : outcome unit :=
  if b then Ok tt else Throw ValidationError.

Definition seq_check (a b : outcome unit) : outcome unit :=
  match a with Ok _ => b | Throw e => Throw e end.
Infix ">>" := seq_check (at level 60, right associativity).

Module Transaction.

(** [validate()]: txId and userId non-empty strings, amount a positive
    number; every member of the two enumerations is a valid type or
    status. *)
Definition validate (t : TxRow) : outcome unit :=
  check (str_truthy (tx_id t)) >>
  check (str_truthy (tx_user_id t)) >>
  check (Qltb 0 (tx_amount t)).

(** [new Transaction(txId, userId, amount, currency, type, status,
    merchantId, meta)] *)
Definition new (txId userId : string) (amount : Q) (currency : string)
    (type : TxType) (status : TxStatus) (merchantId : option string)
    (meta : Meta) : outcome TxRow :=
  let t := mkTx txId userId merchantId amount currency type status meta in
  match validate t with Ok _ => Ok t | Throw e => Throw e end.

Definition fromRow (row : TxRow) : outcome TxRow :=
  new (tx_id row) (tx_user_id row) (tx_amount row) (tx_currency row)
      (tx_type row) (tx_status row) (tx_merchant_id row) (tx_meta row).

(** [isTransfer()], [isPayment()] *)
Definition isTransfer (t : TxRow) : bool :=
  TxType_eqb (tx_type t) transfer_out || TxType_eqb (tx_type t) transfer_in.

Definition isPayment (t : TxRow) : bool := TxType_eqb (tx_type t) payment.

(** [['cashback', 'topup', 'transfer_in'].includes(this.type)] *)
Definition increasesBalance (t : TxRow) : bool :=
  match tx_type t with
  | cashback | topup | transfer_in => true
  | _ => false
  end.

(** [['payment', 'transfer_out', 'bill_split'].includes(this.type)] *)
Definition decreasesBalance (t : TxRow) : bool :=
  match tx_type t with
  | payment | transfer_out | bill_split => true
  | _ => false
  end.

End Transaction.

Module BillSplit.

Definition validate (b : SplitRow) : outcome unit :=
  check (str_truthy (sp_tx_id b)) >>
  check (str_truthy (payer_user_id b)) >>
  check (str_truthy (debtor_user_id b)) >>
  check (negb (String.eqb (payer_user_id b) (debtor_user_id b))) >>
  check (Qltb 0 (total_amount b)) >>
  check (Qltb 0 (share_amount b)) >>
  check (Qleb (share_amount b) (total_amount b)) >>
  check (Qltb 0 (sp_weight b)).

(** [new BillSplit(splitId, txId, payerUserId, debtorUserId, totalAmount,
    shareAmount, weight, status)] *)
Definition new (splitId : nat) (txId payerUserId debtorUserId : string)
    (totalAmount shareAmount weight : Q) (status : SplitStatus)
    : outcome SplitRow :=
  let b := mkSplit splitId txId payerUserId debtorUserId
                   totalAmount shareAmount weight status in
  match validate b with Ok _ => Ok b | Throw e => Throw e end.

Definition fromRow (row : SplitRow) : outcome SplitRow :=
  new (split_id row) (sp_tx_id row) (payer_user_id row) (debtor_user_id row)
      (total_amount row) (share_amount row) (sp_weight row) (sp_status row).

Definition isSettled (b : SplitRow) : bool := SplitStatus_eqb (sp_status b) settled.
Definition isPending (b : SplitRow) : bool := SplitStatus_eqb (sp_status b) pending.

(** [settle()] and [cancel()] of an object (the settlement date is not
    kept). *)
Definition settle (b : SplitRow) : SplitRow := Database.with_status settled b.
Definition cancel (b : SplitRow) : SplitRow := Database.with_status cancelled b.

(** [{ userId, shareAmount, weight }] *)
Record Share : Type := mkShare {
  share_userId : string;
  share_shareAmount : Q;
  share_weight : Q
}.

(** [{ userId, weight }], the weight a number. *)
Record UserWeight : Type := mkUserWeight {
  uw_userId : string;
  uw_weight : Q
}.

(** [static calculateEqualSplit(totalAmount, userIds)], with the
    arithmetic of binary64; [None] is a [userIds] that is [null] or
    [undefined]. *)
Definition calculateEqualSplit (totalAmount : Q) (userIds : option (list string))
    : outcome (list Share) :=
  match userIds with
  | None => Throw ValidationError
  | Some userIds =>
      if (length userIds =? 0)%nat then Throw ValidationError
      else
        let shareAmount :=
          round2_64 (div64 totalAmount (inject_Z (Z.of_nat (length userIds)))) in
        Ok (map (fun userId => mkShare userId shareAmount 1) userIds)
  end.

(** [static calculateWeightedSplit(totalAmount, userWeights)], with the
    arithmetic of binary64 *)
Definition calculateWeightedSplit (totalAmount : Q)
    (userWeights : option (list UserWeight)) : outcome (list Share) :=
  match userWeights with
  | None => Throw ValidationError
  | Some userWeights =>
      if (length userWeights =? 0)%nat then Throw ValidationError
      else
        let totalWeight :=
          fold_left (fun sum item => add64 sum (uw_weight item)) userWeights 0 in
        if Qleb totalWeight 0 then Throw ValidationError
        else
          Ok (map (fun item =>
                     mkShare (uw_userId item)
                             (round2_64 (div64 (mul64 totalAmount (uw_weight item))
                                               totalWeight))
                             (uw_weight item))
                  userWeights)
  end.

End BillSplit.

Module Wallet.

Record t : Type := mk { userId : string; balance : Q; currency : string }.

Definition validate (w : t) : outcome unit :=
  check (str_truthy (userId w)) >>
  check (negb (Qltb (balance w) 0)) >>
  check (str_truthy (currency w)).

Definition new (userId : string) (balance : Q) (currency : string) : outcome t :=
  let w := mk userId balance currency in
  match validate w with Ok _ => Ok w | Throw e => Throw e end.

Definition fromRow (user_id : string) (row : WalletRow) : outcome t :=
  new user_id (w_balance row) (w_currency row).

(** [hasSufficientFunds(amount)]: [this.balance >= amount] *)
Definition hasSufficientFunds (w : t) (amount : Q) : bool :=
  Qleb amount (balance w).

(** [credit(amount)] and [debit(amount)] of the domain class round the
    new balance to two decimal places.  No service calls them. *)
Definition credit (w : t) (amount : Q) : outcome t :=
  if Qleb amount 0 then Throw ValidationError
  else Ok (mk (userId w) (round2 (balance w + amount)) (currency w)).

Definition debit (w : t) (amount : Q) : outcome t :=
  if Qleb amount 0 then Throw ValidationError
  else if Qltb (balance w) amount then Throw ValidationError
  else Ok (mk (userId w) (round2 (balance w - amount)) (currency w)).

End Wallet.

Module User.

Definition is_digit (a : Ascii.ascii) : bool :=
  let n := Ascii.nat_of_ascii a in (48 <=? n)%nat && (n <=? 57)%nat.

Fixpoint all_digits (s : string) : bool :=
  match s with
  | EmptyString => true
  | String a s' => is_digit a && all_digits s'
  end.

(** [/^\+90[0-9]{10}$/.test(phone)] *)
Definition isValidPhone (phone : string) : bool :=
  String.prefix "+90" phone
  && (String.length phone =? 13)%nat
  && all_digits (String.substring 3 10 phone).

Definition validate (user_id : string) (u : UserRow) : outcome unit :=
  check (str_truthy user_id) >>
  check (str_truthy (u_name u)) >>
  check (str_truthy (u_phone u) && isValidPhone (u_phone u)).

Definition fromRow (user_id : string) (row : UserRow) : outcome UserRow :=
  match validate user_id row with Ok _ => Ok row | Throw e => Throw e end.

End User.

(** ** Repositories *)

Module WalletRepository.

Definition findByUserId (userId : string) : M (option Wallet.t) :=
  row ← Database.get (fun s => wallets s !! userId);
  match row with
  | Some r => w ← lift (Wallet.fromRow userId r); mret (Some w)
  | None => mret None
  end.

Definition hasSufficientFunds (userId : string) (amount : Q) : M bool :=
  wallet ← findByUserId userId;
  mret (match wallet with
        | Some w => Wallet.hasSufficientFunds w amount
        | None => false
        end).

Definition transaction := Database.transaction.

(** [getBalance(userId)]: 0 when the user has no wallet. *)
Definition getBalance (userId : string) : M Q :=
  wallet ← findByUserId userId;
  mret (match wallet with
        | Some w => Wallet.balance w
        | None => 0
        end).

(** [updateBalance(userId, newBalance)] *)
Definition updateBalance (userId : string) (newBalance : Q) : M unit :=
  Database.run_of Database.exec_balance (Database.SetBalance newBalance userId).

(** [transfer(fromUserId, toUserId, amount)]: the two balances are read,
    the new ones computed and written in one bundle; an exception is
    logged and thrown again.  The [Error]s it throws itself are
    [ValidationError]. *)
Definition transfer (fromUserId toUserId : string) (amount : Q) : M bool :=
  try_catch
    (fromWallet ← findByUserId fromUserId;
     toWallet ← findByUserId toUserId;
     match fromWallet, toWallet with
     | Some fromWallet, Some toWallet =>
         if negb (Wallet.hasSufficientFunds fromWallet amount)
         then throw ValidationError
         else
           let fromNewBalance := Wallet.balance fromWallet - amount in
           let toNewBalance := Wallet.balance toWallet + amount in
           Database.transaction_of Database.exec_balance
             [ Database.SetBalance fromNewBalance fromUserId;
               Database.SetBalance toNewBalance toUserId ];;
           mret true
     | _, _ => throw ValidationError
     end)
    (fun error => throw error).

Definition transaction64 := Database.transaction64.

(** [transfer(fromUserId, toUserId, amount)] with the arithmetic of
    binary64: [fromWallet.balance - amount] and [toWallet.balance + amount]
    are rounded where they are computed. *)
Definition transfer64 (fromUserId toUserId : string) (amount : Q) : M bool :=
  try_catch
    (fromWallet ← findByUserId fromUserId;
     toWallet ← findByUserId toUserId;
     match fromWallet, toWallet with
     | Some fromWallet, Some toWallet =>
         if negb (Wallet.hasSufficientFunds fromWallet amount)
         then throw ValidationError
         else
           let fromNewBalance := sub64 (Wallet.balance fromWallet) amount in
           let toNewBalance := add64 (Wallet.balance toWallet) amount in
           Database.transaction_of Database.exec_balance
             [ Database.SetBalance fromNewBalance fromUserId;
               Database.SetBalance toNewBalance toUserId ];;
           mret true
     | _, _ => throw ValidationError
     end)
    (fun error => throw error).

End WalletRepository.

Module TransactionRepository.

Definition findById (txId : string) : M (option TxRow) :=
  row ← Database.get (fun s => Database.find_tx s txId);
  match row with
  | Some r => t ← lift (Transaction.fromRow r); mret (Some t)
  | None => mret None
  end.

Definition create (t : TxRow) : M unit :=
  Database.run (Database.InsertTransaction t).

(** A transaction object with the [merchantName] of a joined row. *)
Record TxObject : Type := mkTxObject {
  tx_row : TxRow;
  merchantName : option string
}.

(** [{ page, pageSize, total, totalPages }]; [totalPages] is [None] where
    [Math.ceil(total / pageSize)] is not a finite number. *)
Record Pagination : Type := mkPagination {
  page : Z;
  pageSize : Z;
  total : nat;
  totalPages : option Z
}.

Record History : Type := mkHistory {
  history_transactions : list TxObject;
  pagination : Pagination
}.

(** LIMIT ? OFFSET ?: a negative limit is no limit, a negative offset is
    0. *)
Definition sql_limit {A} (limit offset : Z) (rows : list A) : list A :=
  let rest := drop (Z.to_nat offset) rows in
  if (limit <? 0)%Z then rest else take (Z.to_nat limit) rest.

(** WHERE user_id = ? *)
Definition user_rows (userId : string) (s : Store) : list TxRow :=
  List.filter (fun r => String.eqb (tx_user_id r) userId) (transactions s).

(** LEFT JOIN merchants m ON t.merchant_id = m.merchant_id: m.name *)
Definition merchant_name_of (s : Store) (r : TxRow) : option string :=
  match tx_merchant_id r with
  | Some m => m_name <$> merchants s !! m
  | None => None
  end.

(** [Transaction.fromRow(row)] on a row of the join, its tenth argument
    [row.merchant_name || null]. *)
Definition fromJoinedRow (row : TxRow * option string) : outcome TxObject :=
  match Transaction.fromRow (fst row) with
  | Ok t =>
      Ok (mkTxObject t
            (match snd row with
             | Some n => if str_truthy n then Some n else None
             | None => None
             end))
  | Throw e => Throw e
  end.

(** [Math.ceil(total / pageSize)]; [Math.ceil] itself is exact. *)
Definition ceil_div (total : nat) (pageSize : Z) : option Z :=
  if (pageSize =? 0)%Z then None
  else Some (Qceiling (div64 (inject_Z (Z.of_nat total)) (inject_Z pageSize))).

Section History.

(** ORDER BY t.created_at DESC on rows of the table. *)
Variable by_created_at_desc : list TxRow -> list TxRow.

(** The rows of one page of the history of a user. *)
Definition history_rows (userId : string) (page pageSize : Z) (s : Store)
    : list TxRow :=
  sql_limit pageSize ((page - 1) * pageSize)%Z
            (by_created_at_desc (user_rows userId s)).

(** [getUserTransactionHistory(userId, page, pageSize)], page and page
    size integers. *)
Definition getUserTransactionHistory (userId : string) (page pageSize : Z)
    : M History :=
  total ← Database.get (fun s => length (user_rows userId s));
  rows ← Database.get (fun s =>
            map (fun r => (r, merchant_name_of s r))
                (history_rows userId page pageSize s));
  transactions ← mapM (fun row => lift (fromJoinedRow row)) rows;
  mret (mkHistory transactions
          (mkPagination page pageSize total (ceil_div total pageSize))).

End History.

End TransactionRepository.

Module UserRepository.

Definition findById (userId : string) : M (option UserRow) :=
  row ← Database.get (fun s => users s !! userId);
  match row with
  | Some r => u ← lift (User.fromRow userId r); mret (Some u)
  | None => mret None
  end.

Definition exists_ (userId : string) : M bool :=
  user ← findById userId;
  mret (match user with Some _ => true | None => false end).

Section Search.

(** The rows of SELECT * FROM users WHERE name LIKE ? ORDER BY name, for a
    pattern. *)
Variable users_like : string -> Store -> list (string * UserRow).

Definition searchByName (searchTerm : string) : M (list (string * UserRow)) :=
  rows ← Database.get (users_like ("%" ++ searchTerm ++ "%"));
  mapM (fun row => u ← lift (User.fromRow (fst row) (snd row));
                   mret (fst row, u))
       rows.

End Search.

End UserRepository.

Module BillSplitRepository.

Definition findById (splitId : nat) : M (option SplitRow) :=
  row ← Database.get (fun s => Database.find_split s splitId);
  match row with
  | Some r => b ← lift (BillSplit.fromRow r); mret (Some b)
  | None => mret None
  end.

Definition createMultiple (billSplits : list SplitRow) : M unit :=
  Database.transaction (map Database.InsertBillSplit billSplits).

Definition updateStatus (splitId : nat) (status : SplitStatus) : M unit :=
  Database.run (Database.UpdateSplitStatus status splitId).

Definition settle (splitId : nat) : M unit := updateStatus splitId settled.
Definition cancel (splitId : nat) : M unit := updateStatus splitId cancelled.

Definition status_name (st : SplitStatus) : string :=
  match st with
  | pending => "pending"
  | settled => "settled"
  | cancelled => "cancelled"
  end.

(** [if (status) { sql += ' AND status = ?' }] *)
Definition status_matches (status : option string) (r : SplitRow) : bool :=
  match status with
  | Some st =>
      if str_truthy st then String.eqb (status_name (sp_status r)) st else true
  | None => true
  end.

(** A row of bill_splits joined with the names of its users and the
    merchant of its transaction. *)
Record SplitWithNames : Type := mkSplitWithNames {
  sn_split : SplitRow;
  sn_payer_name : option string;
  sn_debtor_name : option string;
  sn_merchant_id : option string;
  sn_merchant_name : option string
}.

(** LEFT JOIN transactions t ON bs.tx_id = t.tx_id: t.merchant_id *)
Definition merchant_id_of (s : Store) (r : SplitRow) : option string :=
  match Database.find_tx s (sp_tx_id r) with
  | Some t => tx_merchant_id t
  | None => None
  end.

(** LEFT JOIN merchants m ON t.merchant_id = m.merchant_id *)
Definition merchant_of (s : Store) (r : SplitRow) : option MerchantRow :=
  match merchant_id_of s r with
  | Some m => merchants s !! m
  | None => None
  end.

Definition with_names (s : Store) (r : SplitRow) : SplitWithNames :=
  mkSplitWithNames r
    (u_name <$> users s !! payer_user_id r)
    (u_name <$> users s !! debtor_user_id r)
    (merchant_id_of s r)
    (m_name <$> merchant_of s r).

(** A row of bill_splits joined with its users, its transaction and the
    merchant of the transaction. *)
Record SplitDetails : Type := mkSplitDetails {
  d_split : SplitRow;
  d_payer_name : option string;
  d_debtor_name : option string;
  d_transaction_amount : option Q;
  d_transaction_type : option TxType;
  d_merchant_name : option string;
  d_merchant_category : option string
}.

Definition with_details (s : Store) (r : SplitRow) : SplitDetails :=
  let t := Database.find_tx s (sp_tx_id r) in
  mkSplitDetails r
    (u_name <$> users s !! payer_user_id r)
    (u_name <$> users s !! debtor_user_id r)
    (tx_amount <$> t) (tx_type <$> t)
    (m_name <$> merchant_of s r) (m_category <$> merchant_of s r).

(** [{ count, totalAmount }] *)
Record Totals : Type := mkTotals {
  tot_count : nat;
  tot_amount : Q
}.

Record PendingSummary : Type := mkPendingSummary {
  owedToMe : Totals;
  iOwe : Totals
}.

Section Aggregates.

(** SUM over REAL values, as SQLite adds them up. *)
Variable sql_sum : list Q -> Q.

(** COUNT( * ) and COALESCE(SUM(share_amount), 0): the sum of no row is
    NULL. *)
Definition totals (rows : list SplitRow) : Totals :=
  mkTotals (length rows)
           (match rows with
            | [] => 0
            | _ :: _ => sql_sum (map share_amount rows)
            end).

Definition pending_of_payer (userId : string) (s : Store) : list SplitRow :=
  List.filter (fun r => String.eqb (payer_user_id r) userId
                        && SplitStatus_eqb (sp_status r) pending)
              (bill_splits s).

Definition pending_of_debtor (userId : string) (s : Store) : list SplitRow :=
  List.filter (fun r => String.eqb (debtor_user_id r) userId
                        && SplitStatus_eqb (sp_status r) pending)
              (bill_splits s).

Definition getPendingSummary (userId : string) : M PendingSummary :=
  owedToMe ← Database.get (fun s => totals (pending_of_payer userId s));
  iOwe ← Database.get (fun s => totals (pending_of_debtor userId s));
  mret (mkPendingSummary owedToMe iOwe).

End Aggregates.

(** [findDetailedById(splitId)]; [None] is NaN, which is bound as NULL and
    equals no id, as does a negative number. *)
Definition findDetailedById (splitId : option Z) : M (option SplitDetails) :=
  Database.get (fun s =>
    match splitId with
    | Some id =>
        if (id <? 0)%Z then None
        else with_details s <$> Database.find_split s (Z.to_nat id)
    | None => None
    end).

Section Queries.

(** ORDER BY created_at DESC on rows of the table. *)
Variable by_created_at_desc : list SplitRow -> list SplitRow.

Definition findByPayerId (payerUserId : string) (status : option string)
    : M (list SplitRow) :=
  rows ← Database.get (fun s =>
            by_created_at_desc
              (List.filter (fun r => String.eqb (payer_user_id r) payerUserId
                                     && status_matches status r)
                           (bill_splits s)));
  mapM (fun row => lift (BillSplit.fromRow row)) rows.

Definition findByDebtorId (debtorUserId : string) (status : option string)
    : M (list SplitRow) :=
  rows ← Database.get (fun s =>
            by_created_at_desc
              (List.filter (fun r => String.eqb (debtor_user_id r) debtorUserId
                                     && status_matches status r)
                           (bill_splits s)));
  mapM (fun row => lift (BillSplit.fromRow row)) rows.

Definition findByUserId (userId : string) (status : option string)
    : M (list SplitWithNames) :=
  Database.get (fun s =>
    map (with_names s)
        (by_created_at_desc
           (List.filter (fun r => (String.eqb (payer_user_id r) userId
                                   || String.eqb (debtor_user_id r) userId)
                                  && status_matches status r)
                        (bill_splits s)))).

End Queries.

End BillSplitRepository.

(** ** Results of the services *)

(** The user-facing messages, named by what they say. *)
Inductive Msg : Type :=
| MsgIdsRequired | MsgPaymentIdsRequired | MsgSelfTransfer | MsgInvalidAmount
| MsgSenderWalletNotFound | MsgReceiverWalletNotFound | MsgWalletNotFound
| MsgInsufficientFunds
| MsgTransferOk | MsgTransferError
| MsgPaymentOk | MsgPaymentError
| MsgTopUpOk | MsgTopUpError
| MsgQRFormat | MsgQRIncomplete | MsgQRInvalidAmount | MsgQRExpired
| MsgQROk | MsgQRError
| MsgInvalidParams | MsgNoDebtor | MsgOriginalTxNotFound | MsgNotYourTx
| MsgUsersNotFound | MsgWeightsPositive
| MsgSplitOk | MsgSplitError | MsgWeightedOk | MsgWeightedError
| MsgSplitNotFound | MsgOnlyDebtor | MsgAlreadySettled
| MsgSettleOk | MsgSettleError
| MsgOnlyPayer | MsgSettledNoCancel | MsgCancelOk | MsgCancelError
| MsgNoCampaign | MsgCashbackWon | MsgCashbackNotApplied | MsgCashbackError
| MsgNone.

(** [{ success, message, data }] *)
Record Result (D : Type) : Type := mkResult {
  success : bool;
  message : Msg;
  data : option D
}.
Arguments mkResult {D} success message data.
Arguments success {D} r.
Arguments message {D} r.
Arguments data {D} r.

Definition ok {D} (msg : Msg) (d : D) : Result D := mkResult true msg (Some d).
Definition fail {D} (msg : Msg) : Result D := mkResult false msg None.

(** The messages of the operations that only read, and of the
    controllers. *)
Inductive ReadMsg : Type :=
| MsgBalanceNotFound | MsgBalanceError | MsgHistoryError
| MsgSummaryError | MsgDetailsNotFound | MsgDetailsError
| MsgCampaignsError
| MsgAuthIdRequired | MsgUserNotFound | MsgLoginOk | MsgLoginError
| MsgLoginRequired | MsgSplitIdRequired | MsgForbidden | MsgServerError
| MsgNoMessage.

Record Reply (D : Type) : Type := mkReply {
  reply_success : bool;
  reply_message : ReadMsg;
  reply_data : option D
}.
Arguments mkReply {D} reply_success reply_message reply_data.
Arguments reply_success {D} r.
Arguments reply_message {D} r.
Arguments reply_data {D} r.

(** ** PaymentService *)

Module PaymentService.

Record TransferData : Type := mkTransferData {
  outTransactionId : string;
  inTransactionId : string;
  transfer_amount : Q;
  fromUserId : string;
  toUserId : string
}.

Record PaymentData : Type := mkPaymentData {
  transactionId : string;
  payment_amount : Q;
  merchantId : jsval;
  newBalance : Q;
  qrId : option jsval
}.

Record TopUpData : Type := mkTopUpData {
  topup_transactionId : string;
  topup_amount : Q;
  topup_newBalance : Q
}.

Definition transferMoney (fromUserId toUserId : string) (amount : jsval)
    : M (Result TransferData) :=
  try_catch
    (if negb (str_truthy fromUserId) || negb (str_truthy toUserId)
     then mret (fail MsgIdsRequired)
     else if String.eqb fromUserId toUserId
     then mret (fail MsgSelfTransfer)
     else match typeof_number amount with
     | None => mret (fail MsgInvalidAmount)
     | Some amount =>
       if Qleb amount 0 then mret (fail MsgInvalidAmount)
       else
         fromWallet ← WalletRepository.findByUserId fromUserId;
         toWallet ← WalletRepository.findByUserId toUserId;
         match fromWallet, toWallet with
         | None, _ => mret (fail MsgSenderWalletNotFound)
         | Some _, None => mret (fail MsgReceiverWalletNotFound)
         | Some fromWallet, Some _ =>
           if negb (Wallet.hasSufficientFunds fromWallet amount)
           then mret (fail MsgInsufficientFunds)
           else
             u1 ← uuid8;
             u2 ← uuid8;
             let outTxId := "TX_OUT_" ++ u1 in
             let inTxId := "TX_IN_" ++ u2 in
             outTransaction ← lift (Transaction.new outTxId fromUserId amount
               "TRY" transfer_out tx_ok None
               [("to_user", toUserId); ("related_tx", inTxId)]);
             inTransaction ← lift (Transaction.new inTxId toUserId amount
               "TRY" transfer_in tx_ok None
               [("from_user", fromUserId); ("related_tx", outTxId)]);
             WalletRepository.transaction
               [ Database.DebitWallet amount fromUserId;
                 Database.CreditWallet amount toUserId;
                 Database.InsertTransaction outTransaction;
                 Database.InsertTransaction inTransaction ];;
             mret (ok MsgTransferOk
                     (mkTransferData outTxId inTxId amount fromUserId toUserId))
         end
     end)
    (fun _ => mret (fail MsgTransferError)).

(** [transferMoney] with the arithmetic of binary64. *)
Definition transferMoney64 (fromUserId toUserId : string) (amount : jsval)
    : M (Result TransferData) :=
  try_catch
    (if negb (str_truthy fromUserId) || negb (str_truthy toUserId)
     then mret (fail MsgIdsRequired)
     else if String.eqb fromUserId toUserId
     then mret (fail MsgSelfTransfer)
     else match typeof_number amount with
     | None => mret (fail MsgInvalidAmount)
     | Some amount =>
       if Qleb amount 0 then mret (fail MsgInvalidAmount)
       else
         fromWallet ← WalletRepository.findByUserId fromUserId;
         toWallet ← WalletRepository.findByUserId toUserId;
         match fromWallet, toWallet with
         | None, _ => mret (fail MsgSenderWalletNotFound)
         | Some _, None => mret (fail MsgReceiverWalletNotFound)
         | Some fromWallet, Some _ =>
           if negb (Wallet.hasSufficientFunds fromWallet amount)
           then mret (fail MsgInsufficientFunds)
           else
             u1 ← uuid8;
             u2 ← uuid8;
             let outTxId := "TX_OUT_" ++ u1 in
             let inTxId := "TX_IN_" ++ u2 in
             outTransaction ← lift (Transaction.new outTxId fromUserId amount
               "TRY" transfer_out tx_ok None
               [("to_user", toUserId); ("related_tx", inTxId)]);
             inTransaction ← lift (Transaction.new inTxId toUserId amount
               "TRY" transfer_in tx_ok None
               [("from_user", fromUserId); ("related_tx", outTxId)]);
             WalletRepository.transaction64
               [ Database.DebitWallet amount fromUserId;
                 Database.CreditWallet amount toUserId;
                 Database.InsertTransaction outTransaction;
                 Database.InsertTransaction inTransaction ];;
             mret (ok MsgTransferOk
                     (mkTransferData outTxId inTxId amount fromUserId toUserId))
         end
     end)
    (fun _ => mret (fail MsgTransferError)).

Section Externals.

(** The text under which a parameter that is not a string is bound to
    a TEXT column by the driver. *)
Variable sql_text : jsval -> string.
(** [JSON.parse]; [None] is a SyntaxError. *)
Variable JSON_parse : string -> option jsval.
(** [parseFloat] on a value that is not a number; [None] is NaN. *)
Variable parseFloat_other : jsval -> option Q.
(** [(now - new Date(ts)) / (1000 * 60 * 60)]; [None] is NaN. *)
Variable hours_between : string -> jsval -> option Q.

Definition merchant_key (merchantId : jsval) : string :=
  match merchantId with JStr s => s | v => sql_text v end.

Definition parseFloat (v : jsval) : option Q :=
  match v with JNum q => Some q | _ => parseFloat_other v end.

Definition processPayment (userId : string) (merchantId : jsval)
    (amount : jsval) : M (Result PaymentData) :=
  try_catch
    (if negb (str_truthy userId) || negb (truthy merchantId)
     then mret (fail MsgPaymentIdsRequired)
     else match typeof_number amount with
     | None => mret (fail MsgInvalidAmount)
     | Some amount =>
       if Qleb amount 0 then mret (fail MsgInvalidAmount)
       else
         wallet ← WalletRepository.findByUserId userId;
         match wallet with
         | None => mret (fail MsgWalletNotFound)
         | Some wallet =>
           if negb (Wallet.hasSufficientFunds wallet amount)
           then mret (fail MsgInsufficientFunds)
           else
             u ← uuid8;
             let txId := "TX_PAY_" ++ u in
             transaction ← lift (Transaction.new txId userId amount
               "TRY" payment tx_ok (Some (merchant_key merchantId))
               [("payment_method", "wallet")]);
             WalletRepository.transaction
               [ Database.DebitWallet amount userId;
                 Database.InsertTransaction transaction ];;
             mret (ok MsgPaymentOk
                     (mkPaymentData txId amount merchantId
                        (Wallet.balance wallet - amount) None))
         end
     end)
    (fun _ => mret (fail MsgPaymentError)).

(** [processPayment] with the arithmetic of binary64. *)
Definition processPayment64 (userId : string) (merchantId : jsval)
    (amount : jsval) : M (Result PaymentData) :=
  try_catch
    (if negb (str_truthy userId) || negb (truthy merchantId)
     then mret (fail MsgPaymentIdsRequired)
     else match typeof_number amount with
     | None => mret (fail MsgInvalidAmount)
     | Some amount =>
       if Qleb amount 0 then mret (fail MsgInvalidAmount)
       else
         wallet ← WalletRepository.findByUserId userId;
         match wallet with
         | None => mret (fail MsgWalletNotFound)
         | Some wallet =>
           if negb (Wallet.hasSufficientFunds wallet amount)
           then mret (fail MsgInsufficientFunds)
           else
             u ← uuid8;
             let txId := "TX_PAY_" ++ u in
             transaction ← lift (Transaction.new txId userId amount
               "TRY" payment tx_ok (Some (merchant_key merchantId))
               [("payment_method", "wallet")]);
             WalletRepository.transaction64
               [ Database.DebitWallet amount userId;
                 Database.InsertTransaction transaction ];;
             mret (ok MsgPaymentOk
                     (mkPaymentData txId amount merchantId
                        (sub64 (Wallet.balance wallet) amount) None))
         end
     end)
    (fun _ => mret (fail MsgPaymentError)).

Definition topUpWallet (userId : string) (amount : jsval)
    : M (Result TopUpData) :=
  try_catch
    (match typeof_number amount with
     | None => mret (fail MsgInvalidAmount)
     | Some amount =>
       if Qleb amount 0 then mret (fail MsgInvalidAmount)
       else
         wallet ← WalletRepository.findByUserId userId;
         match wallet with
         | None => mret (fail MsgWalletNotFound)
         | Some wallet =>
           u ← uuid8;
           let txId := "TX_TOP_" ++ u in
           transaction ← lift (Transaction.new txId userId amount
             "TRY" topup tx_ok None [("method", "bank_transfer")]);
           WalletRepository.transaction
             [ Database.CreditWallet amount userId;
               Database.InsertTransaction transaction ];;
           mret (ok MsgTopUpOk
                   (mkTopUpData txId amount (Wallet.balance wallet + amount)))
         end
     end)
    (fun _ => mret (fail MsgTopUpError)).

(** [topUpWallet] with the arithmetic of binary64. *)
Definition topUpWallet64 (userId : string) (amount : jsval)
    : M (Result TopUpData) :=
  try_catch
    (match typeof_number amount with
     | None => mret (fail MsgInvalidAmount)
     | Some amount =>
       if Qleb amount 0 then mret (fail MsgInvalidAmount)
       else
         wallet ← WalletRepository.findByUserId userId;
         match wallet with
         | None => mret (fail MsgWalletNotFound)
         | Some wallet =>
           u ← uuid8;
           let txId := "TX_TOP_" ++ u in
           transaction ← lift (Transaction.new txId userId amount
             "TRY" topup tx_ok None [("method", "bank_transfer")]);
           WalletRepository.transaction64
             [ Database.CreditWallet amount userId;
               Database.InsertTransaction transaction ];;
           mret (ok MsgTopUpOk
                   (mkTopUpData txId amount (add64 (Wallet.balance wallet) amount)))
         end
     end)
    (fun _ => mret (fail MsgTopUpError)).

(** [qrInfo.k]: a TypeError when [qrInfo] is [null] or [undefined]. *)
Definition prop (v : jsval) (k : string) : M jsval :=
  match get_prop v k with
  | Some x => mret x
  | None => throw TypeError
  end.

Definition processQRPayment (userId : string) (qrData : jsval)
    : M (Result PaymentData) :=
  try_catch
    (let parsed :=
       match qrData with
       | JStr s => JSON_parse s
       | _ => Some qrData
       end in
     match parsed with
     | None => mret (fail MsgQRFormat)
     | Some qrInfo =>
       qr_id ← prop qrInfo "qr_id";
       merchant_id ← prop qrInfo "merchant_id";
       qr_amount ← prop qrInfo "amount";
       if negb (truthy qr_id) || negb (truthy merchant_id)
          || negb (truthy qr_amount)
       then mret (fail MsgQRIncomplete)
       else match parseFloat qr_amount with
       | None => mret (fail MsgQRInvalidAmount)
       | Some amount =>
         if Qleb amount 0 then mret (fail MsgQRInvalidAmount)
         else
           ts ← prop qrInfo "ts";
           t ← current_time;
           let expired :=
             truthy ts &&
             match hours_between t ts with
             | Some hoursDiff => Qltb 24 hoursDiff
             | None => false
             end in
           if expired then mret (fail MsgQRExpired)
           else
             result ← processPayment userId merchant_id (JNum amount);
             match success result, data result with
             | true, Some d =>
                 mret (ok MsgQROk
                         (mkPaymentData (transactionId d) (payment_amount d)
                            merchant_id (newBalance d) (Some qr_id)))
             | _, _ => mret result
             end
       end
     end)
    (fun _ => mret (fail MsgQRError)).

End Externals.

(** What [getTransactionDescription] says, named by its text. *)
Inductive Description : Type :=
| DescOfMeta (text : string)
| DescReceivedFrom (fromUserId : string)
| DescReceived
| DescSentTo (toUserId : string)
| DescSent
| DescPaidAt (merchantName : string)
| DescPaid
| DescTopUp
| DescSplitSettlement
| DescRefund
| DescCashback
| DescOther.

(** [meta.k] of the metadata bag as a truthy text. *)
Definition meta_text (k : string) (m : Meta) : option string :=
  match meta_get k m with
  | Some v => if str_truthy v then Some v else None
  | None => None
  end.

(** [getTransactionDescription(tx)] *)
Definition getTransactionDescription (tx : TransactionRepository.TxObject)
    : Description :=
  let t := TransactionRepository.tx_row tx in
  match meta_text "description" (tx_meta t) with
  | Some text => DescOfMeta text
  | None =>
      match tx_type t with
      | transfer_in =>
          match meta_text "fromUserId" (tx_meta t) with
          | Some u => DescReceivedFrom u
          | None => DescReceived
          end
      | transfer_out =>
          match meta_text "toUserId" (tx_meta t) with
          | Some u => DescSentTo u
          | None => DescSent
          end
      | payment =>
          match TransactionRepository.merchantName tx with
          | Some n => if str_truthy n then DescPaidAt n else DescPaid
          | None => DescPaid
          end
      | topup => DescTopUp
      | split_settlement => DescSplitSettlement
      | refund => DescRefund
      | cashback => DescCashback
      | bill_split => DescOther
      end
  end.

Record BalanceData : Type := mkBalanceData {
  bd_balance : Q;
  bd_currency : string;
  bd_formattedBalance : string
}.

(** An entry of the history as the service returns it. *)
Record HistoryItem : Type := mkHistoryItem {
  hi_txId : string;
  hi_type : TxType;
  hi_amount : Q;
  hi_formattedAmount : string;
  hi_description : Description;
  hi_merchantId : option string;
  hi_merchantName : option string;
  hi_status : TxStatus
}.

Record HistoryData : Type := mkHistoryData {
  hd_transactions : list HistoryItem;
  hd_pagination : TransactionRepository.Pagination
}.

Section Reads.

(** [x.toFixed(2)] *)
Variable toFixed2 : Q -> string.
(** ORDER BY t.created_at DESC on rows of the table. *)
Variable by_created_at_desc : list TxRow -> list TxRow.

(** [getWalletBalance(userId)] *)
Definition getWalletBalance (userId : string) : M (Reply BalanceData) :=
  try_catch
    (wallet ← WalletRepository.findByUserId userId;
     match wallet with
     | None => mret (mkReply false MsgBalanceNotFound None)
     | Some wallet =>
         mret (mkReply true MsgNoMessage
                 (Some (mkBalanceData (Wallet.balance wallet)
                          (Wallet.currency wallet)
                          (toFixed2 (Wallet.balance wallet) ++ " "
                           ++ Wallet.currency wallet))))
     end)
    (fun _ => mret (mkReply false MsgBalanceError None)).

Definition history_item (tx : TransactionRepository.TxObject) : HistoryItem :=
  let t := TransactionRepository.tx_row tx in
  mkHistoryItem (tx_id t) (tx_type t) (tx_amount t)
    (toFixed2 (tx_amount t) ++ " " ++ tx_currency t)
    (getTransactionDescription tx)
    (tx_merchant_id t) (TransactionRepository.merchantName tx) (tx_status t).

(** [getTransactionHistory(userId, page, pageSize)] *)
Definition getTransactionHistory (userId : string) (page pageSize : Z)
    : M (Reply HistoryData) :=
  try_catch
    (result ← TransactionRepository.getUserTransactionHistory
                by_created_at_desc userId page pageSize;
     mret (mkReply true MsgNoMessage
             (Some (mkHistoryData
                      (map history_item
                           (TransactionRepository.history_transactions result))
                      (TransactionRepository.pagination result)))))
    (fun _ => mret (mkReply false MsgHistoryError None)).

End Reads.

End PaymentService.

(** ** BillSplitService *)

(** A request field that should hold an array: [Array.isArray] tells. *)
Inductive array_payload (A : Type) : Type :=
| NotAnArray
| AnArray (items : list A).
Arguments NotAnArray {A}.
Arguments AnArray {A} items.

Module BillSplitService.

Record SplitView : Type := mkSplitView {
  v_debtorUserId : string;
  v_shareAmount : Q;
  v_weight : Q
}.

Record SplitData : Type := mkSplitData {
  originalTxId : string;
  totalAmount : Q;
  shareAmount : option Q;
  totalUsers : option nat;
  totalWeight : option Q;
  debtorCount : nat;
  splits : list SplitView
}.

Record SettleData : Type := mkSettleData {
  s_splitId : nat;
  s_amount : Q;
  s_payerUserId : string;
  s_debtorUserId : string;
  transferTransactionId : string
}.

Record TransferData : Type := mkTransferData {
  outTransactionId : string;
  inTransactionId : string;
  transfer_amount : Q
}.

(** An item [{ userId, weight }] of the weighted request. *)
Record DebtorWeight : Type := mkDebtorWeight {
  userId : string;
  weight : jsval
}.

Definition view (b : SplitRow) : SplitView :=
  mkSplitView (debtor_user_id b) (share_amount b) (sp_weight b).

Definition createEqualSplit (payerUserId originalTxId : string)
    (debtorUserIds : array_payload string) : M (Result SplitData) :=
  try_catch
    (match debtorUserIds with
     | NotAnArray => mret (fail MsgInvalidParams)
     | AnArray debtorUserIds =>
       if negb (str_truthy payerUserId) || negb (str_truthy originalTxId)
          || (length debtorUserIds =? 0)%nat
       then mret (fail MsgInvalidParams)
       else
         let filteredDebtors :=
           List.filter (fun id => negb (String.eqb id payerUserId)) debtorUserIds in
         if (length filteredDebtors =? 0)%nat then mret (fail MsgNoDebtor)
         else
           originalTx ← TransactionRepository.findById originalTxId;
           match originalTx with
           | None => mret (fail MsgOriginalTxNotFound)
           | Some originalTx =>
             if negb (String.eqb (tx_user_id originalTx) payerUserId)
             then mret (fail MsgNotYourTx)
             else
               userValidations ← mapM UserRepository.exists_ filteredDebtors;
               if existsb negb userValidations then mret (fail MsgUsersNotFound)
               else
                 let totalUsers := S (length filteredDebtors) in
                 let shareAmount :=
                   round2 (tx_amount originalTx / inject_Z (Z.of_nat totalUsers)) in
                 billSplits ← mapM (fun debtorUserId =>
                     lift (BillSplit.new 0 originalTxId payerUserId debtorUserId
                             (tx_amount originalTx) shareAmount 1 pending))
                   filteredDebtors;
                 BillSplitRepository.createMultiple billSplits;;
                 mret (ok MsgSplitOk
                         (mkSplitData originalTxId (tx_amount originalTx)
                            (Some shareAmount) (Some totalUsers) None
                            (length filteredDebtors) (map view billSplits)))
           end
     end)
    (fun _ => mret (fail MsgSplitError)).

(** [createEqualSplit] with the arithmetic of binary64. *)
Definition createEqualSplit64 (payerUserId originalTxId : string)
    (debtorUserIds : array_payload string) : M (Result SplitData) :=
  try_catch
    (match debtorUserIds with
     | NotAnArray => mret (fail MsgInvalidParams)
     | AnArray debtorUserIds =>
       if negb (str_truthy payerUserId) || negb (str_truthy originalTxId)
          || (length debtorUserIds =? 0)%nat
       then mret (fail MsgInvalidParams)
       else
         let filteredDebtors :=
           List.filter (fun id => negb (String.eqb id payerUserId)) debtorUserIds in
         if (length filteredDebtors =? 0)%nat then mret (fail MsgNoDebtor)
         else
           originalTx ← TransactionRepository.findById originalTxId;
           match originalTx with
           | None => mret (fail MsgOriginalTxNotFound)
           | Some originalTx =>
             if negb (String.eqb (tx_user_id originalTx) payerUserId)
             then mret (fail MsgNotYourTx)
             else
               userValidations ← mapM UserRepository.exists_ filteredDebtors;
               if existsb negb userValidations then mret (fail MsgUsersNotFound)
               else
                 let totalUsers := S (length filteredDebtors) in
                 let shareAmount :=
                   round2_64 (div64 (tx_amount originalTx)
                                    (inject_Z (Z.of_nat totalUsers))) in
                 billSplits ← mapM (fun debtorUserId =>
                     lift (BillSplit.new 0 originalTxId payerUserId debtorUserId
                             (tx_amount originalTx) shareAmount 1 pending))
                   filteredDebtors;
                 BillSplitRepository.createMultiple billSplits;;
                 mret (ok MsgSplitOk
                         (mkSplitData originalTxId (tx_amount originalTx)
                            (Some shareAmount) (Some totalUsers) None
                            (length filteredDebtors) (map view billSplits)))
           end
     end)
    (fun _ => mret (fail MsgSplitError)).

(** [typeof item.weight !== 'number' || item.weight <= 0] *)
Definition invalid_weight (item : DebtorWeight) : bool :=
  match typeof_number (weight item) with
  | None => true
  | Some w => Qleb w 0
  end.

(** [item.weight] once it is known to be a number. *)
Definition weight_of (item : DebtorWeight) : Q :=
  match typeof_number (weight item) with Some w => w | None => 0 end.

Definition createWeightedSplit (payerUserId originalTxId : string)
    (debtorWeights : array_payload DebtorWeight) : M (Result SplitData) :=
  try_catch
    (match debtorWeights with
     | NotAnArray => mret (fail MsgInvalidParams)
     | AnArray debtorWeights =>
       if negb (str_truthy payerUserId) || negb (str_truthy originalTxId)
          || (length debtorWeights =? 0)%nat
       then mret (fail MsgInvalidParams)
       else
         let filteredDebtors :=
           List.filter (fun item => negb (String.eqb (userId item) payerUserId))
                       debtorWeights in
         if (length filteredDebtors =? 0)%nat then mret (fail MsgNoDebtor)
         else if existsb invalid_weight filteredDebtors
         then mret (fail MsgWeightsPositive)
         else
           originalTx ← TransactionRepository.findById originalTxId;
           match originalTx with
           | None => mret (fail MsgOriginalTxNotFound)
           | Some originalTx =>
             if negb (String.eqb (tx_user_id originalTx) payerUserId)
             then mret (fail MsgNotYourTx)
             else
               userValidations ←
                 mapM (fun item => UserRepository.exists_ (userId item))
                      filteredDebtors;
               if existsb negb userValidations then mret (fail MsgUsersNotFound)
               else
                 let totalWeight :=
                   fold_left (fun sum item => sum + weight_of item)
                             filteredDebtors 0 in
                 billSplits ← mapM (fun item =>
                     let shareAmount :=
                       round2 (tx_amount originalTx * weight_of item / totalWeight) in
                     lift (BillSplit.new 0 originalTxId payerUserId (userId item)
                             (tx_amount originalTx) shareAmount (weight_of item)
                             pending))
                   filteredDebtors;
                 BillSplitRepository.createMultiple billSplits;;
                 mret (ok MsgWeightedOk
                         (mkSplitData originalTxId (tx_amount originalTx)
                            None None (Some totalWeight)
                            (length filteredDebtors) (map view billSplits)))
           end
     end)
    (fun _ => mret (fail MsgWeightedError)).

(** [createWeightedSplit] with the arithmetic of binary64. *)
Definition createWeightedSplit64 (payerUserId originalTxId : string)
    (debtorWeights : array_payload DebtorWeight) : M (Result SplitData) :=
  try_catch
    (match debtorWeights with
     | NotAnArray => mret (fail MsgInvalidParams)
     | AnArray debtorWeights =>
       if negb (str_truthy payerUserId) || negb (str_truthy originalTxId)
          || (length debtorWeights =? 0)%nat
       then mret (fail MsgInvalidParams)
       else
         let filteredDebtors :=
           List.filter (fun item => negb (String.eqb (userId item) payerUserId))
                       debtorWeights in
         if (length filteredDebtors =? 0)%nat then mret (fail MsgNoDebtor)
         else if existsb invalid_weight filteredDebtors
         then mret (fail MsgWeightsPositive)
         else
           originalTx ← TransactionRepository.findById originalTxId;
           match originalTx with
           | None => mret (fail MsgOriginalTxNotFound)
           | Some originalTx =>
             if negb (String.eqb (tx_user_id originalTx) payerUserId)
             then mret (fail MsgNotYourTx)
             else
               userValidations ←
                 mapM (fun item => UserRepository.exists_ (userId item))
                      filteredDebtors;
               if existsb negb userValidations then mret (fail MsgUsersNotFound)
               else
                 let totalWeight :=
                   fold_left (fun sum item => add64 sum (weight_of item))
                             filteredDebtors 0 in
                 billSplits ← mapM (fun item =>
                     let shareAmount :=
                       round2_64 (div64 (mul64 (tx_amount originalTx) (weight_of item))
                                    totalWeight) in
                     lift (BillSplit.new 0 originalTxId payerUserId (userId item)
                             (tx_amount originalTx) shareAmount (weight_of item)
                             pending))
                   filteredDebtors;
                 BillSplitRepository.createMultiple billSplits;;
                 mret (ok MsgWeightedOk
                         (mkSplitData originalTxId (tx_amount originalTx)
                            None None (Some totalWeight)
                            (length filteredDebtors) (map view billSplits)))
           end
     end)
    (fun _ => mret (fail MsgWeightedError)).

(** The transfer of the settlement ("used internally"): the same bundle
    as PaymentService.transferMoney without its checks, and the
    exception is thrown again. *)
Definition transferMoney (fromUserId toUserId : string) (amount : Q)
    : M (Result TransferData) :=
  try_catch
    (u1 ← uuid8;
     u2 ← uuid8;
     let outTxId := "TX_SPLIT_" ++ u1 in
     let inTxId := "TX_SPLIT_" ++ u2 in
     outTransaction ← lift (Transaction.new outTxId fromUserId amount
       "TRY" bill_split tx_ok None
       [("to_user", toUserId); ("related_tx", inTxId); ("type", "split_payment")]);
     inTransaction ← lift (Transaction.new inTxId toUserId amount
       "TRY" transfer_in tx_ok None
       [("from_user", fromUserId); ("related_tx", outTxId);
        ("type", "split_received")]);
     WalletRepository.transaction
       [ Database.DebitWallet amount fromUserId;
         Database.CreditWallet amount toUserId;
         Database.InsertTransaction outTransaction;
         Database.InsertTransaction inTransaction ];;
     mret (ok MsgNone (mkTransferData outTxId inTxId amount)))
    (fun error => throw error).

(** The transfer of the settlement with the arithmetic of binary64. *)
Definition transferMoney64 (fromUserId toUserId : string) (amount : Q)
    : M (Result TransferData) :=
  try_catch
    (u1 ← uuid8;
     u2 ← uuid8;
     let outTxId := "TX_SPLIT_" ++ u1 in
     let inTxId := "TX_SPLIT_" ++ u2 in
     outTransaction ← lift (Transaction.new outTxId fromUserId amount
       "TRY" bill_split tx_ok None
       [("to_user", toUserId); ("related_tx", inTxId); ("type", "split_payment")]);
     inTransaction ← lift (Transaction.new inTxId toUserId amount
       "TRY" transfer_in tx_ok None
       [("from_user", fromUserId); ("related_tx", outTxId);
        ("type", "split_received")]);
     WalletRepository.transaction64
       [ Database.DebitWallet amount fromUserId;
         Database.CreditWallet amount toUserId;
         Database.InsertTransaction outTransaction;
         Database.InsertTransaction inTransaction ];;
     mret (ok MsgNone (mkTransferData outTxId inTxId amount)))
    (fun error => throw error).

Definition settleBillSplit (splitId : nat) (payingUserId : string)
    : M (Result SettleData) :=
  try_catch
    (split ← BillSplitRepository.findById splitId;
     match split with
     | None => mret (fail MsgSplitNotFound)
     | Some split =>
       if negb (String.eqb (debtor_user_id split) payingUserId)
       then mret (fail MsgOnlyDebtor)
       else if BillSplit.isSettled split
       then mret (fail MsgAlreadySettled)
       else
         hasFunds ← WalletRepository.hasSufficientFunds payingUserId
                      (share_amount split);
         if negb hasFunds then mret (fail MsgInsufficientFunds)
         else
           transferResult ← transferMoney (debtor_user_id split)
                              (payer_user_id split) (share_amount split);
           match success transferResult, data transferResult with
           | true, Some d =>
             BillSplitRepository.settle splitId;;
             mret (ok MsgSettleOk
                     (mkSettleData splitId (share_amount split)
                        (payer_user_id split) (debtor_user_id split)
                        (outTransactionId d)))
           | _, _ => mret (fail (message transferResult))
           end
     end)
    (fun _ => mret (fail MsgSettleError)).

(** [settleBillSplit] with the arithmetic of binary64. *)
Definition settleBillSplit64 (splitId : nat) (payingUserId : string)
    : M (Result SettleData) :=
  try_catch
    (split ← BillSplitRepository.findById splitId;
     match split with
     | None => mret (fail MsgSplitNotFound)
     | Some split =>
       if negb (String.eqb (debtor_user_id split) payingUserId)
       then mret (fail MsgOnlyDebtor)
       else if BillSplit.isSettled split
       then mret (fail MsgAlreadySettled)
       else
         hasFunds ← WalletRepository.hasSufficientFunds payingUserId
                      (share_amount split);
         if negb hasFunds then mret (fail MsgInsufficientFunds)
         else
           transferResult ← transferMoney64 (debtor_user_id split)
                              (payer_user_id split) (share_amount split);
           match success transferResult, data transferResult with
           | true, Some d =>
             BillSplitRepository.settle splitId;;
             mret (ok MsgSettleOk
                     (mkSettleData splitId (share_amount split)
                        (payer_user_id split) (debtor_user_id split)
                        (outTransactionId d)))
           | _, _ => mret (fail (message transferResult))
           end
     end)
    (fun _ => mret (fail MsgSettleError)).

Definition cancelBillSplit (splitId : nat) (userId : string)
    : M (Result unit) :=
  try_catch
    (split ← BillSplitRepository.findById splitId;
     match split with
     | None => mret (fail MsgSplitNotFound)
     | Some split =>
       if negb (String.eqb (payer_user_id split) userId)
       then mret (fail MsgOnlyPayer)
       else if BillSplit.isSettled split
       then mret (fail MsgSettledNoCancel)
       else
         BillSplitRepository.cancel splitId;;
         mret (mkResult true MsgCancelOk None)
     end)
    (fun _ => mret (fail MsgCancelError)).

Record SplitSummary : Type := mkSplitSummary {
  summary : BillSplitRepository.PendingSummary;
  pendingAsPayerCount : nat;
  pendingAsDebtorCount : nat;
  recentSplits : list BillSplitRepository.SplitWithNames
}.

Section Reads.

(** ORDER BY created_at DESC on rows of the table. *)
Variable by_created_at_desc : list SplitRow -> list SplitRow.
(** SUM over REAL values, as SQLite adds them up. *)
Variable sql_sum : list Q -> Q.

(** [getUserSplitSummary(userId)] *)
Definition getUserSplitSummary (userId : string) : M (Reply SplitSummary) :=
  try_catch
    (summary ← BillSplitRepository.getPendingSummary sql_sum userId;
     asPayerSplits ← BillSplitRepository.findByPayerId by_created_at_desc
                       userId (Some "pending");
     asDebtorSplits ← BillSplitRepository.findByDebtorId by_created_at_desc
                        userId (Some "pending");
     recentSplits ← BillSplitRepository.findByUserId by_created_at_desc
                      userId None;
     mret (mkReply true MsgNoMessage
             (Some (mkSplitSummary summary (length asPayerSplits)
                      (length asDebtorSplits) recentSplits))))
    (fun _ => mret (mkReply false MsgSummaryError None)).

End Reads.

(** [getSplitDetails(splitId)] *)
Definition getSplitDetails (splitId : option Z)
    : M (Reply BillSplitRepository.SplitDetails) :=
  try_catch
    (details ← BillSplitRepository.findDetailedById splitId;
     match details with
     | None => mret (mkReply false MsgDetailsNotFound None)
     | Some details => mret (mkReply true MsgNoMessage (Some details))
     end)
    (fun _ => mret (mkReply false MsgDetailsError None)).

End BillSplitService.

(** ** CashbackService *)

Module CashbackService.

Record AppliedRule : Type := mkAppliedRule {
  ruleId : string;
  applied_amount : Q
}.

(** [{ cashbackAmount, applied, appliedRules, message }] *)
Record Summary : Type := mkSummary {
  cashbackAmount : Q;
  applied : bool;
  appliedRules : list AppliedRule;
  cb_message : Msg
}.

(** [rule.cap && cashbackAmount > rule.cap]: a cap that is NULL or 0 is
    falsy and does not limit. *)
Definition cap_applies (cap : option Q) (cashbackAmount : Q) : bool :=
  match cap with
  | Some c => negb (Qeq_bool c 0) && Qltb c cashbackAmount
  | None => false
  end.

(** [calculateCashbackAmount(userId, rule, amount, category)].  Nothing
    in its body can throw, so its catch branch is left out. *)
Definition calculateCashbackAmount (rule : RuleRow) (amount : Q) : Q :=
  let cashbackAmount :=
    match rule_type rule with
    | percent =>
        let c := amount * rate rule in
        if cap_applies (cap rule) c then default 0 (cap rule) else c
    | flat => flat_amount rule
    end in
  round2 cashbackAmount.

(** [calculateCashbackAmount] with the arithmetic of binary64. *)
Definition calculateCashbackAmount64 (rule : RuleRow) (amount : Q) : Q :=
  let cashbackAmount :=
    match rule_type rule with
    | percent =>
        let c := mul64 amount (rate rule) in
        if cap_applies (cap rule) c then default 0 (cap rule) else c
    | flat => flat_amount rule
    end in
  round2_64 cashbackAmount.

(** The WHERE clause of the rule query: active, category equal to the
    merchant's or 'any', and today inside the validity window. *)
Definition rule_matches (category date : string) (r : RuleRow) : bool :=
  active r
  && match r_category r with
     | Some c => String.eqb c category || String.eqb c "any"
     | None => false
     end
  && match starts_at r with Some d => String.leb d date | None => true end
  && match ends_at r with Some d => String.leb date d | None => true end.

Definition select_rules (category date : string) (s : Store)
    : list (string * RuleRow) :=
  List.filter (fun kr => rule_matches category date (snd kr))
              (map_to_list (cashback_rules s)).

(** user_id = ? AND type = 'cashback' AND json_extract(meta, '$.rule_id') = ? *)
Definition is_cashback_of (userId rule_id : string) (t : TxRow) : bool :=
  String.eqb (tx_user_id t) userId
  && TxType_eqb (tx_type t) cashback
  && match meta_get "rule_id" (tx_meta t) with
     | Some r => String.eqb r rule_id
     | None => false
     end.

(** SELECT COUNT( * ) of the cashback records of a user for a rule. *)
Definition count_previous (userId rule_id : string) (s : Store) : nat :=
  length (List.filter (is_cashback_of userId rule_id) (transactions s)).

(** The loop that filters the first-time-only rules. *)
Fixpoint filter_first_time (userId : string) (rules : list (string * RuleRow))
    : M (list (string * RuleRow)) :=
  match rules with
  | [] => mret []
  | (rule_id, rule) :: rest =>
      keep ← (if first_time_only rule
              then count ← Database.get (count_previous userId rule_id);
                   mret (count =? 0)%nat
              else mret true);
      filteredRules ← filter_first_time userId rest;
      mret (if keep : bool then (rule_id, rule) :: filteredRules
            else filteredRules)
  end.

Definition getApplicableCashbackRules (userId category paymentTxId : string)
    : M (list (string * RuleRow)) :=
  try_catch
    (t ← current_time;
     let date := String.substring 0 10 t in
     rules ← Database.get (select_rules category date);
     filter_first_time userId rules)
    (fun _ => mret []).

Section Externals.

(** [getCashbackDescription(rule, merchant)], a formatted text. *)
Variable getCashbackDescription : RuleRow -> MerchantRow -> string.

(** The body of the loop over the applicable rules. *)
Fixpoint apply_rules (userId merchantId : string) (merchant : MerchantRow)
    (amount : Q) (paymentTxId : string) (rules : list (string * RuleRow))
    (totalCashback : Q) (appliedRules : list AppliedRule)
    : M (Q * list AppliedRule) :=
  match rules with
  | [] => mret (totalCashback, appliedRules)
  | (rule_id, rule) :: rest =>
      let cashbackAmount := calculateCashbackAmount rule amount in
      if Qltb 0 cashbackAmount then
        u ← uuid8;
        let cashbackTxId := "TX_CB_" ++ u in
        cashbackTx ← lift (Transaction.new cashbackTxId userId cashbackAmount
          "TRY" cashback tx_ok (Some merchantId)
          [("rule_id", rule_id); ("original_tx_id", paymentTxId);
           ("description", getCashbackDescription rule merchant)]);
        TransactionRepository.create cashbackTx;;
        Database.run (Database.CreditWallet cashbackAmount userId);;
        apply_rules userId merchantId merchant amount paymentTxId rest
          (totalCashback + cashbackAmount)
          (appliedRules ++ [mkAppliedRule rule_id cashbackAmount])
      else
        apply_rules userId merchantId merchant amount paymentTxId rest
          totalCashback appliedRules
  end.

Definition calculateAndApplyCashback (userId merchantId : string)
    (amount : Q) (paymentTxId : string) : M Summary :=
  try_catch
    (merchant ← Database.get (fun s => merchants s !! merchantId);
     match merchant with
     | None => mret (mkSummary 0 false [] MsgNone)
     | Some merchant =>
       rules ← getApplicableCashbackRules userId (m_category merchant)
                 paymentTxId;
       if (length rules =? 0)%nat
       then mret (mkSummary 0 false [] MsgNoCampaign)
       else
         '(totalCashback, appliedRules) ←
           apply_rules userId merchantId merchant amount paymentTxId
                       rules 0 [];
         mret (mkSummary totalCashback (Qltb 0 totalCashback) appliedRules
                 (if Qltb 0 totalCashback then MsgCashbackWon
                  else MsgCashbackNotApplied))
     end)
    (fun _ => mret (mkSummary 0 false [] MsgCashbackError)).

End Externals.

(** An entry of the list of campaigns: the id, the columns of the rule and
    the description. *)
Record Campaign : Type := mkCampaign {
  campaign_ruleId : string;
  campaign_rule : RuleRow;
  campaign_description : string
}.

(** The WHERE clause of the campaign query: active, and today inside the
    validity window. *)
Definition in_window (date : string) (r : RuleRow) : bool :=
  active r
  && match starts_at r with Some d => String.leb d date | None => true end
  && match ends_at r with Some d => String.leb date d | None => true end.

Section Campaigns.

(** ORDER BY rule_type, category on rows of the table. *)
Variable by_rule_type_category :
  list (string * RuleRow) -> list (string * RuleRow).
(** [getCampaignDescription(rule)], a formatted text. *)
Variable getCampaignDescription : RuleRow -> string.

(** [getActiveCampaigns()] *)
Definition getActiveCampaigns : M (Reply (list Campaign)) :=
  try_catch
    (t ← current_time;
     let date := String.substring 0 10 t in
     rules ← Database.get (fun s =>
               by_rule_type_category
                 (List.filter (fun kr => in_window date (snd kr))
                              (map_to_list (cashback_rules s))));
     mret (mkReply true MsgNoMessage
             (Some (map (fun kr => mkCampaign (fst kr) (snd kr)
                                     (getCampaignDescription (snd kr)))
                        rules))))
    (fun _ => mret (mkReply false MsgCampaignsError None)).

End Campaigns.

End CashbackService.

(** ** The seed data of schema.sql (an excerpt of the demo transactions) *)

Definition seed : Store :=
  mkStore
    (list_to_map
       [ ("U1", mkUser "Ayse" "+905551111111");
         ("U2", mkUser "Ali" "+905552222222");
         ("U3", mkUser "Deniz" "+905553333333") ])
    (list_to_map
       [ ("M1", mkMerchant "Kampus Kafe" "cafe");
         ("M2", mkMerchant "Kampus Market" "market") ])
    (list_to_map
       [ ("U1", mkWallet 250 "TRY");
         ("U2", mkWallet 90 "TRY");
         ("U3", mkWallet 30 "TRY") ])
    [ mkTx "TX_PAY_004" "U1" (Some "M1") (37 # 2) "TRY" payment tx_ok
           [("payment_method", "qr_code"); ("qr_id", "QR-M1-001")];
      mkTx "TX_PAY_007" "U2" (Some "M1") (51 # 2) "TRY" payment tx_ok
           [("payment_method", "qr_code"); ("qr_id", "QR-M1-001")];
      mkTx "TX_CB_003" "U2" None 20 "TRY" cashback tx_ok
           [("rule_id", "CB2"); ("original_tx_id", "TX_PAY_007")] ]
    []
    1
    (list_to_map
       [ ("CB1", mkRule percent (Some "cafe") (5 # 100) 0 (Some 20) false
                        (Some "2025-10-01") (Some "2025-12-31") true);
         ("CB2", mkRule flat (Some "any") 0 20 (Some 20) true
                        (Some "2025-10-01") (Some "2025-10-31") true) ]).

Definition world0 : World :=
  mkWorld seed [] ["aaaaaaaa-1"; "bbbbbbbb-2"; "cccccccc-3"] "2025-10-15T12:00:00.000Z".

Definition balance_of (s : Store) (u : string) : option Q :=
  w_balance <$> wallets s !! u.

(** A store with one obligation that its payer has cancelled: U2 owed U1
    half of TX_PAY_004. *)
Definition seed_cancelled_split : Store :=
  Database.set_bill_splits seed
    [ mkSplit 1 "TX_PAY_004" "U1" "U2" (37 # 2) (37 # 4) 1 cancelled ] 2.

Definition split_status (s : Store) (id : nat) : option SplitStatus :=
  sp_status <$> Database.find_split s id.

(** ** The cashback amount in the words of the specification *)

(** "amount x rate, clamped to cap if a cap is set; flat rules: fixed
    flat_amount", before rounding. *)
Definition cashback_base_as_specified (rule : RuleRow) (amount : Q) : Q :=
  match rule_type rule with
  | percent =>
      match cap rule with
      | Some c => Qmin (amount * rate rule) c
      | None => amount * rate rule
      end
  | flat => flat_amount rule
  end.

(** The same with a cap of 0 read as no cap. *)
Definition cashback_base (rule : RuleRow) (amount : Q) : Q :=
  match rule_type rule with
  | percent =>
      match cap rule with
      | Some c => if Qeq_bool c 0 then amount * rate rule
                  else Qmin (amount * rate rule) c
      | None => amount * rate rule
      end
  | flat => flat_amount rule
  end.

(** A stand-in for the formatted description of a cashback. *)
Definition describe (rule : RuleRow) (merchant : MerchantRow) : string :=
  m_name merchant ++ " - Cashback".

(** The seed store in a world whose fifth statement is rejected. *)
Definition world_credit_fault : World :=
  mkWorld seed [false; false; false; false; true] ["aaaaaaaa-1"]
          "2025-10-15T12:00:00.000Z".

(** [l.reduce((sum, x) => sum + x, 0)] *)
Definition Qsum (l : list Q) : Q := fold_left Qplus l 0.

(** ** Calls of the service layer and the stores they reach *)

Inductive Call : Type :=
| CallTransfer (fromUserId toUserId : string) (amount : jsval)
| CallPayment (userId : string) (merchantId amount : jsval)
| CallTopUp (userId : string) (amount : jsval)
| CallQRPayment (userId : string) (qrData : jsval)
| CallEqualSplit (payerUserId originalTxId : string)
                 (debtorUserIds : array_payload string)
| CallWeightedSplit (payerUserId originalTxId : string)
                    (debtorWeights : array_payload BillSplitService.DebtorWeight)
| CallSettle (splitId : nat) (payingUserId : string)
| CallCancel (splitId : nat) (userId : string)
| CallCashback (userId merchantId : string) (amount : Q) (paymentTxId : string).

Section Calls.

Variable sql_text : jsval -> string.
Variable JSON_parse : string -> option jsval.
Variable parseFloat_other : jsval -> option Q.
Variable hours_between : string -> jsval -> option Q.
Variable getCashbackDescription : RuleRow -> MerchantRow -> string.

(** A call of a service, its result dropped. *)
Definition perform (c : Call) : M unit :=
  match c with
  | CallTransfer f t a => PaymentService.transferMoney f t a ;; mret tt
  | CallPayment u m a => PaymentService.processPayment sql_text u m a ;; mret tt
  | CallTopUp u a => PaymentService.topUpWallet u a ;; mret tt
  | CallQRPayment u qr =>
      PaymentService.processQRPayment sql_text JSON_parse parseFloat_other
        hours_between u qr ;; mret tt
  | CallEqualSplit p t ds => BillSplitService.createEqualSplit p t ds ;; mret tt
  | CallWeightedSplit p t ds => BillSplitService.createWeightedSplit p t ds ;; mret tt
  | CallSettle i u => BillSplitService.settleBillSplit i u ;; mret tt
  | CallCancel i u => BillSplitService.cancelBillSplit i u ;; mret tt
  | CallCashback u m a t =>
      CashbackService.calculateAndApplyCashback getCashbackDescription u m a t ;;
      mret tt
  end.

(** The store after a call made on store [s], for some fault plan, uuid
    supply and clock. *)
Definition after (c : Call) (fs : list bool) (us : list string) (t : string)
    (s : Store) : Store :=
  db (snd (perform c (mkWorld s fs us t))).

(** The stores reached from [s0] by any sequence of calls. *)
Inductive reachable (s0 : Store) : Store -> Prop :=
| reach_start : reachable s0 s0
| reach_call s c fs us t :
    reachable s0 s -> reachable s0 (after c fs us t s).

End Calls.

(** No wallet has a balance below 0. *)
Definition nonneg (s : Store) : Prop :=
  forall u row, wallets s !! u = Some row -> 0 <= w_balance row.

Definition nonnegb (s : Store) : bool :=
  forallb (fun kv => Qleb 0 (w_balance (snd kv))) (map_to_list (wallets s)).

(** ** A weakest-precondition reading of the monad

    [spec m s Q]: run on any world whose store is [s], [m] ends with an
    outcome and a store related by [Q]. *)
Definition spec {A} (m : M A) (s : Store) (Q : outcome A -> Store -> Prop) : Prop :=
  forall w, db w = s -> Q (fst (m w)) (db (snd (m w))).

(** A call that returns a structured failure and leaves the store as it
    is: no balance changed, no record inserted. *)
Definition rejects {D} (m : M (Result D)) (s : Store) : Prop :=
  forall w, db w = s ->
    exists r, fst (m w) = Ok r /\ success r = false /\ db (snd (m w)) = s.

(** The amount that processQRPayment takes from a payload. *)
Definition qr_amount (JSON_parse : string -> option jsval)
    (parseFloat_other : jsval -> option Q) (qrData : jsval) : option Q :=
  match (match qrData with JStr s => JSON_parse s | _ => Some qrData end) with
  | Some qrInfo =>
      match get_prop qrInfo "amount" with
      | Some v => PaymentService.parseFloat parseFloat_other v
      | None => None
      end
  | None => None
  end.

(** ** Effects on the ledger, as predicates on stores *)

(** The rules that [getApplicableCashbackRules] returns: distinct rules of
    the table, the first-time-only ones without a record for this user. *)
Definition offered (u : string) (s : Store) (rules : list (string * RuleRow)) : Prop :=
  NoDup (map fst rules)
  /\ forall rid r, In (rid, r) rules ->
       cashback_rules s !! rid = Some r
       /\ (first_time_only r = true ->
           CashbackService.count_previous u rid s = 0%nat).

(** What the loop over the offered rules does to the store: the rule table
    is untouched, balances only grow, and the count of cashback records
    grows by at most one, and only for this user and a rule of the list. *)
Definition loop_effect (u : string) (ids : list string) (s s' : Store) : Prop :=
  cashback_rules s' = cashback_rules s
  /\ (nonneg s -> nonneg s')
  /\ (forall u' rid, CashbackService.count_previous u' rid s'
                     <= CashbackService.count_previous u' rid s + 1)%nat
  /\ (forall u' rid, ~ (u' = u /\ In rid ids) ->
                     CashbackService.count_previous u' rid s'
                     = CashbackService.count_previous u' rid s).

(** The rule table and every count of cashback records are as before. *)
Definition ledger_stable (s s' : Store) : Prop :=
  cashback_rules s' = cashback_rules s
  /\ forall u rid, CashbackService.count_previous u rid s'
                   = CashbackService.count_previous u rid s.

(** The rule table is kept, and a first-time-only rule has at most one
    cashback record per user unless it had more to begin with. *)
Definition fires_once (s s' : Store) : Prop :=
  cashback_rules s' = cashback_rules s
  /\ forall u rid r,
       cashback_rules s !! rid = Some r -> first_time_only r = true ->
       (CashbackService.count_previous u rid s'
        <= Nat.max 1 (CashbackService.count_previous u rid s))%nat.

(** ** middleware/auth.js *)

Module SessionManager.

(** [{ userId, createdAt, lastAccess }], the dates in milliseconds. *)
Record Session : Type := mkSession {
  userId : string;
  createdAt : Z;
  lastAccess : Z
}.

(** [this.sessions] is a Map from session ids, here a
    [gmap string Session].

    [createSession(userId)]: [sessionId] is the uuid drawn, [createdAt]
    and [lastAccess] the two dates read. *)
Definition createSession (sessionId : string) (createdAt lastAccess : Z)
    (userId : string) (sessions : gmap string Session)
    : string * gmap string Session :=
  (sessionId, <[sessionId := mkSession userId createdAt lastAccess]> sessions).

(** [getSession(sessionId)] at date [now]: the session found is touched
    in place and returned. *)
Definition getSession (sessionId : string) (now : Z)
    (sessions : gmap string Session)
    : option Session * gmap string Session :=
  match sessions !! sessionId with
  | Some session =>
      let session := mkSession (userId session) (createdAt session) now in
      (Some session, <[sessionId := session]> sessions)
  | None => (None, sessions)
  end.

(** [destroySession(sessionId)]: what [Map.delete] returns. *)
Definition destroySession (sessionId : string)
    (sessions : gmap string Session) : bool * gmap string Session :=
  (match sessions !! sessionId with Some _ => true | None => false end,
   delete sessionId sessions).

(** 24 hours *)
Definition maxAge : Z := 24 * 60 * 60 * 1000.

(** [cleanExpiredSessions()] at date [now]: the loop over the entries. *)
Definition cleanExpiredSessions (now : Z) (sessions : gmap string Session)
    : gmap string Session :=
  map_fold (fun sessionId session (acc : gmap string Session) =>
              if (maxAge <? now - lastAccess session)%Z
              then delete sessionId acc
              else acc)
           sessions sessions.

End SessionManager.

(** [s.replace(pattern, replacement)] for a pattern that is a string: the
    first occurrence is replaced.  (The replacements of the source hold no
    [$].) *)
Definition String_replace (s pattern replacement : string) : string :=
  match String.index 0 pattern s with
  | Some i =>
      String.substring 0 i s ++ replacement
      ++ String.substring (i + String.length pattern)
           (String.length s - (i + String.length pattern)) s
  | None => s
  end.

Module AuthMiddleware.

Inductive AuthMsg : Type := MsgMustLogin | MsgBadSession.

(** The middleware answers 401 with a message, or calls [next()], with
    [req.session = { userId }] where it sets it. *)
Inductive Answer : Type :=
| Status401 (message : AuthMsg)
| CallNext (session_userId : option string).

(** [authMiddleware(req, res, next)], by the Authorization header. *)
Definition authMiddleware (authorization : option string) : Answer :=
  match authorization with
  | None => Status401 MsgMustLogin
  | Some authHeader =>
      if negb (str_truthy authHeader) then Status401 MsgMustLogin
      else
        let userId := String_replace authHeader "Bearer " "" in
        if negb (str_truthy userId) then Status401 MsgBadSession
        else CallNext (Some userId)
  end.

(** [optionalAuth(req, res, next)] *)
Definition optionalAuth (authorization : option string) : Answer :=
  match authorization with
  | None => CallNext None
  | Some authHeader =>
      if str_truthy authHeader then
        let userId := String_replace authHeader "Bearer " "" in
        if str_truthy userId then CallNext (Some userId) else CallNext None
      else CallNext None
  end.

End AuthMiddleware.

(** ** AuthService *)

Module AuthService.

Section Search.

Variable users_like : string -> Store -> list (string * UserRow).

(** [authenticateById(userId)] *)
Definition authenticateById (userId : jsval) : M (Reply (string * UserRow)) :=
  try_catch
    (match userId with
     | JStr id =>
         if negb (str_truthy id) then mret (mkReply false MsgAuthIdRequired None)
         else
           user ← UserRepository.findById id;
           match user with
           | None => mret (mkReply false MsgUserNotFound None)
           | Some user => mret (mkReply true MsgLoginOk (Some (id, user)))
           end
     | _ => mret (mkReply false MsgAuthIdRequired None)
     end)
    (fun _ => mret (mkReply false MsgLoginError None)).

(** [getUserProfile(userId)] *)
Definition getUserProfile (userId : string) : M (option (string * UserRow)) :=
  try_catch
    (user ← UserRepository.findById userId;
     mret (match user with
           | Some user => Some (userId, user)
           | None => None
           end))
    (fun _ => mret None).

(** [validateSession(userId)] *)
Definition validateSession (userId : string) : M bool :=
  try_catch (UserRepository.exists_ userId) (fun _ => mret false).

(** [searchUsers(currentUserId, searchTerm)] *)
Definition searchUsers (currentUserId searchTerm : string)
    : M (list (string * UserRow)) :=
  try_catch
    (if negb (str_truthy searchTerm) then mret []
     else
       byId ← (if String.prefix "U" searchTerm
               then user ← UserRepository.findById searchTerm;
                    mret (match user with
                          | Some user =>
                              if negb (String.eqb searchTerm currentUserId)
                              then Some [(searchTerm, user)]
                              else None
                          | None => None
                          end)
               else mret None);
       match byId with
       | Some found => mret found
       | None =>
           users ← UserRepository.searchByName users_like searchTerm;
           mret (List.filter
                   (fun user => negb (String.eqb (fst user) currentUserId))
                   users)
       end)
    (fun _ => mret []).

End Search.

End AuthService.

(** ** BudgetService *)

Module BudgetService.

Inductive Status : Type := good | warning | danger.

(** [getBudgetStatus(spent, limit)]: [(spent / limit) * 100], as
    binary64 computes it, against 95 and 80.  With a limit of 0 the
    quotient is an infinity or NaN, and only +Infinity passes a
    threshold. *)
Definition getBudgetStatus (spent limit : Q) : Status :=
  if Qeq_bool limit 0 then (if Qltb 0 spent then danger else good)
  else
    let percentage := mul64 (div64 spent limit) 100 in
    if Qleb 95 percentage then danger
    else if Qleb 80 percentage then warning
    else good.

End BudgetService.

(** ** BillSplitController *)

Module BillSplitController.

Section Externals.

(** [parseInt(s)]; [None] is NaN. *)
Variable parseInt : string -> option Z.

(** [getSplitDetails(req, res)] by [req.session?.userId] and
    [req.params.splitId]: the status and the body of the answer. *)
Definition getSplitDetails (session_userId : option string) (splitId : string)
    : M (nat * Reply BillSplitRepository.SplitDetails) :=
  try_catch
    (match session_userId with
     | None => mret (401%nat, mkReply false MsgLoginRequired None)
     | Some userId =>
         if negb (str_truthy userId)
         then mret (401%nat, mkReply false MsgLoginRequired None)
         else if negb (str_truthy splitId)
         then mret (400%nat, mkReply false MsgSplitIdRequired None)
         else
           result ← BillSplitService.getSplitDetails (parseInt splitId);
           match reply_success result, reply_data result with
           | true, Some split =>
               if negb (String.eqb
                          (payer_user_id (BillSplitRepository.d_split split))
                          userId)
                  && negb (String.eqb
                             (debtor_user_id (BillSplitRepository.d_split split))
                             userId)
               then mret (403%nat, mkReply false MsgForbidden None)
               else mret (200%nat, result)
           | true, None => throw TypeError
           | false, _ => mret (404%nat, result)
           end
     end)
    (fun _ => mret (500%nat, mkReply false MsgServerError None)).

End Externals.

End BillSplitController.

(** ** Specification vocabulary for the further properties *)

(** The statements of a list issued one after the other with [db.run],
    outside any bundle. *)
Fixpoint run_each (l : list Database.Stmt) : M unit :=
  match l with
  | [] => mret tt
  | st :: l' => Database.run st ;; run_each l'
  end.

(** What a call may do to the store and no more: users, merchants and
    cashback rules stay; no wallet appears, disappears or changes its
    currency; the transactions are added to at the end; the bill splits
    are added to at the end, and otherwise change their status only. *)
Definition kept (s s' : Store) : Prop :=
  users s' = users s
  /\ merchants s' = merchants s
  /\ cashback_rules s' = cashback_rules s
  /\ (forall u, w_currency <$> wallets s' !! u = w_currency <$> wallets s !! u)
  /\ (exists new, transactions s' = (transactions s ++ new)%list)
  /\ (exists new, map (Database.with_status pending) (bill_splits s')
                  = (map (Database.with_status pending) (bill_splits s)
                     ++ new)%list).

(** The store after the transfer of a settlement: the debtor debited, the
    payer credited if there is a wallet, a bill_split record for the debtor
    and a transfer_in record for the payer that name each other. *)
Definition settlement_transfer (b : SplitRow) (out_id in_id : string)
    (s : Store) : Store :=
  Database.set_transactions
    (Database.set_wallets s
       (alter (Database.add_balance (share_amount b)) (payer_user_id b)
          (alter (Database.sub_balance (share_amount b)) (debtor_user_id b)
                 (wallets s))))
    (transactions s ++
     [ mkTx out_id (debtor_user_id b) None (share_amount b) "TRY" bill_split tx_ok
            [("to_user", payer_user_id b); ("related_tx", in_id);
             ("type", "split_payment")];
       mkTx in_id (payer_user_id b) None (share_amount b) "TRY" transfer_in tx_ok
            [("from_user", debtor_user_id b); ("related_tx", out_id);
             ("type", "split_received")] ])%list.

(** The store with the status of the splits of an id set. *)
Definition with_split_status (st : SplitStatus) (id : nat) (s : Store) : Store :=
  Database.set_bill_splits s
    (map (fun r => if Nat.eqb (split_id r) id
                   then Database.with_status st r else r)
         (bill_splits s))
    (next_split_id s).

(** The seed store with one obligation, pending or settled: U2 owes U1
    half of TX_PAY_004. *)
Definition seed_pending_split : Store :=
  Database.set_bill_splits seed
    [ mkSplit 1 "TX_PAY_004" "U1" "U2" (37 # 2) (37 # 4) 1 pending ] 2.

Definition seed_settled_split : Store :=
  Database.set_bill_splits seed
    [ mkSplit 1 "TX_PAY_004" "U1" "U2" (37 # 2) (37 # 4) 1 settled ] 2.

(** ** Stores for the binary64 reading *)

(** The seed store with other balances for U1 and U2. *)
Definition seed_with_balances (b1 b2 : Q) : Store :=
  Database.set_wallets seed
    (<["U1" := mkWallet b1 "TRY"]> (<["U2" := mkWallet b2 "TRY"]> (wallets seed))).

(** The amount of a cashback before its rounding to the cent, as binary64
    computes it: the product is rounded; a cap that is set and is not 0
    limits it. *)
Definition cashback_base64 (rule : RuleRow) (amount : Q) : Q :=
  match rule_type rule with
  | percent =>
      let product := mul64 amount (rate rule) in
      match cap rule with
      | Some c => if Qeq_bool c 0 then product
                  else if Qltb c product then c else product
      | None => product
      end
  | flat => flat_amount rule
  end.

(** A store of ten users, with a payment of 5.75 and one of 25.50 by U1. *)
Definition ten_users : Store :=
  mkStore
    (list_to_map
       (map (fun i => ("U" ++ i, mkUser ("User " ++ i) ("+90555000000" ++ i)))
            ["0"; "1"; "2"; "3"; "4"; "5"; "6"; "7"; "8"; "9"]))
    (list_to_map [ ("M1", mkMerchant "Kampus Kafe" "cafe") ])
    (list_to_map [ ("U1", mkWallet 250 "TRY") ])
    [ mkTx "TX_PAY_100" "U1" (Some "M1") (23 # 4) "TRY" payment tx_ok
           [("payment_method", "wallet")];
      mkTx "TX_PAY_101" "U1" (Some "M1") (51 # 2) "TRY" payment tx_ok
           [("payment_method", "wallet")] ]
    []
    1
    ∅.

(** The store after the transfer of a settlement in binary64: the debtor
    debited, the payer credited if there is a wallet, a bill_split record
    for the debtor and a transfer_in record for the payer that name each
    other. *)
Definition settlement_transfer64 (b : SplitRow) (out_id in_id : string)
    (s : Store) : Store :=
  Database.set_transactions
    (Database.set_wallets s
       (alter (Database.add_balance64 (share_amount b)) (payer_user_id b)
          (alter (Database.sub_balance64 (share_amount b)) (debtor_user_id b)
                 (wallets s))))
    (transactions s ++
     [ mkTx out_id (debtor_user_id b) None (share_amount b) "TRY" bill_split tx_ok
            [("to_user", payer_user_id b); ("related_tx", in_id);
             ("type", "split_payment")];
       mkTx in_id (payer_user_id b) None (share_amount b) "TRY" transfer_in tx_ok
            [("from_user", debtor_user_id b); ("related_tx", out_id);
             ("type", "split_received")] ])%list.

(** * Properties *)

(** ** How the primitives act on the store *)

Arguments uuid8 : simpl never.
Arguments current_time : simpl never.
Arguments Database.get : simpl never.
Arguments Database.run : simpl never.
Arguments Database.transaction : simpl never.
Arguments Transaction.new : simpl never.
Arguments Transaction.fromRow : simpl never.
Arguments BillSplit.new : simpl never.
Arguments BillSplit.fromRow : simpl never.
Arguments Wallet.fromRow : simpl never.
Arguments User.fromRow : simpl never.
Arguments WalletRepository.findByUserId : simpl never.
Arguments WalletRepository.hasSufficientFunds : simpl never.
Arguments WalletRepository.transaction : simpl never.
Arguments TransactionRepository.findById : simpl never.
Arguments TransactionRepository.create : simpl never.
Arguments UserRepository.exists_ : simpl never.
Arguments BillSplitRepository.findById : simpl never.
Arguments BillSplitRepository.createMultiple : simpl never.
Arguments BillSplitRepository.settle : simpl never.
Arguments BillSplitRepository.cancel : simpl never.
Arguments String.append : simpl never.

Ltac unfold_monad :=
  unfold mbind, M_bind, mret, M_ret, bind, ret, lift, throw, try_catch in *.

Lemma get_inv {A} (read : Store -> A) w o w' :
  Database.get read w = (o, w') ->
  db w' = db w /\ (o = Ok (read (db w)) \/ o = Throw StorageError).
Proof.
  unfold Database.get, Database.next_fault. unfold_monad. simpl.
  destruct (hd false (faults w)); intros [= <- <-]; auto.
Qed.

Lemma run_inv st w o w' :
  Database.run st w = (o, w') ->
  (o = Ok tt /\ Database.exec st (db w) = Some (db w')) \/
  (o = Throw StorageError /\ db w' = db w).
Proof.
  unfold Database.run, Database.next_fault. unfold_monad. simpl.
  destruct (hd false (faults w)).
  - intros [= <- <-]; auto.
  - simpl. destruct (Database.exec st (db w)) eqn:E; intros [= <- <-]; auto.
Qed.

Lemma transaction_inv l w o w' :
  Database.transaction l w = (o, w') ->
  (o = Ok tt /\ Database.exec_all l (faults w) (db w) = Some (db w')) \/
  (o = Throw StorageError /\ db w' = db w).
Proof.
  unfold Database.transaction.
  destruct (Database.exec_all l (faults w) (db w)) eqn:E; intros [= <- <-]; auto.
Qed.

Lemma uuid8_inv w o w' :
  uuid8 w = (o, w') -> db w' = db w /\ exists u, o = Ok u.
Proof. intros [= <- <-]. eauto. Qed.

Lemma current_time_inv w o w' :
  current_time w = (o, w') -> w' = w /\ o = Ok (now w).
Proof. intros [= <- <-]. eauto. Qed.

(** ** Validation *)

Lemma Qltb_lt x y : Qltb x y = true <-> x < y.
Proof.
  unfold Qltb. rewrite negb_true_iff. split.
  - intros H. apply Qnot_le_lt. intros Hle.
    apply Qle_bool_iff in Hle. congruence.
  - intros H. destruct (Qle_bool y x) eqn:E; [|reflexivity].
    apply Qle_bool_iff in E. apply Qlt_not_le in H. contradiction.
Qed.

Lemma Qleb_le x y : Qleb x y = true <-> x <= y.
Proof. apply Qle_bool_iff. Qed.

Lemma Qleb_false x y : Qleb x y = false <-> y < x.
Proof. rewrite <- Qltb_lt. unfold Qltb, Qleb. rewrite negb_true_iff. tauto. Qed.

Lemma Qltb_false x y : Qltb x y = false <-> y <= x.
Proof. unfold Qltb. rewrite negb_false_iff. apply Qle_bool_iff. Qed.

Lemma check_inv b : check b = Ok tt -> b = true.
Proof. destruct b; [reflexivity | discriminate]. Qed.

Lemma seq_check_inv a b : a >> b = Ok tt -> a = Ok tt /\ b = Ok tt.
Proof. destruct a as [[]|]; simpl; [auto | discriminate]. Qed.

Lemma Transaction_new_inv txId userId amount currency type status merchantId meta t :
  Transaction.new txId userId amount currency type status merchantId meta = Ok t ->
  t = mkTx txId userId merchantId amount currency type status meta
  /\ txId <> "" /\ userId <> "" /\ 0 < amount.
Proof.
  unfold Transaction.new.
  destruct (Transaction.validate _) as [[]|] eqn:V; [|discriminate].
  intros [= <-]. split; [reflexivity|].
  unfold Transaction.validate in V. simpl in V.
  apply seq_check_inv in V as [V1 V]. apply seq_check_inv in V as [V2 V3].
  apply check_inv in V1, V2, V3. unfold str_truthy in *.
  rewrite negb_true_iff in V1, V2. apply String.eqb_neq in V1, V2.
  apply Qltb_lt in V3. auto.
Qed.

Lemma Wallet_fromRow_inv u row wl :
  Wallet.fromRow u row = Ok wl ->
  wl = Wallet.mk u (w_balance row) (w_currency row) /\ 0 <= w_balance row.
Proof.
  unfold Wallet.fromRow, Wallet.new.
  destruct (Wallet.validate _) as [[]|] eqn:V; [|discriminate].
  intros [= <-]. split; [reflexivity|].
  unfold Wallet.validate in V. simpl in V.
  apply seq_check_inv in V as [_ V]. apply seq_check_inv in V as [V _].
  apply check_inv in V. rewrite negb_true_iff in V. now apply Qltb_false in V.
Qed.

Lemma findByUserId_inv u w o w' :
  WalletRepository.findByUserId u w = (o, w') ->
  db w' = db w /\
  match o with
  | Ok (Some wl) =>
      exists row, wallets (db w) !! u = Some row
                  /\ wl = Wallet.mk u (w_balance row) (w_currency row)
                  /\ 0 <= w_balance row
  | Ok None => wallets (db w) !! u = None
  | Throw _ => True
  end.
Proof.
  unfold WalletRepository.findByUserId. unfold_monad.
  destruct (Database.get _ w) as [[row|e] w1] eqn:G.
  - apply get_inv in G as [Hdb [[= ->]|[=]]].
    destruct (wallets (db w) !! u) as [r|] eqn:L.
    + destruct (Wallet.fromRow u r) as [wl|e] eqn:F; intros [= <- <-].
      * split; [assumption|]. apply Wallet_fromRow_inv in F as [-> ?]. eauto.
      * auto.
    + intros [= <- <-]. auto.
  - apply get_inv in G as [Hdb _]. intros [= <- <-]. auto.
Qed.

(** ** The bundle of a transfer *)

Lemma exec_transfer_bundle a F T out_tx in_tx fs s s' :
  Database.exec_all
    [ Database.DebitWallet a F; Database.CreditWallet a T;
      Database.InsertTransaction out_tx; Database.InsertTransaction in_tx ]
    fs s = Some s' ->
  wallets s' = alter (Database.add_balance a) T
                 (alter (Database.sub_balance a) F (wallets s))
  /\ transactions s' = (transactions s ++ [out_tx; in_tx])%list
  /\ users s' = users s /\ merchants s' = merchants s
  /\ bill_splits s' = bill_splits s /\ next_split_id s' = next_split_id s
  /\ cashback_rules s' = cashback_rules s.
Proof.
  simpl.
  destruct (hd false fs); [discriminate|].
  destruct (hd false (tl fs)); [discriminate|].
  destruct (hd false (tl (tl fs))); [discriminate|].
  destruct (Database.tx_constraints _ out_tx); [|discriminate].
  destruct (hd false (tl (tl (tl fs)))); [discriminate|].
  destruct (Database.tx_constraints _ in_tx); [|discriminate].
  intros [= <-]. simpl. rewrite <- app_assoc. auto 10.
Qed.

(** ** Rounding to the cent *)

Lemma round2_two_decimals x : two_decimals (round2 x).
Proof. exists (Math_round (x * 100)). reflexivity. Qed.

#[global] Instance round2_proper : Proper (Qeq ==> Qeq) round2.
Proof.
  intros x y E. unfold round2, Math_round.
  assert (H : Qfloor (x * 100 + (1 # 2)) = Qfloor (y * 100 + (1 # 2))).
  { apply Qfloor_comp. rewrite E. reflexivity. }
  rewrite H. reflexivity.
Qed.

(** ** C9: balances are not rounded by the services *)

Lemma not_two_decimals_eighth : ~ two_decimals (2001 # 8).
Proof.
  intros [k Hk]. unfold Qeq, Qdiv, Qmult, Qinv in Hk. simpl in Hk. lia.
Qed.

(** C9 fails on the code.  A top-up of 0.125 on the seed balance of 250
    succeeds and stores 250.125: the UPDATE adds the amount as it is, where
    Wallet.credit of the domain class would have rounded to the cent. *)
Theorem topup_stores_unrounded_balance :
  exists r w',
    PaymentService.topUpWallet "U1" (JNum (1 # 8)) world0 = (Ok r, w')
    /\ success r = true
    /\ balance_of (db w') "U1" = Some (2001 # 8)
    /\ ~ two_decimals (2001 # 8)
    /\ Wallet.credit (Wallet.mk "U1" 250 "TRY") (1 # 8)
       = Ok (Wallet.mk "U1" (25013 # 100) "TRY").
Proof.
  eexists _, _. split; [vm_compute; reflexivity|].
  split; [reflexivity|]. split; [vm_compute; reflexivity|].
  split; [apply not_two_decimals_eighth|]. 
  vm_compute. reflexivity.
Qed.

(** ** C3: the cashback credit is not in a bundle with its record *)

(** C3 fails on the code for the cashback credit.  The record is inserted
    by one statement and the wallet is credited by the next, outside any
    bundle: when the store rejects the second, the cashback record of 1.00
    stays while the balance of U1 is still 250. *)
Theorem cashback_record_survives_failed_credit :
  exists r w',
    CashbackService.calculateAndApplyCashback describe "U1" "M1" 20 "TX_PAY_004"
      world_credit_fault = (Ok r, w')
    /\ CashbackService.applied r = false
    /\ CashbackService.cb_message r = MsgCashbackError
    /\ transactions (db w') =
         (transactions seed ++
          [ mkTx "TX_CB_aaaaaaaa" "U1" (Some "M1") (100 # 100) "TRY" cashback tx_ok
                 [("rule_id", "CB1"); ("original_tx_id", "TX_PAY_004");
                  ("description", "Kampus Kafe - Cashback")] ])%list
    /\ wallets (db w') = wallets seed.
Proof.
  eexists _, _. split; [vm_compute; reflexivity|].
  repeat split; vm_compute; reflexivity.
Qed.

(** ** C4: a cancelled obligation can still be settled *)

(** C4 fails on the code for cancelled splits.  settleBillSplit rejects a
    split that is settled, not one that is cancelled: on the cancelled
    split 1 the debtor U2 pays 9.25 to U1 and the split becomes settled. *)
Theorem settle_cancelled_split_moves_money :
  let w := mkWorld seed_cancelled_split [] ["aaaaaaaa-1"; "bbbbbbbb-2"]
                   "2025-10-15T12:00:00.000Z" in
  exists r w',
    split_status (db w) 1 = Some cancelled
    /\ BillSplitService.settleBillSplit 1 "U2" w = (Ok r, w')
    /\ success r = true
    /\ balance_of (db w) "U2" = Some 90
    /\ balance_of (db w') "U2" = Some (90 - (37 # 4))
    /\ balance_of (db w') "U1" = Some (250 + (37 # 4))
    /\ split_status (db w') 1 = Some settled.
Proof.
  eexists _, _. split; [reflexivity|].
  split; [vm_compute; reflexivity|].
  repeat split; vm_compute; reflexivity.
Qed.

(** ** Reads and batch inserts of the bill-split engine *)

Lemma Transaction_fromRow_inv row t :
  Transaction.fromRow row = Ok t -> t = row /\ 0 < tx_amount row.
Proof.
  unfold Transaction.fromRow. intros H.
  apply Transaction_new_inv in H as (-> & _ & _ & Hpos).
  destruct row; auto.
Qed.

Lemma findById_tx_inv txId w o w' :
  TransactionRepository.findById txId w = (o, w') ->
  db w' = db w /\
  match o with
  | Ok (Some t) => Database.find_tx (db w) txId = Some t /\ 0 < tx_amount t
  | Ok None => Database.find_tx (db w) txId = None
  | Throw _ => True
  end.
Proof.
  unfold TransactionRepository.findById. unfold_monad.
  destruct (Database.get _ w) as [[row|e] w1] eqn:G;
    apply get_inv in G as [Hdb G].
  - destruct G as [[= ->]|[=]].
    destruct (Database.find_tx (db w) txId) as [r|] eqn:L.
    + destruct (Transaction.fromRow r) as [t|e] eqn:F; intros [= <- <-];
        [|auto].
      apply Transaction_fromRow_inv in F as [-> ?]. auto.
    + intros [= <- <-]. auto.
  - intros [= <- <-]. auto.
Qed.

Lemma exists_inv u w o w' :
  UserRepository.exists_ u w = (o, w') ->
  db w' = db w /\
  match o with
  | Ok true => is_Some (users (db w) !! u)
  | Ok false => users (db w) !! u = None
  | Throw _ => True
  end.
Proof.
  unfold UserRepository.exists_, UserRepository.findById. unfold_monad.
  destruct (Database.get _ w) as [[row|e] w1] eqn:G;
    apply get_inv in G as [Hdb G].
  - destruct G as [[= ->]|[=]].
    destruct (users (db w) !! u) as [r|] eqn:L.
    + destruct (User.fromRow u r) as [t|e] eqn:F; intros [= <- <-]; eauto.
    + intros [= <- <-]. auto.
  - intros [= <- <-]. auto.
Qed.

Lemma mapM_exists_inv {A} (key : A -> string) l w o w' :
  mapM (fun x => UserRepository.exists_ (key x)) l w = (o, w') ->
  db w' = db w /\
  forall bs, o = Ok bs -> existsb negb bs = false ->
             Forall (fun x => is_Some (users (db w) !! key x)) l.
Proof.
  revert w o w'. induction l as [|x l IH]; intros w o w'; simpl.
  - unfold_monad. intros [= <- <-]. split; [reflexivity|]. constructor.
  - unfold mbind, M_bind, bind at 1.
    destruct (UserRepository.exists_ (key x) w) as [[b|e] w1] eqn:E;
      apply exists_inv in E as [Hdb1 E].
    + unfold mbind, M_bind, bind at 1.
      destruct (mapM (M:=M) (fun x => UserRepository.exists_ (key x)) l w1)
        as [[bs|e] w2] eqn:R;
        apply IH in R as [Hdb2 R]; unfold_monad; intros [= <- <-];
        (split; [congruence|]); [|discriminate].
      intros ? [= <-] Hall. simpl in Hall.
      apply orb_false_iff in Hall as [Hb Hbs].
      destruct b; [|discriminate]. constructor; [assumption|].
      rewrite <- Hdb1. apply (R bs); auto.
    + intros [= <- <-]. split; [assumption|]. discriminate.
Qed.

Lemma mapM_lift_inv {A B} (f : A -> outcome B) l w o w' :
  mapM (fun x => lift (f x)) l w = (o, w') ->
  w' = w /\ forall bs, o = Ok bs -> Forall2 (fun x b => f x = Ok b) l bs.
Proof.
  revert w o w'. induction l as [|x l IH]; intros w o w'; simpl.
  - unfold_monad. intros [= <- <-]. split; [reflexivity|].
    intros ? [= <-]. constructor.
  - unfold mbind, M_bind, bind at 1. unfold lift at 1.
    destruct (f x) as [b|e] eqn:E.
    + unfold mbind, M_bind, bind at 1.
      destruct (mapM (M:=M) (fun x => lift (f x)) l w) as [[bs|e] w2] eqn:R;
        apply IH in R as [-> R]; unfold_monad; intros [= <- <-];
        (split; [reflexivity|]); [|discriminate].
      intros ? [= <-]. constructor; auto.
    + intros [= <- <-]. split; [reflexivity|]. discriminate.
Qed.

Lemma BillSplit_new_inv id tx p d total share weight st b :
  BillSplit.new id tx p d total share weight st = Ok b ->
  b = mkSplit id tx p d total share weight st
  /\ p <> d /\ 0 < total /\ 0 < share /\ share <= total /\ 0 < weight.
Proof.
  unfold BillSplit.new.
  destruct (BillSplit.validate _) as [[]|] eqn:V; [|discriminate].
  intros [= <-]. split; [reflexivity|].
  unfold BillSplit.validate in V. simpl in V.
  repeat (apply seq_check_inv in V as [? V]).
  repeat match goal with H : check _ = Ok tt |- _ => apply check_inv in H end.
  rewrite negb_true_iff in *.
  repeat match goal with
         | H : Qltb _ _ = true |- _ => apply Qltb_lt in H
         | H : Qleb _ _ = true |- _ => apply Qleb_le in H
         | H : String.eqb _ _ = false |- _ => apply String.eqb_neq in H
         end.
  auto 10.
Qed.

Lemma exec_all_inserts rows fs s s' :
  Database.exec_all (map Database.InsertBillSplit rows) fs s = Some s' ->
  bill_splits s' =
    (bill_splits s ++
     imap (fun i r => Database.with_id (next_split_id s + i) r) rows)%list
  /\ next_split_id s' = (next_split_id s + length rows)%nat
  /\ wallets s' = wallets s /\ transactions s' = transactions s
  /\ users s' = users s.
Proof.
  revert fs s. induction rows as [|r rows IH]; intros fs s; simpl.
  - intros [= <-]. rewrite app_nil_r, Nat.add_0_r. auto.
  - destruct (hd false fs); [discriminate|].
    destruct (Database.split_constraints s r); [|discriminate].
    intros H. apply IH in H as (Hb & Hn & Hw & Ht & Hu). simpl in *.
    rewrite Hb, Hn, <- app_assoc, Nat.add_0_r. simpl.
    repeat split; try assumption; [|lia].
    f_equal. f_equal. apply imap_ext. intros i x _. simpl.
    f_equal. lia.
Qed.

Lemma Forall2_new_rows {A} (mk : A -> SplitRow -> Prop) (l : list A) rows :
  Forall2 mk l rows -> forall (row_of : A -> SplitRow),
  (forall x b, mk x b -> b = row_of x) -> rows = map row_of l.
Proof.
  induction 1 as [|x b l rows Hx _ IH]; intros row_of Hmk; simpl.
  - reflexivity.
  - f_equal; [apply Hmk; assumption | apply IH; assumption].
Qed.

Lemma imap_map {A B C} (f : nat -> B -> C) (g : A -> B) (l : list A) :
  imap f (map g l) = imap (fun i x => f i (g x)) l.
Proof.
  revert f. induction l as [|x l IH]; intros f; simpl; [reflexivity|].
  f_equal. apply IH.
Qed.

(** ** Sums of rounded shares *)

Lemma fold_left_Qplus l a : fold_left Qplus l a == a + fold_left Qplus l 0.
Proof.
  revert a. induction l as [|x l IH]; intros a; simpl; [ring|].
  rewrite (IH (a + x)), (IH (0 + x)). ring.
Qed.

Lemma Qsum_cons x l : Qsum (x :: l) == x + Qsum l.
Proof. unfold Qsum. simpl. rewrite fold_left_Qplus. ring. Qed.

Lemma Qsum_scaled A W ws :
  ~ W == 0 -> Qsum (map (fun w => A * w / W) ws) == A * Qsum ws / W.
Proof.
  intros HW. induction ws as [|w ws IH].
  - unfold Qsum. simpl. field. assumption.
  - cbn [map]. rewrite !Qsum_cons, IH. field. assumption.
Qed.

Lemma existsb_invalid_weight items :
  existsb BillSplitService.invalid_weight items = false ->
  Forall (fun item => exists q, BillSplitService.weight item = JNum q /\ 0 < q
                                /\ BillSplitService.weight_of item = q) items.
Proof.
  induction items as [|x l IH]; simpl; [constructor|].
  intros H. apply orb_false_iff in H as [Hx Hl].
  constructor; [|auto].
  unfold BillSplitService.invalid_weight, BillSplitService.weight_of in *.
  destruct (BillSplitService.weight x); simpl in *; try discriminate.
  apply Qleb_false in Hx. eauto.
Qed.

(** ** Rules of the weakest-precondition reading *)

Section SpecRules.

Context {A B : Type}.

Lemma spec_ret (a : A) s (Q : outcome A -> Store -> Prop) :
  Q (Ok a) s -> spec (mret a) s Q.
Proof. intros H w <-. exact H. Qed.

Lemma spec_throw e s (Q : outcome A -> Store -> Prop) :
  Q (Throw e) s -> spec (throw e) s Q.
Proof. intros H w <-. exact H. Qed.

Lemma spec_lift (o : outcome A) s (Q : outcome A -> Store -> Prop) :
  Q o s -> spec (lift o) s Q.
Proof. intros H w <-. exact H. Qed.

Lemma spec_bind (m : M A) (k : A -> M B) s (Q : outcome B -> Store -> Prop) :
  spec m s (fun o s1 => match o with
                        | Ok a => spec (k a) s1 Q
                        | Throw e => Q (Throw e) s1
                        end) ->
  spec (m ≫= k) s Q.
Proof.
  intros H w Hw. specialize (H w Hw).
  unfold mbind, M_bind, bind. destruct (m w) as [[a|e] w1]; simpl in *.
  - apply H. reflexivity.
  - exact H.
Qed.

Lemma spec_try_catch (body : M A) (h : Err -> M A) s
    (Q : outcome A -> Store -> Prop) :
  spec body s (fun o s1 => match o with
                           | Ok a => Q (Ok a) s1
                           | Throw e => spec (h e) s1 Q
                           end) ->
  spec (try_catch body h) s Q.
Proof.
  intros H w Hw. specialize (H w Hw).
  unfold try_catch. destruct (body w) as [[a|e] w1]; simpl in *.
  - exact H.
  - apply H. reflexivity.
Qed.

Lemma spec_weaken (m : M A) s (Q Q' : outcome A -> Store -> Prop) :
  spec m s Q -> (forall o s', Q o s' -> Q' o s') -> spec m s Q'.
Proof. intros H HQ w Hw. apply HQ, H, Hw. Qed.

Lemma spec_get (read : Store -> A) s (Q : outcome A -> Store -> Prop) :
  Q (Ok (read s)) s -> Q (Throw StorageError) s -> spec (Database.get read) s Q.
Proof.
  intros H1 H2 w <-.
  destruct (Database.get read w) as [o w'] eqn:E. simpl.
  apply get_inv in E as [-> [->| ->]]; assumption.
Qed.

End SpecRules.

Lemma spec_run st s (Q : outcome unit -> Store -> Prop) :
  (forall s', Database.exec st s = Some s' -> Q (Ok tt) s') ->
  Q (Throw StorageError) s ->
  spec (Database.run st) s Q.
Proof.
  intros H1 H2 w <-.
  destruct (Database.run st w) as [o w'] eqn:E. simpl.
  apply run_inv in E as [[-> E]|[-> ->]]; auto.
Qed.

Lemma spec_transaction l s (Q : outcome unit -> Store -> Prop) :
  (forall fs s', Database.exec_all l fs s = Some s' -> Q (Ok tt) s') ->
  Q (Throw StorageError) s ->
  spec (Database.transaction l) s Q.
Proof.
  intros H1 H2 w <-.
  destruct (Database.transaction l w) as [o w'] eqn:E. simpl.
  apply transaction_inv in E as [[-> E]|[-> ->]]; eauto.
Qed.

Lemma spec_uuid8 s (Q : outcome string -> Store -> Prop) :
  (forall u, Q (Ok u) s) -> spec uuid8 s Q.
Proof. intros H w <-. apply H. Qed.

Lemma spec_current_time s (Q : outcome string -> Store -> Prop) :
  (forall t, Q (Ok t) s) -> spec current_time s Q.
Proof. intros H w <-. apply H. Qed.

Lemma spec_findByUserId u s (Q : outcome (option Wallet.t) -> Store -> Prop) :
  (wallets s !! u = None -> Q (Ok None) s) ->
  (forall row, wallets s !! u = Some row -> 0 <= w_balance row ->
               Q (Ok (Some (Wallet.mk u (w_balance row) (w_currency row)))) s) ->
  (forall e, Q (Throw e) s) ->
  spec (WalletRepository.findByUserId u) s Q.
Proof.
  intros H1 H2 H3 w <-.
  destruct (WalletRepository.findByUserId u w) as [o w'] eqn:E. simpl.
  apply findByUserId_inv in E as [-> E].
  destruct o as [[wl|]|e]; auto.
  destruct E as (row & Hl & -> & Hpos). auto.
Qed.

Lemma spec_findById_tx txId s (Q : outcome (option TxRow) -> Store -> Prop) :
  (Database.find_tx s txId = None -> Q (Ok None) s) ->
  (forall t, Database.find_tx s txId = Some t -> 0 < tx_amount t -> Q (Ok (Some t)) s) ->
  (forall e, Q (Throw e) s) ->
  spec (TransactionRepository.findById txId) s Q.
Proof.
  intros H1 H2 H3 w <-.
  destruct (TransactionRepository.findById txId w) as [o w'] eqn:E. simpl.
  apply findById_tx_inv in E as [-> E].
  destruct o as [[t|]|e]; auto. destruct E. auto.
Qed.

(** A loop of reads and validations leaves the store as it is. *)
Lemma spec_mapM_unchanged {A B} (f : A -> M B) l s
    (Q : outcome (list B) -> Store -> Prop) :
  (forall x, spec (f x) s (fun _ s' => s' = s)) ->
  (forall o, Q o s) ->
  spec (mapM f l) s Q.
Proof.
  intros Hf HQ.
  assert (H : spec (mapM f l) s (fun _ s' => s' = s)).
  { induction l as [|x l IH]; simpl.
    - apply spec_ret. reflexivity.
    - apply spec_bind. eapply spec_weaken; [apply Hf|].
      intros [b|e] s' ->; [|reflexivity].
      apply spec_bind. eapply spec_weaken; [apply IH|].
      intros [bs|e] s' ->; [|reflexivity].
      apply spec_ret. reflexivity. }
  eapply spec_weaken; [exact H|]. intros o s' ->. apply HQ.
Qed.

Lemma spec_exists u s : spec (UserRepository.exists_ u) s (fun _ s' => s' = s).
Proof.
  intros w <-. destruct (UserRepository.exists_ u w) as [o w'] eqn:E. simpl.
  apply exists_inv in E as [-> _]. reflexivity.
Qed.

Lemma spec_findById_split id s (Q : outcome (option SplitRow) -> Store -> Prop) :
  (Database.find_split s id = None -> Q (Ok None) s) ->
  (forall b, Database.find_split s id = Some b ->
             payer_user_id b <> debtor_user_id b -> 0 < share_amount b ->
             Q (Ok (Some b)) s) ->
  (forall e, Q (Throw e) s) ->
  spec (BillSplitRepository.findById id) s Q.
Proof.
  intros H1 H2 H3. unfold BillSplitRepository.findById.
  apply spec_bind, spec_get; [|apply H3].
  destruct (Database.find_split s id) as [row|] eqn:L.
  - apply spec_bind, spec_lift.
    destruct (BillSplit.fromRow row) as [b|e] eqn:F; [|apply H3].
    apply spec_ret. unfold BillSplit.fromRow in F.
    apply BillSplit_new_inv in F as (-> & ? & ? & ? & ? & ?).
    destruct row. simpl in *. apply H2; simpl; first [reflexivity | assumption].
  - apply spec_ret. apply H1. reflexivity.
Qed.

Lemma funds_row u row a :
  Wallet.hasSufficientFunds (Wallet.mk u (w_balance row) (w_currency row)) a = true ->
  a <= w_balance row.
Proof. unfold Wallet.hasSufficientFunds. simpl. apply Qleb_le. Qed.

Lemma spec_hasSufficientFunds u a s (Q : outcome bool -> Store -> Prop) :
  (forall row, wallets s !! u = Some row -> a <= w_balance row -> Q (Ok true) s) ->
  Q (Ok false) s ->
  (forall e, Q (Throw e) s) ->
  spec (WalletRepository.hasSufficientFunds u a) s Q.
Proof.
  intros H1 H2 H3. unfold WalletRepository.hasSufficientFunds.
  apply spec_bind, spec_findByUserId.
  - intros _. apply spec_ret. assumption.
  - intros row Hrow _. apply spec_ret.
    destruct (Wallet.hasSufficientFunds _ a) eqn:E; [|assumption].
    apply funds_row in E. eauto.
  - assumption.
Qed.

Lemma spec_prop v k s (Q : outcome jsval -> Store -> Prop) :
  (forall x, Q (Ok x) s) -> Q (Throw TypeError) s ->
  spec (PaymentService.prop v k) s Q.
Proof.
  intros H1 H2. unfold PaymentService.prop.
  destruct (get_prop v k); [apply spec_ret | apply spec_throw]; auto.
Qed.

(** One step of the reading, chosen by the head of the computation. *)
Ltac wp_step :=
  lazymatch goal with
  | |- spec (mret _) _ _ => apply spec_ret
  | |- spec (throw _) _ _ => apply spec_throw
  | |- spec (lift _) _ _ => apply spec_lift
  | |- spec (try_catch _ _) _ _ => apply spec_try_catch
  | |- spec (_ ≫= _) _ _ => apply spec_bind
  | |- spec uuid8 _ _ => apply spec_uuid8; intros ?
  | |- spec current_time _ _ => apply spec_current_time; intros ?
  | |- spec (Database.get _) _ _ => apply spec_get
  | |- spec (PaymentService.prop _ _) _ _ => apply spec_prop; [intros ? | ]
  | |- spec (WalletRepository.findByUserId _) _ _ =>
      apply spec_findByUserId; [intros ? | intros ? ? ? | intros ?]
  | |- spec (WalletRepository.hasSufficientFunds _ _) _ _ =>
      apply spec_hasSufficientFunds; [intros ? ? ? | | intros ?]
  | |- spec (TransactionRepository.findById _) _ _ =>
      apply spec_findById_tx; [intros ? | intros ? ? ? | intros ?]
  | |- spec (BillSplitRepository.findById _) _ _ =>
      apply spec_findById_split; [intros ? | intros ? ? ? ? | intros ?]
  | |- spec (mapM _ _) _ _ =>
      apply spec_mapM_unchanged;
      [intros ?; first [apply spec_exists | apply spec_lift; reflexivity]
      | intros ?]
  | |- spec (WalletRepository.transaction _) _ _ =>
      unfold WalletRepository.transaction;
      apply spec_transaction; [intros ? ? ? | ]
  | |- spec (Database.transaction _) _ _ =>
      apply spec_transaction; [intros ? ? ? | ]
  | |- spec (BillSplitRepository.createMultiple _) _ _ =>
      unfold BillSplitRepository.createMultiple;
      apply spec_transaction; [intros ? ? ? | ]
  | |- spec (Database.run _) _ _ => apply spec_run; [intros ? ? | ]
  | |- spec (TransactionRepository.create _) _ _ =>
      unfold TransactionRepository.create; apply spec_run; [intros ? ? | ]
  | |- spec (BillSplitRepository.settle _) _ _ =>
      unfold BillSplitRepository.settle, BillSplitRepository.updateStatus;
      apply spec_run; [intros ? ? | ]
  | |- spec (BillSplitRepository.cancel _) _ _ =>
      unfold BillSplitRepository.cancel, BillSplitRepository.updateStatus;
      apply spec_run; [intros ? ? | ]
  | |- spec (if ?b then _ else _) _ _ => destruct b eqn:?
  | |- spec (match ?x with _ => _ end) _ _ => destruct x eqn:?
  | |- match ?o with Ok _ => _ | Throw _ => _ end => destruct o eqn:?
  end.

Ltac wp := repeat (wp_step; cbv beta iota; cbn [negb]).

(** ** C2: no balance goes below zero *)

Lemma nonneg_check s : nonnegb s = true -> nonneg s.
Proof.
  unfold nonnegb, nonneg. intros H u row Hl.
  rewrite forallb_forall in H.
  apply elem_of_map_to_list, list_elem_of_In in Hl.
  specialize (H _ Hl). simpl in H. now apply Qleb_le in H.
Qed.

Lemma nonneg_credit (m : gmap string WalletRow) a u :
  (forall v row, m !! v = Some row -> 0 <= w_balance row) ->
  0 <= a ->
  forall v row, alter (Database.add_balance a) u m !! v = Some row ->
                0 <= w_balance row.
Proof.
  intros Hm Ha v row. destruct (decide (u = v)) as [->|Hne].
  - rewrite lookup_alter_eq. destruct (m !! v) as [r|] eqn:L; [|discriminate].
    intros [= <-]. simpl. specialize (Hm _ _ L). lra.
  - rewrite lookup_alter_ne by assumption. apply Hm.
Qed.

Lemma nonneg_debit (m : gmap string WalletRow) a u :
  (forall v row, m !! v = Some row -> 0 <= w_balance row) ->
  (forall row, m !! u = Some row -> a <= w_balance row) ->
  forall v row, alter (Database.sub_balance a) u m !! v = Some row ->
                0 <= w_balance row.
Proof.
  intros Hm Ha v row. destruct (decide (u = v)) as [->|Hne].
  - rewrite lookup_alter_eq. destruct (m !! v) as [r|] eqn:L; [|discriminate].
    intros [= <-]. simpl. specialize (Ha _ eq_refl). lra.
  - rewrite lookup_alter_ne by assumption. apply Hm.
Qed.

Lemma nonneg_transfer_bundle a F T out_tx in_tx fs s s' :
  Database.exec_all
    [ Database.DebitWallet a F; Database.CreditWallet a T;
      Database.InsertTransaction out_tx; Database.InsertTransaction in_tx ]
    fs s = Some s' ->
  nonneg s -> 0 <= a ->
  (forall row, wallets s !! F = Some row -> a <= w_balance row) ->
  nonneg s'.
Proof.
  intros H Hs Ha HF. apply exec_transfer_bundle in H as (Hw & _).
  unfold nonneg. rewrite Hw.
  apply nonneg_credit; [|assumption]. apply nonneg_debit; assumption.
Qed.

Lemma exec_debit_bundle a u t fs s s' :
  Database.exec_all [Database.DebitWallet a u; Database.InsertTransaction t] fs s
    = Some s' ->
  wallets s' = alter (Database.sub_balance a) u (wallets s)
  /\ transactions s' = (transactions s ++ [t])%list
  /\ cashback_rules s' = cashback_rules s.
Proof.
  simpl. destruct (hd false fs); [discriminate|].
  destruct (hd false (tl fs)); [discriminate|].
  destruct (Database.tx_constraints _ t); [|discriminate].
  intros [= <-]. auto.
Qed.

Lemma exec_credit_bundle a u t fs s s' :
  Database.exec_all [Database.CreditWallet a u; Database.InsertTransaction t] fs s
    = Some s' ->
  wallets s' = alter (Database.add_balance a) u (wallets s)
  /\ transactions s' = (transactions s ++ [t])%list
  /\ cashback_rules s' = cashback_rules s.
Proof.
  simpl. destruct (hd false fs); [discriminate|].
  destruct (hd false (tl fs)); [discriminate|].
  destruct (Database.tx_constraints _ t); [|discriminate].
  intros [= <-]. auto.
Qed.

Lemma nonneg_transferMoney F T amount s :
  nonneg s ->
  spec (PaymentService.transferMoney F T amount) s (fun _ s' => nonneg s').
Proof.
  intros Hs. unfold PaymentService.transferMoney. wp; try assumption.
  match goal with H : negb (Wallet.hasSufficientFunds _ _) = false |- _ =>
    rewrite negb_false_iff in H; apply funds_row in H end.
  match goal with H : Qleb _ 0 = false |- _ => apply Qleb_false in H end.
  eapply nonneg_transfer_bundle; [eassumption|assumption|lra|].
  intros row' Hl. congruence.
Qed.

Lemma nonneg_same_wallets s s' : wallets s' = wallets s -> nonneg s -> nonneg s'.
Proof. unfold nonneg. intros ->. auto. Qed.

Lemma exec_split_status st id s s' :
  Database.exec (Database.UpdateSplitStatus st id) s = Some s' ->
  wallets s' = wallets s /\ transactions s' = transactions s
  /\ cashback_rules s' = cashback_rules s.
Proof. intros [= <-]. auto. Qed.

Lemma exec_insert_tx t s s' :
  Database.exec (Database.InsertTransaction t) s = Some s' ->
  wallets s' = wallets s /\ transactions s' = (transactions s ++ [t])%list
  /\ cashback_rules s' = cashback_rules s.
Proof.
  simpl. destruct (Database.tx_constraints s t); [|discriminate].
  intros [= <-]. auto.
Qed.

Lemma exec_credit a u s s' :
  Database.exec (Database.CreditWallet a u) s = Some s' ->
  wallets s' = alter (Database.add_balance a) u (wallets s)
  /\ transactions s' = transactions s
  /\ cashback_rules s' = cashback_rules s.
Proof. intros [= <-]. auto. Qed.

Ltac funds_facts :=
  repeat match goal with
         | H : negb (Wallet.hasSufficientFunds _ _) = false |- _ =>
             rewrite negb_false_iff in H; apply funds_row in H
         | H : Qleb _ 0 = false |- _ => apply Qleb_false in H
         | H : Qltb 0 _ = true |- _ => apply Qltb_lt in H
         end.

Section Preservation.

Variable sql_text : jsval -> string.
Variable JSON_parse : string -> option jsval.
Variable parseFloat_other : jsval -> option Q.
Variable hours_between : string -> jsval -> option Q.
Variable getCashbackDescription : RuleRow -> MerchantRow -> string.

Lemma nonneg_processPayment u m amount s :
  nonneg s ->
  spec (PaymentService.processPayment sql_text u m amount) s
       (fun _ s' => nonneg s').
Proof.
  intros Hs. unfold PaymentService.processPayment. wp; try assumption.
  funds_facts.
  match goal with H : Database.exec_all _ _ _ = Some _ |- _ =>
    apply exec_debit_bundle in H as (Hw & _) end.
  unfold nonneg. rewrite Hw. apply nonneg_debit; [assumption|].
  intros row' Hl. congruence.
Qed.

Lemma nonneg_topUpWallet u amount s :
  nonneg s ->
  spec (PaymentService.topUpWallet u amount) s (fun _ s' => nonneg s').
Proof.
  intros Hs. unfold PaymentService.topUpWallet. wp; try assumption.
  funds_facts.
  match goal with H : Database.exec_all _ _ _ = Some _ |- _ =>
    apply exec_credit_bundle in H as (Hw & _) end.
  unfold nonneg. rewrite Hw. apply nonneg_credit; [assumption|lra].
Qed.

Lemma nonneg_processQRPayment u qrData s :
  nonneg s ->
  spec (PaymentService.processQRPayment sql_text JSON_parse parseFloat_other
          hours_between u qrData) s
       (fun _ s' => nonneg s').
Proof.
  intros Hs. unfold PaymentService.processQRPayment.
  apply spec_try_catch.
  destruct (match qrData with JStr s0 => JSON_parse s0 | _ => Some qrData end)
    as [qrInfo|]; [|wp; assumption].
  wp; try assumption.
  eapply spec_weaken; [apply nonneg_processPayment; assumption|].
  intros o s' Hs'. cbv beta. wp; assumption.
Qed.

Lemma nonneg_createEqualSplit p t ds s :
  nonneg s ->
  spec (BillSplitService.createEqualSplit p t ds) s (fun _ s' => nonneg s').
Proof.
  intros Hs. unfold BillSplitService.createEqualSplit. wp; try assumption.
  match goal with H : Database.exec_all _ _ _ = Some _ |- _ =>
    apply exec_all_inserts in H as (_ & _ & Hw & _) end.
  eapply nonneg_same_wallets; eassumption.
Qed.

Lemma nonneg_createWeightedSplit p t ds s :
  nonneg s ->
  spec (BillSplitService.createWeightedSplit p t ds) s (fun _ s' => nonneg s').
Proof.
  intros Hs. unfold BillSplitService.createWeightedSplit. wp; try assumption.
  match goal with H : Database.exec_all _ _ _ = Some _ |- _ =>
    apply exec_all_inserts in H as (_ & _ & Hw & _) end.
  eapply nonneg_same_wallets; eassumption.
Qed.

Lemma nonneg_cancelBillSplit i u s :
  nonneg s ->
  spec (BillSplitService.cancelBillSplit i u) s (fun _ s' => nonneg s').
Proof.
  intros Hs. unfold BillSplitService.cancelBillSplit. wp; try assumption.
  match goal with H : Database.exec _ _ = Some _ |- _ =>
    apply exec_split_status in H as (Hw & _) end.
  eapply nonneg_same_wallets; eassumption.
Qed.

Lemma nonneg_settleBillSplit i u s :
  nonneg s ->
  spec (BillSplitService.settleBillSplit i u) s (fun _ s' => nonneg s').
Proof.
  intros Hs. unfold BillSplitService.settleBillSplit. wp; try assumption.
  unfold BillSplitService.transferMoney.
  match goal with H : negb (String.eqb _ u) = false |- _ =>
    rewrite negb_false_iff in H; apply String.eqb_eq in H; subst u end.
  assert (Hnn : forall fs s' a a0,
             Database.exec_all
               [ Database.DebitWallet (share_amount b) (debtor_user_id b);
                 Database.CreditWallet (share_amount b) (payer_user_id b);
                 Database.InsertTransaction a; Database.InsertTransaction a0 ]
               fs s = Some s' -> nonneg s').
  { intros fs s' a a0 Hx.
    eapply nonneg_transfer_bundle; [exact Hx|assumption|lra|].
    intros row' Hl. congruence. }
  wp; try assumption; try (eapply Hnn; eassumption).
  match goal with H : Database.exec (Database.UpdateSplitStatus _ _) _ = Some _ |- _ =>
    apply exec_split_status in H as (Hw & _) end.
  eapply nonneg_same_wallets; [eassumption|]. eapply Hnn; eassumption.
Qed.

End Preservation.

(** ** The rules offered to a payment *)

Lemma filter_first_time_spec u rules s :
  spec (CashbackService.filter_first_time u rules) s
       (fun o s' => s' = s /\
          forall out, o = Ok out ->
            sublist out rules /\
            forall rid r, In (rid, r) out -> first_time_only r = true ->
                          CashbackService.count_previous u rid s = 0%nat).
Proof.
  induction rules as [|[rid r] rest IH]; simpl.
  - apply spec_ret. split; [reflexivity|]. intros out [= <-].
    split; [constructor|]. intros ? ? [].
  - apply spec_bind.
    assert (Hrest : forall keep : bool,
      (keep = true -> first_time_only r = true ->
       CashbackService.count_previous u rid s = 0%nat) ->
      spec (CashbackService.filter_first_time u rest
              ≫= (fun filteredRules =>
                    mret (if keep then (rid, r) :: filteredRules
                          else filteredRules))) s
           (fun o s' => s' = s /\
              forall out, o = Ok out ->
                sublist out ((rid, r) :: rest) /\
                forall rid' r', In (rid', r') out -> first_time_only r' = true ->
                                CashbackService.count_previous u rid' s = 0%nat)).
    { intros keep Hkeep. apply spec_bind. eapply spec_weaken; [apply IH|].
      intros [out|e] s' [-> Hout]; cbv beta iota.
      - apply spec_ret. split; [reflexivity|]. intros ? [= <-].
        destruct (Hout out eq_refl) as [Hsub Hgate].
        destruct keep.
        + split; [constructor; assumption|].
          intros rid' r' [[= <- <-]|Hin]; eauto.
        + split; [constructor; assumption|]. assumption.
      - split; [reflexivity|]. discriminate. }
    destruct (first_time_only r) eqn:Hft.
    + apply spec_bind, spec_get; cbv beta iota.
      * apply spec_ret.
        apply (Hrest (CashbackService.count_previous u rid s =? 0)%nat).
        intros Hk _. apply Nat.eqb_eq in Hk. exact Hk.
      * split; [reflexivity|]. discriminate.
    + apply spec_ret. apply (Hrest true). discriminate.
Qed.

Lemma sublist_map {A B} (f : A -> B) l1 l2 :
  sublist l1 l2 -> sublist (map f l1) (map f l2).
Proof. induction 1; simpl; constructor; assumption. Qed.

Lemma sublist_In {A} (x : A) l1 l2 : sublist l1 l2 -> In x l1 -> In x l2.
Proof. induction 1; simpl; tauto. Qed.

Lemma sublist_List_filter {A} (f : A -> bool) l : sublist (List.filter f l) l.
Proof.
  induction l as [|x l IH]; simpl; [constructor|].
  destruct (f x); constructor; assumption.
Qed.

Lemma select_rules_spec category date s :
  NoDup (map fst (CashbackService.select_rules category date s))
  /\ forall rid r, In (rid, r) (CashbackService.select_rules category date s) ->
                   cashback_rules s !! rid = Some r.
Proof.
  unfold CashbackService.select_rules. split.
  - eapply sublist_NoDup; [|apply sublist_map, sublist_List_filter].
    apply (NoDup_fst_map_to_list (cashback_rules s)).
  - intros rid r Hin. apply filter_In in Hin as [Hin _].
    apply list_elem_of_In, elem_of_map_to_list in Hin. exact Hin.
Qed.

Lemma getApplicableCashbackRules_spec u category tx s :
  spec (CashbackService.getApplicableCashbackRules u category tx) s
       (fun o s' => s' = s /\ exists rules, o = Ok rules /\ offered u s rules).
Proof.
  assert (Hnil : offered u s []).
  { split; [constructor|]. intros ? ? []. }
  unfold CashbackService.getApplicableCashbackRules.
  apply spec_try_catch, spec_bind, spec_current_time. intros t. cbv beta iota.
  apply spec_bind, spec_get; cbv beta iota.
  - destruct (select_rules_spec category (String.substring 0 10 t) s)
      as [Hnd Hin].
    eapply spec_weaken; [apply filter_first_time_spec|].
    intros [out|e] s' [-> Hout]; cbv beta iota.
    + destruct (Hout out eq_refl) as [Hsub Hgate].
      split; [reflexivity|]. exists out. split; [reflexivity|]. split.
      * eapply sublist_NoDup; [exact Hnd|apply sublist_map; exact Hsub].
      * intros rid r Hi. split; [|eauto].
        apply Hin. eapply sublist_In; eassumption.
    + apply spec_ret. eauto.
  - apply spec_ret. eauto.
Qed.

(** ** Counting the cashback records of a user for a rule *)

Lemma count_previous_app u rid s s' t :
  transactions s' = (transactions s ++ [t])%list ->
  CashbackService.count_previous u rid s'
  = (CashbackService.count_previous u rid s
     + if CashbackService.is_cashback_of u rid t then 1 else 0)%nat.
Proof.
  unfold CashbackService.count_previous. intros ->.
  rewrite List.filter_app, length_app. simpl.
  destruct (CashbackService.is_cashback_of u rid t); reflexivity.
Qed.

Lemma count_previous_same u rid s s' :
  transactions s' = transactions s ->
  CashbackService.count_previous u rid s' = CashbackService.count_previous u rid s.
Proof. unfold CashbackService.count_previous. intros ->. reflexivity. Qed.

Lemma is_cashback_of_other_type u rid t :
  tx_type t <> cashback -> CashbackService.is_cashback_of u rid t = false.
Proof.
  unfold CashbackService.is_cashback_of. intros H.
  destruct (tx_type t); try contradiction; simpl;
    rewrite andb_false_r; reflexivity.
Qed.

Lemma is_cashback_of_record u rid u' rid' id m a cur st meta :
  CashbackService.is_cashback_of u' rid'
    (mkTx id u m a cur cashback st (("rule_id", rid) :: meta))
  = String.eqb u u' && String.eqb rid rid'.
Proof. unfold CashbackService.is_cashback_of. simpl. rewrite andb_true_r. reflexivity. Qed.

Lemma loop_effect_refl u ids s : loop_effect u ids s s.
Proof. repeat split; auto. intros. lia. Qed.

Lemma loop_effect_cons u rid ids s s1 s' :
  ~ In rid ids ->
  cashback_rules s1 = cashback_rules s ->
  (nonneg s -> nonneg s1) ->
  (forall u' rid',
     CashbackService.count_previous u' rid' s1
     = (CashbackService.count_previous u' rid' s
        + if String.eqb u u' && String.eqb rid rid' then 1 else 0)%nat) ->
  loop_effect u ids s1 s' ->
  loop_effect u (rid :: ids) s s'.
Proof.
  intros Hnin Hr Hn Hc (Hr' & Hn' & HA & HB).
  split; [congruence|]. split; [auto|]. split.
  - intros u' rid'. rewrite <- Nat.add_1_r.
    destruct (String.eqb u u' && String.eqb rid rid') eqn:E.
    + apply andb_true_iff in E as [E1 E2].
      apply String.eqb_eq in E1, E2. subst u' rid'.
      rewrite HB by tauto. rewrite Hc, !String.eqb_refl. simpl. lia.
    + specialize (HA u' rid'). rewrite Hc, E in HA. lia.
  - intros u' rid' Hnot.
    rewrite HB by (simpl in Hnot; tauto). rewrite Hc.
    destruct (String.eqb u u' && String.eqb rid rid') eqn:E; [|lia].
    apply andb_true_iff in E as [E1 E2].
    apply String.eqb_eq in E1, E2. subst. simpl in Hnot. tauto.
Qed.

Lemma loop_effect_skip u rid ids s s' :
  loop_effect u ids s s' -> loop_effect u (rid :: ids) s s'.
Proof.
  intros (Hr & Hn & HA & HB). repeat split; auto.
  intros u' rid' Hnot. apply HB. simpl in Hnot. tauto.
Qed.

Section CashbackLoop.

Variable getCashbackDescription : RuleRow -> MerchantRow -> string.

Lemma apply_rules_spec u m merchant amount tx rules total applied s :
  NoDup (map fst rules) ->
  spec (CashbackService.apply_rules getCashbackDescription u m merchant amount
          tx rules total applied) s
       (fun o s' =>
          loop_effect u (map fst rules) s s'
          /\ forall total' applied', o = Ok (total', applied') ->
               Forall (fun x => In x applied
                                \/ In (CashbackService.ruleId x) (map fst rules))
                      applied').
Proof.
  revert total applied s.
  induction rules as [|[rid r] rest IH]; intros total applied s Hnd; simpl.
  - apply spec_ret. split; [apply loop_effect_refl|].
    intros ? ? [= <- <-]. apply Forall_forall.
    intros x Hx. left. apply list_elem_of_In, Hx.
  - inversion Hnd as [|? ? Hnin Hnd']; subst.
    rewrite list_elem_of_In in Hnin.
    destruct (Qltb 0 (CashbackService.calculateCashbackAmount r amount)) eqn:Hpos.
    + apply Qltb_lt in Hpos.
      wp; try (split; [apply loop_effect_refl|discriminate]).
      * match goal with H : Transaction.new _ _ _ _ _ _ _ _ = Ok _ |- _ =>
          apply Transaction_new_inv in H as [-> _] end.
        match goal with H : Database.exec (Database.InsertTransaction _) _ = Some _ |- _ =>
          apply exec_insert_tx in H as (Hw1 & Ht1 & Hr1) end.
        match goal with H : Database.exec (Database.CreditWallet _ _) _ = Some _ |- _ =>
          apply exec_credit in H as (Hw2 & Ht2 & Hr2) end.
        eapply spec_weaken; [apply IH; assumption|].
        intros o s3 [H3 Happ]. cbv beta. split.
        -- apply (loop_effect_cons u rid (map fst rest) s s'0 s3).
           ++ assumption.
           ++ congruence.
           ++ intros Hs. unfold nonneg. rewrite Hw2, Hw1.
              apply nonneg_credit; [exact Hs|lra].
           ++ intros u' rid'.
              rewrite (count_previous_same _ _ _ _ Ht2).
              rewrite (count_previous_app _ _ _ _ _ Ht1).
              rewrite is_cashback_of_record. reflexivity.
           ++ exact H3.
        -- intros total' applied' Ho. specialize (Happ _ _ Ho).
           eapply Forall_impl; [exact Happ|]. intros x [Hx|Hx]; [|auto].
           apply in_app_or in Hx as [Hx|[<-|[]]]; simpl; auto.
      * match goal with H : Transaction.new _ _ _ _ _ _ _ _ = Ok _ |- _ =>
          apply Transaction_new_inv in H as [-> _] end.
        match goal with H : Database.exec (Database.InsertTransaction _) _ = Some _ |- _ =>
          apply exec_insert_tx in H as (Hw1 & Ht1 & Hr1) end.
        split; [|discriminate].
        match goal with |- loop_effect _ _ _ ?s1 =>
          apply (loop_effect_cons u rid (map fst rest) s s1 s1) end.
        -- assumption.
        -- assumption.
        -- intros Hs. eapply nonneg_same_wallets; eassumption.
        -- intros u' rid'.
           rewrite (count_previous_app _ _ _ _ _ Ht1).
           rewrite is_cashback_of_record. reflexivity.
        -- apply loop_effect_refl.
    + eapply spec_weaken; [apply IH; assumption|].
      intros o s' [H Happ]. split; [apply loop_effect_skip, H|].
      intros total' applied' Ho. specialize (Happ _ _ Ho).
      eapply Forall_impl; [exact Happ|]. intros x [Hx|Hx]; auto.
Qed.

End CashbackLoop.

Section CashbackCall.

Variable getCashbackDescription : RuleRow -> MerchantRow -> string.

Lemma calculateAndApplyCashback_spec u m amount tx s :
  spec (CashbackService.calculateAndApplyCashback getCashbackDescription
          u m amount tx) s
       (fun o s' => exists rules,
          offered u s rules /\ loop_effect u (map fst rules) s s'
          /\ exists res, o = Ok res
               /\ Forall (fun x => In (CashbackService.ruleId x) (map fst rules))
                         (CashbackService.appliedRules res)).
Proof.
  assert (Hnone : forall msg, exists rules,
             offered u s rules /\ loop_effect u (map fst rules) s s
             /\ exists res, Ok (CashbackService.mkSummary 0 false [] msg) = Ok res
                  /\ Forall (fun x => In (CashbackService.ruleId x) (map fst rules))
                            (CashbackService.appliedRules res)).
  { intros msg. exists []. split; [|split; [apply loop_effect_refl|]].
    - split; [constructor|]. intros ? ? [].
    - eexists. split; [reflexivity|]. constructor. }
  unfold CashbackService.calculateAndApplyCashback.
  wp; try apply Hnone.
  eapply spec_weaken; [apply getApplicableCashbackRules_spec|].
  intros o s' (-> & rules & -> & Hoff). cbv beta iota.
  wp; try apply Hnone.
  eapply spec_weaken; [apply apply_rules_spec; apply Hoff|].
  intros o s' [Heff Happ]. cbv beta.
  destruct o as [[total applied]|e]; wp.
  - exists rules. split; [assumption|]. split; [assumption|].
    eexists. split; [reflexivity|]. simpl.
    eapply Forall_impl; [exact (Happ _ _ eq_refl)|].
    intros x [[]|Hx]; exact Hx.
  - exists rules. split; [assumption|]. split; [assumption|].
    eexists. split; [reflexivity|]. constructor.
Qed.

End CashbackCall.

(** ** Calls that add no cashback record *)

Lemma ledger_stable_refl s : ledger_stable s s.
Proof. split; auto. Qed.

Lemma ledger_stable_trans s1 s2 s3 :
  ledger_stable s1 s2 -> ledger_stable s2 s3 -> ledger_stable s1 s3.
Proof. intros [H1 H2] [H3 H4]. split; [congruence|]. intros. rewrite H4. apply H2. Qed.

Lemma ledger_stable_app s s' rows :
  cashback_rules s' = cashback_rules s ->
  transactions s' = (transactions s ++ rows)%list ->
  Forall (fun t => tx_type t <> cashback) rows ->
  ledger_stable s s'.
Proof.
  intros Hr Ht Hrows. split; [assumption|]. intros u rid.
  unfold CashbackService.count_previous. rewrite Ht, List.filter_app, length_app.
  assert (E : List.filter (CashbackService.is_cashback_of u rid) rows = []).
  { clear Ht. induction Hrows as [|t rows Ht' _ IH]; simpl; [reflexivity|].
    rewrite is_cashback_of_other_type by assumption. exact IH. }
  rewrite E. simpl. lia.
Qed.

Ltac new_rows :=
  repeat match goal with
         | H : Transaction.new _ _ _ _ _ _ _ _ = Ok _ |- _ =>
             apply Transaction_new_inv in H as [-> _]
         end.

Ltac stable_bundle :=
  new_rows;
  match goal with
  | H : Database.exec_all [_; _; _; _] _ _ = Some _ |- _ =>
      apply exec_transfer_bundle in H as (_ & ? & _ & _ & _ & _ & ?)
  | H : Database.exec_all [Database.DebitWallet _ _; _] _ _ = Some _ |- _ =>
      apply exec_debit_bundle in H as (_ & ? & ?)
  | H : Database.exec_all [Database.CreditWallet _ _; _] _ _ = Some _ |- _ =>
      apply exec_credit_bundle in H as (_ & ? & ?)
  end;
  eapply ledger_stable_app; [eassumption | eassumption |];
  repeat constructor; discriminate.

Section Stability.

Variable sql_text : jsval -> string.
Variable JSON_parse : string -> option jsval.
Variable parseFloat_other : jsval -> option Q.
Variable hours_between : string -> jsval -> option Q.

Lemma stable_transferMoney F T amount s :
  spec (PaymentService.transferMoney F T amount) s (fun _ s' => ledger_stable s s').
Proof.
  unfold PaymentService.transferMoney. wp; try apply ledger_stable_refl.
  stable_bundle.
Qed.

Lemma stable_processPayment u m amount s :
  spec (PaymentService.processPayment sql_text u m amount) s
       (fun _ s' => ledger_stable s s').
Proof.
  unfold PaymentService.processPayment. wp; try apply ledger_stable_refl.
  stable_bundle.
Qed.

Lemma stable_topUpWallet u amount s :
  spec (PaymentService.topUpWallet u amount) s (fun _ s' => ledger_stable s s').
Proof.
  unfold PaymentService.topUpWallet. wp; try apply ledger_stable_refl.
  stable_bundle.
Qed.

Lemma stable_processQRPayment u qrData s :
  spec (PaymentService.processQRPayment sql_text JSON_parse parseFloat_other
          hours_between u qrData) s
       (fun _ s' => ledger_stable s s').
Proof.
  unfold PaymentService.processQRPayment.
  apply spec_try_catch.
  destruct (match qrData with JStr s0 => JSON_parse s0 | _ => Some qrData end)
    as [qrInfo|]; [|wp; apply ledger_stable_refl].
  wp; try apply ledger_stable_refl.
  eapply spec_weaken; [apply stable_processPayment|].
  intros o s' Hs'. cbv beta. wp; assumption.
Qed.

Lemma stable_inserts rows fs s s' :
  Database.exec_all (map Database.InsertBillSplit rows) fs s = Some s' ->
  ledger_stable s s'.
Proof.
  revert fs s. induction rows as [|r rows IH]; intros fs s; simpl.
  - intros [= <-]. apply ledger_stable_refl.
  - destruct (hd false fs); [discriminate|].
    destruct (Database.split_constraints s r); [|discriminate].
    intros H. apply IH in H. eapply ledger_stable_trans; [|exact H].
    split; reflexivity.
Qed.

Lemma stable_split_status st id s s' :
  Database.exec (Database.UpdateSplitStatus st id) s = Some s' ->
  ledger_stable s s'.
Proof. intros [= <-]. split; reflexivity. Qed.

Lemma stable_createEqualSplit p t ds s :
  spec (BillSplitService.createEqualSplit p t ds) s (fun _ s' => ledger_stable s s').
Proof.
  unfold BillSplitService.createEqualSplit. wp; try apply ledger_stable_refl.
  eapply stable_inserts; eassumption.
Qed.

Lemma stable_createWeightedSplit p t ds s :
  spec (BillSplitService.createWeightedSplit p t ds) s
       (fun _ s' => ledger_stable s s').
Proof.
  unfold BillSplitService.createWeightedSplit. wp; try apply ledger_stable_refl.
  eapply stable_inserts; eassumption.
Qed.

Lemma stable_cancelBillSplit i u s :
  spec (BillSplitService.cancelBillSplit i u) s (fun _ s' => ledger_stable s s').
Proof.
  unfold BillSplitService.cancelBillSplit. wp; try apply ledger_stable_refl.
  eapply stable_split_status; eassumption.
Qed.

Lemma stable_settleBillSplit i u s :
  spec (BillSplitService.settleBillSplit i u) s (fun _ s' => ledger_stable s s').
Proof.
  unfold BillSplitService.settleBillSplit. wp; try apply ledger_stable_refl.
  unfold BillSplitService.transferMoney.
  wp; try apply ledger_stable_refl; try stable_bundle.
  eapply ledger_stable_trans; [|eapply stable_split_status; eassumption].
  stable_bundle.
Qed.

End Stability.

(** ** Debits beyond the balance *)

Lemma rejects_intro {D} (m : M (Result D)) s :
  spec m s (fun o s' => s' = s /\ exists r, o = Ok r /\ success r = false) ->
  rejects m s.
Proof.
  intros H w Hw. destruct (H w Hw) as (Hs & r & Ho & Hr). eauto.
Qed.

Ltac rejected := split; [reflexivity | eexists; split; reflexivity].

Ltac short_of_funds :=
  funds_facts;
  repeat match goal with
         | H : typeof_number (JNum _) = Some _ |- _ =>
             simpl in H; injection H as <-
         end;
  repeat match goal with
         | H1 : ?m !! ?k = Some ?x, H2 : ?m !! ?k = Some ?y |- _ =>
             assert (x = y) by congruence; subst y; clear H2
         end;
  exfalso; lra.

Section Overdraft.

Variable sql_text : jsval -> string.
Variable JSON_parse : string -> option jsval.
Variable parseFloat_other : jsval -> option Q.
Variable hours_between : string -> jsval -> option Q.

Lemma transferMoney_rejects F T a row s :
  wallets s !! F = Some row -> w_balance row < a ->
  rejects (PaymentService.transferMoney F T (JNum a)) s.
Proof.
  intros Hrow Hlt. apply rejects_intro.
  unfold PaymentService.transferMoney. wp; try rejected; short_of_funds.
Qed.

Lemma processPayment_spec_rejects u m a row s :
  wallets s !! u = Some row -> w_balance row < a ->
  spec (PaymentService.processPayment sql_text u m (JNum a)) s
       (fun o s' => s' = s /\ exists r, o = Ok r /\ success r = false).
Proof.
  intros Hrow Hlt.
  unfold PaymentService.processPayment. wp; try rejected; short_of_funds.
Qed.

Lemma processQRPayment_rejects u qrData a row s :
  wallets s !! u = Some row ->
  qr_amount JSON_parse parseFloat_other qrData = Some a ->
  w_balance row < a ->
  rejects (PaymentService.processQRPayment sql_text JSON_parse parseFloat_other
             hours_between u qrData) s.
Proof.
  intros Hrow Hamt Hlt. apply rejects_intro.
  unfold PaymentService.processQRPayment, qr_amount in *.
  apply spec_try_catch.
  destruct (match qrData with JStr s0 => JSON_parse s0 | _ => Some qrData end)
    as [qrInfo|]; [|discriminate].
  destruct (get_prop qrInfo "amount") as [v|] eqn:Hv; [|discriminate].
  assert (Hq : exists x1 x2 x3,
             get_prop qrInfo "qr_id" = Some x1
             /\ get_prop qrInfo "merchant_id" = Some x2
             /\ get_prop qrInfo "ts" = Some x3).
  { destruct qrInfo; simpl in *; try discriminate;
      do 3 eexists; repeat split; reflexivity. }
  destruct Hq as (x1 & x2 & x3 & H1 & H2 & H3).
  apply spec_bind. unfold PaymentService.prop at 1. rewrite H1.
  apply spec_ret. cbv beta iota.
  apply spec_bind. unfold PaymentService.prop at 1. rewrite H2.
  apply spec_ret. cbv beta iota.
  apply spec_bind. unfold PaymentService.prop at 1. rewrite Hv.
  apply spec_ret. cbv beta iota.
  destruct (negb (truthy x1) || negb (truthy x2) || negb (truthy v));
    [wp; rejected|].
  rewrite Hamt.
  destruct (Qleb a 0); [wp; rejected|].
  apply spec_bind. unfold PaymentService.prop at 1. rewrite H3.
  apply spec_ret. cbv beta iota.
  wp; try rejected.
  eapply spec_weaken; [eapply processPayment_spec_rejects; eassumption|].
  intros o s' (-> & r & -> & Hr). cbv beta iota. rewrite Hr.
  apply spec_ret. split; [reflexivity|]. eauto.
Qed.

End Overdraft.

Lemma settleBillSplit_rejects i u b row s :
  Database.find_split s i = Some b ->
  wallets s !! debtor_user_id b = Some row ->
  w_balance row < share_amount b ->
  rejects (BillSplitService.settleBillSplit i u) s.
Proof.
  intros Hb Hrow Hlt. apply rejects_intro.
  unfold BillSplitService.settleBillSplit. wp; try rejected.
  exfalso.
  match goal with H : Database.find_split s i = Some ?b' |- _ =>
    assert (b' = b) by congruence; subst b' end.
  match goal with H : negb (String.eqb _ u) = false |- _ =>
    rewrite negb_false_iff in H; apply String.eqb_eq in H; subst u end.
  match goal with H : wallets s !! debtor_user_id b = Some ?r |- _ =>
    assert (r = row) by congruence; subst r end.
  lra.
Qed.

(** ** What the sibling paths do

    The bundles of transfer, payment and top-up are all or nothing: under
    any fault the store is as before unless the call reports success. *)

Section AllOrNothing.

Variable sql_text : jsval -> string.

Lemma transferMoney_all_or_nothing F T amount s :
  spec (PaymentService.transferMoney F T amount) s
       (fun o s' => s' = s \/ exists r, o = Ok r /\ success r = true).
Proof.
  unfold PaymentService.transferMoney. wp; try (left; reflexivity).
  right. eexists. split; reflexivity.
Qed.

Lemma processPayment_all_or_nothing u m amount s :
  spec (PaymentService.processPayment sql_text u m amount) s
       (fun o s' => s' = s \/ exists r, o = Ok r /\ success r = true).
Proof.
  unfold PaymentService.processPayment. wp; try (left; reflexivity).
  right. eexists. split; reflexivity.
Qed.

Lemma topUpWallet_all_or_nothing u amount s :
  spec (PaymentService.topUpWallet u amount) s
       (fun o s' => s' = s \/ exists r, o = Ok r /\ success r = true).
Proof.
  unfold PaymentService.topUpWallet. wp; try (left; reflexivity).
  right. eexists. split; reflexivity.
Qed.

End AllOrNothing.

(** The part of the settlement guard that the code has: a settled split
    is rejected, and a settlement that succeeds was asked by the debtor of
    an existing split that was not settled, with funds for the share. *)
Lemma settleBillSplit_rejects_settled i u b s :
  Database.find_split s i = Some b -> sp_status b = settled ->
  rejects (BillSplitService.settleBillSplit i u) s.
Proof.
  intros Hb Hst. apply rejects_intro.
  unfold BillSplitService.settleBillSplit. wp; try rejected; exfalso;
    match goal with H : Database.find_split s i = Some ?b' |- _ =>
      assert (b' = b) by congruence; subst b' end;
    match goal with H : BillSplit.isSettled b = false |- _ =>
      unfold BillSplit.isSettled in H; rewrite Hst in H; discriminate end.
Qed.

Lemma settleBillSplit_success_conditions i u s :
  spec (BillSplitService.settleBillSplit i u) s
       (fun o _ => forall r, o = Ok r -> success r = true ->
          exists b row,
            Database.find_split s i = Some b
            /\ debtor_user_id b = u
            /\ sp_status b <> settled
            /\ wallets s !! u = Some row
            /\ share_amount b <= w_balance row).
Proof.
  unfold BillSplitService.settleBillSplit.
  wp; try (intros ? [= <-]; discriminate).
  unfold BillSplitService.transferMoney.
  assert (Hgoal : exists b0 row0,
             Database.find_split s i = Some b0 /\ debtor_user_id b0 = u
             /\ sp_status b0 <> settled /\ wallets s !! u = Some row0
             /\ share_amount b0 <= w_balance row0).
  { match goal with H : negb (String.eqb _ u) = false |- _ =>
      rewrite negb_false_iff in H; apply String.eqb_eq in H end.
    match goal with H : BillSplit.isSettled ?b = false |- _ =>
      unfold BillSplit.isSettled in H; exists b end.
    eexists. repeat split; try eassumption.
    intros E. match goal with H : SplitStatus_eqb _ _ = false |- _ =>
      rewrite E in H; discriminate end. }
  wp; try (intros ? [= <-]; discriminate); intros; exact Hgoal.
Qed.

(** The mutators of the domain class do round. *)
Lemma Wallet_credit_two_decimals w a w' :
  Wallet.credit w a = Ok w' -> two_decimals (Wallet.balance w').
Proof.
  unfold Wallet.credit. destruct (Qleb a 0); [discriminate|].
  intros [= <-]. apply round2_two_decimals.
Qed.

Lemma Wallet_debit_two_decimals w a w' :
  Wallet.debit w a = Ok w' -> two_decimals (Wallet.balance w').
Proof.
  unfold Wallet.debit. destruct (Qleb a 0); [discriminate|].
  destruct (Qltb (Wallet.balance w) a); [discriminate|].
  intros [= <-]. apply round2_two_decimals.
Qed.

(** ** Along any sequence of calls *)

Lemma fires_once_stable s s' : ledger_stable s s' -> fires_once s s'.
Proof. intros [Hr Hc]. split; [assumption|]. intros. rewrite Hc. lia. Qed.

Lemma fires_once_loop u rules s s' :
  offered u s rules -> loop_effect u (map fst rules) s s' -> fires_once s s'.
Proof.
  intros [_ Hoff] (Hr & _ & HA & HB). split; [assumption|].
  intros u' rid r Hrule Hft.
  destruct (String.string_dec u' u) as [->|Hu];
    [destruct (in_dec String.string_dec rid (map fst rules)) as [Hin|Hnin]|].
  - apply in_map_iff in Hin as ([rid' r'] & Heq & Hin). simpl in Heq. subst rid'.
    destruct (Hoff _ _ Hin) as [Hrow Hzero].
    assert (r' = r) by congruence. subst r'.
    specialize (HA u rid). rewrite (Hzero Hft) in *. lia.
  - rewrite HB by tauto. lia.
  - rewrite HB by tauto. lia.
Qed.

Section Traces.

Variable sql_text : jsval -> string.
Variable JSON_parse : string -> option jsval.
Variable parseFloat_other : jsval -> option Q.
Variable hours_between : string -> jsval -> option Q.
Variable getCashbackDescription : RuleRow -> MerchantRow -> string.

#[local] Abbreviation perform' :=
  (perform sql_text JSON_parse parseFloat_other hours_between
           getCashbackDescription).
#[local] Abbreviation after' :=
  (after sql_text JSON_parse parseFloat_other hours_between
         getCashbackDescription).
#[local] Abbreviation reachable' :=
  (reachable sql_text JSON_parse parseFloat_other hours_between
             getCashbackDescription).

Lemma dropped {A} (m : M A) s (P : Store -> Prop) :
  spec m s (fun _ s' => P s') -> spec (m ;; mret tt) s (fun _ s' => P s').
Proof.
  intros H. apply spec_bind. eapply spec_weaken; [exact H|].
  intros [a|e] s' Hs'; [apply spec_ret|]; exact Hs'.
Qed.

Lemma perform_nonneg c s :
  nonneg s -> spec (perform' c) s (fun _ s' => nonneg s').
Proof.
  intros Hs. destruct c; simpl; apply dropped.
  - apply nonneg_transferMoney, Hs.
  - apply nonneg_processPayment, Hs.
  - apply nonneg_topUpWallet, Hs.
  - apply nonneg_processQRPayment, Hs.
  - apply nonneg_createEqualSplit, Hs.
  - apply nonneg_createWeightedSplit, Hs.
  - apply nonneg_settleBillSplit, Hs.
  - apply nonneg_cancelBillSplit, Hs.
  - eapply spec_weaken; [apply calculateAndApplyCashback_spec|].
    intros o s' (rules & _ & (_ & Hn & _) & _). auto.
Qed.

Lemma perform_fires_once c s :
  spec (perform' c) s (fun _ s' => fires_once s s').
Proof.
  destruct c; simpl; apply (dropped _ _ (fires_once s)).
  - eapply spec_weaken; [apply stable_transferMoney|].
    intros; apply fires_once_stable; assumption.
  - eapply spec_weaken; [apply stable_processPayment|].
    intros; apply fires_once_stable; assumption.
  - eapply spec_weaken; [apply stable_topUpWallet|].
    intros; apply fires_once_stable; assumption.
  - eapply spec_weaken; [apply stable_processQRPayment|].
    intros; apply fires_once_stable; assumption.
  - eapply spec_weaken; [apply stable_createEqualSplit|].
    intros; apply fires_once_stable; assumption.
  - eapply spec_weaken; [apply stable_createWeightedSplit|].
    intros; apply fires_once_stable; assumption.
  - eapply spec_weaken; [apply stable_settleBillSplit|].
    intros; apply fires_once_stable; assumption.
  - eapply spec_weaken; [apply stable_cancelBillSplit|].
    intros; apply fires_once_stable; assumption.
  - eapply spec_weaken; [apply calculateAndApplyCashback_spec|].
    intros o s' (rules & Hoff & Heff & _). eapply fires_once_loop; eassumption.
Qed.

Lemma reachable_nonneg s0 s : nonneg s0 -> reachable' s0 s -> nonneg s.
Proof.
  intros H0. induction 1 as [|s c fs us t _ IH]; [assumption|].
  apply (perform_nonneg c s IH (mkWorld s fs us t) eq_refl).
Qed.

Lemma reachable_fires_once s0 s : reachable' s0 s -> fires_once s0 s.
Proof.
  induction 1 as [|s c fs us t _ [IHr IHc]].
  - split; [reflexivity|]. intros. lia.
  - destruct (perform_fires_once c s (mkWorld s fs us t) eq_refl) as [Hr Hc].
    fold (after' c fs us t s) in Hr, Hc.
    split; [congruence|]. intros u rid r Hrule Hft.
    specialize (IHc u rid r Hrule Hft).
    rewrite <- IHr in Hrule. specialize (Hc u rid r Hrule Hft). lia.
Qed.



End Traces.



(** ** C10: the services return, they do not throw *)

Lemma try_catch_returns {D} (body : M D) (r0 : D) w :
  exists r, fst (try_catch body (fun _ => mret r0) w) = Ok r.
Proof.
  unfold try_catch. destruct (body w) as [[r|e] w']; simpl; eauto.
Qed.

(** C10.  For every input, store, fault plan, uuid supply and clock, each
    of the nine public operations ends with a result object; the
    exceptions raised inside (a rejected statement or bundle, a failed
    validation in a domain constructor, a property read on null or
    undefined, a JSON syntax error) never reach the caller. *)
Theorem services_always_return
    (sql_text : jsval -> string) (JSON_parse : string -> option jsval)
    (parseFloat_other : jsval -> option Q)
    (hours_between : string -> jsval -> option Q)
    (getCashbackDescription : RuleRow -> MerchantRow -> string) (w : World) :
  (forall F T amount,
     exists r, fst (PaymentService.transferMoney F T amount w) = Ok r)
  /\ (forall u m amount,
        exists r, fst (PaymentService.processPayment sql_text u m amount w) = Ok r)
  /\ (forall u amount,
        exists r, fst (PaymentService.topUpWallet u amount w) = Ok r)
  /\ (forall u qrData,
        exists r, fst (PaymentService.processQRPayment sql_text JSON_parse
                         parseFloat_other hours_between u qrData w) = Ok r)
  /\ (forall p t ds,
        exists r, fst (BillSplitService.createEqualSplit p t ds w) = Ok r)
  /\ (forall p t ds,
        exists r, fst (BillSplitService.createWeightedSplit p t ds w) = Ok r)
  /\ (forall i u,
        exists r, fst (BillSplitService.settleBillSplit i u w) = Ok r)
  /\ (forall i u,
        exists r, fst (BillSplitService.cancelBillSplit i u w) = Ok r)
  /\ (forall u m amount t,
        exists r, fst (CashbackService.calculateAndApplyCashback
                         getCashbackDescription u m amount t w) = Ok r).
Proof.
  repeat split; intros; apply try_catch_returns.
Qed.

(** The failures inside are real: with the store rejecting the batch
    insert, createEqualSplit answers with its generic failure and the
    store is as before. *)
Example equal_split_under_fault :
  let w := mkWorld seed [false; false; false; true] [] "2025-10-15T12:00:00.000Z" in
  let run := BillSplitService.createEqualSplit "U1" "TX_PAY_004"
               (AnArray ["U2"; "U3"]) w in
  fst run = Ok (fail MsgSplitError) /\ db (snd run) = seed.
Proof. split; vm_compute; reflexivity. Qed.

(** * Further properties of the code *)

(** ** The domain classes *)

Lemma Math_round_inject k : Math_round (inject_Z k) = k.
Proof.
  unfold Math_round.
  pose proof (Qfloor_le (inject_Z k + (1 # 2))) as Hlo.
  pose proof (Qlt_floor (inject_Z k + (1 # 2))) as Hhi.
  set (f := Qfloor (inject_Z k + (1 # 2))) in *.
  rewrite inject_Z_plus in Hhi. change (inject_Z 1) with 1 in Hhi.
  assert (H1 : inject_Z f < inject_Z k + 1) by lra.
  assert (H2 : inject_Z k - 1 < inject_Z f) by lra.
  change 1 with (inject_Z 1) in H1, H2.
  rewrite <- inject_Z_plus in H1. unfold Qminus in H2.
  rewrite <- inject_Z_opp, <- inject_Z_plus in H2.
  rewrite <- Zlt_Qlt in H1, H2. lia.
Qed.

(** Rounding leaves a number of at most two decimals as it is. *)
Lemma round2_fixed x : two_decimals x -> round2 x == x.
Proof.
  intros [k Hk]. rewrite Hk. unfold round2.
  assert (E : inject_Z k / 100 * 100 == inject_Z k) by field.
  assert (F : Math_round (inject_Z k / 100 * 100) = k).
  { rewrite <- (Math_round_inject k) at 2. unfold Math_round.
    apply Qfloor_comp. rewrite E. reflexivity. }
  rewrite F. reflexivity.
Qed.

Lemma round2_nonneg x : 0 <= x -> 0 <= round2 x.
Proof.
  intros Hx. unfold round2, Math_round.
  assert (H : (0 <= Qfloor (x * 100 + (1 # 2)))%Z).
  { change 0%Z with (Qfloor 0). apply Qfloor_resp_le. lra. }
  rewrite Zle_Qle in H. change (inject_Z 0) with 0 in H.
  set (k := inject_Z (Qfloor (x * 100 + (1 # 2)))) in *.
  assert (E : k / 100 == k * (1 # 100)) by field.
  rewrite E. lra.
Qed.

Lemma two_decimals_plus x y : two_decimals x -> two_decimals y -> two_decimals (x + y).
Proof.
  intros [k Hk] [j Hj]. exists (k + j)%Z.
  rewrite Hk, Hj, inject_Z_plus. field.
Qed.

Lemma two_decimals_minus x y : two_decimals x -> two_decimals y -> two_decimals (x - y).
Proof.
  intros [k Hk] [j Hj]. exists (k - j)%Z.
  rewrite Hk, Hj. unfold Zminus. rewrite inject_Z_plus, inject_Z_opp. field.
Qed.





(** ** Database.js: a bundle against its statements run one by one *)

Lemma run_world st s fs us t :
  Database.run st (mkWorld s fs us t)
  = if hd false fs then (Throw StorageError, mkWorld s (tl fs) us t)
    else match Database.exec st s with
         | Some s' => (Ok tt, mkWorld s' (tl fs) us t)
         | None => (Throw StorageError, mkWorld s (tl fs) us t)
         end.
Proof.
  unfold Database.run, Database.next_fault. unfold_monad. simpl.
  destruct (hd false fs); [reflexivity|]. simpl.
  destruct (Database.exec st s); reflexivity.
Qed.

Lemma run_each_exec_all l : forall fs s us t,
  match Database.exec_all l fs s with
  | Some s' =>
      run_each l (mkWorld s fs us t)
      = (Ok tt, mkWorld s' (drop (length l) fs) us t)
  | None =>
      exists k s1 w',
        (k < length l)%nat
        /\ Database.exec_all (take k l) fs s = Some s1
        /\ run_each l (mkWorld s fs us t) = (Throw StorageError, w')
        /\ db w' = s1
  end.
Proof.
  induction l as [|st l IH]; intros fs s us t.
  - simpl. rewrite drop_0. reflexivity.
  - cbn [Database.exec_all run_each].
    unfold mbind, M_bind, bind. rewrite run_world.
    destruct (hd false fs) eqn:Hf.
    + exists 0%nat, s. eexists. cbn [take Database.exec_all length db].
      repeat split; lia.
    + destruct (Database.exec st s) as [s1|] eqn:E.
      * specialize (IH (tl fs) s1 us t).
        destruct (Database.exec_all l (tl fs) s1) as [s'|] eqn:EA.
        -- rewrite IH. cbn [length].
           assert (Hd : drop (S (length l)) fs = drop (length l) (tl fs)).
           { destruct fs; simpl; [now rewrite drop_nil | reflexivity]. }
           rewrite Hd. reflexivity.
        -- destruct IH as (k & s2 & w' & Hk & Hpre & Hrun & Hdb).
           exists (S k), s2, w'. cbn [take Database.exec_all length].
           rewrite Hf, E. repeat split; [lia | assumption..].
      * exists 0%nat, s. eexists. cbn [take Database.exec_all length db].
        repeat split; lia.
Qed.

(** A bundle that succeeds leaves the store that its statements, issued
    one by one under the same faults, leave; a bundle that fails leaves the
    store as it was, while the statements issued one by one also fail but
    keep what those before the failure did. *)
Theorem bundle_against_single_statements l w :
  match Database.transaction l w with
  | (Ok _, w') =>
      fst (run_each l w) = Ok tt /\ db (snd (run_each l w)) = db w'
  | (Throw _, w') =>
      db w' = db w
      /\ exists k,
           (k < length l)%nat
           /\ fst (run_each l w) = Throw StorageError
           /\ Database.exec_all (take k l) (faults w) (db w)
              = Some (db (snd (run_each l w)))
  end.
Proof.
  destruct w as [s fs us t]. unfold Database.transaction.
  cbn [db faults uuids now].
  pose proof (run_each_exec_all l fs s us t) as H.
  destruct (Database.exec_all l fs s) as [s'|].
  - rewrite H. split; reflexivity.
  - destruct H as (k & s1 & w' & Hk & Hpre & Hrun & Hdb).
    split; [reflexivity|]. exists k. rewrite Hrun. cbn [fst snd].
    rewrite Hdb. auto.
Qed.

(** ** What no call of the services does *)

Ltac kept_split := unfold kept; split; [|split; [|split; [|split; [|split]]]].

Lemma kept_refl s : kept s s.
Proof.
  kept_split; try reflexivity; exists []; now rewrite app_nil_r.
Qed.

Lemma kept_trans s1 s2 s3 : kept s1 s2 -> kept s2 s3 -> kept s1 s3.
Proof.
  intros (Hu & Hm & Hr & Hw & [n1 Ht] & [m1 Hb])
         (Hu' & Hm' & Hr' & Hw' & [n2 Ht'] & [m2 Hb']).
  kept_split; [congruence | congruence | congruence | | | ].
  - intros u. rewrite Hw', Hw. reflexivity.
  - exists (n1 ++ n2)%list. rewrite Ht', Ht, app_assoc. reflexivity.
  - exists (m1 ++ m2)%list. rewrite Hb', Hb, app_assoc. reflexivity.
Qed.

Lemma currency_alter (f : WalletRow -> WalletRow) u (m : gmap string WalletRow) u' :
  (forall w, w_currency (f w) = w_currency w) ->
  w_currency <$> alter f u m !! u' = w_currency <$> m !! u'.
Proof.
  intros Hf. destruct (decide (u = u')) as [->|Hne].
  - rewrite lookup_alter_eq. destruct (m !! u') as [w|]; cbn; [f_equal; apply Hf | reflexivity].
  - rewrite lookup_alter_ne by assumption. reflexivity.
Qed.

Lemma exec_kept st s s' : Database.exec st s = Some s' -> kept s s'.
Proof.
  destruct st as [a u|a u|r|r|st id]; simpl.
  - intros [= <-]. kept_split; simpl; try reflexivity.
    + intros u'. apply currency_alter. reflexivity.
    + exists []. now rewrite app_nil_r.
    + exists []. now rewrite app_nil_r.
  - intros [= <-]. kept_split; simpl; try reflexivity.
    + intros u'. apply currency_alter. reflexivity.
    + exists []. now rewrite app_nil_r.
    + exists []. now rewrite app_nil_r.
  - destruct (Database.tx_constraints s r); [|discriminate].
    intros [= <-]. kept_split; simpl; try reflexivity.
    + eauto.
    + exists []. now rewrite app_nil_r.
  - destruct (Database.split_constraints s r); [|discriminate].
    intros [= <-]. kept_split; simpl; try reflexivity.
    + exists []. now rewrite app_nil_r.
    + rewrite map_app. eauto.
  - intros [= <-]. kept_split; simpl; try reflexivity.
    + exists []. now rewrite app_nil_r.
    + exists []. rewrite app_nil_r, map_map. apply map_ext.
      intros r. destruct (split_id r =? id)%nat; reflexivity.
Qed.

Lemma exec_all_kept l : forall fs s s',
  Database.exec_all l fs s = Some s' -> kept s s'.
Proof.
  induction l as [|st l IH]; intros fs s s'; simpl.
  - intros [= <-]. apply kept_refl.
  - destruct (hd false fs); [discriminate|].
    destruct (Database.exec st s) as [s1|] eqn:E; [|discriminate].
    intros H. eapply kept_trans; [eapply exec_kept; eassumption|].
    eapply IH; eassumption.
Qed.

(** The facts of the context about statements, as [kept]. *)
Ltac kept_facts :=
  repeat match goal with
         | H : Database.exec_all _ _ _ = Some _ |- _ => apply exec_all_kept in H
         | H : Database.exec _ _ = Some _ |- _ => apply exec_kept in H
         end.

Ltac kept_solve :=
  kept_facts;
  first [ apply kept_refl
        | assumption
        | eapply kept_trans; [eassumption|]; first [assumption | apply kept_refl]
        | eapply kept_trans; [eassumption|];
          eapply kept_trans; [eassumption|]; first [assumption | apply kept_refl] ].

Section Kept.

Variable sql_text : jsval -> string.
Variable JSON_parse : string -> option jsval.
Variable parseFloat_other : jsval -> option Q.
Variable hours_between : string -> jsval -> option Q.
Variable getCashbackDescription : RuleRow -> MerchantRow -> string.

Lemma kept_transferMoney F T amount s :
  spec (PaymentService.transferMoney F T amount) s (fun _ s' => kept s s').
Proof. unfold PaymentService.transferMoney. wp; kept_solve. Qed.

Lemma kept_processPayment u m amount s :
  spec (PaymentService.processPayment sql_text u m amount) s
       (fun _ s' => kept s s').
Proof. unfold PaymentService.processPayment. wp; kept_solve. Qed.

Lemma kept_topUpWallet u amount s :
  spec (PaymentService.topUpWallet u amount) s (fun _ s' => kept s s').
Proof. unfold PaymentService.topUpWallet. wp; kept_solve. Qed.

Lemma kept_processQRPayment u qrData s :
  spec (PaymentService.processQRPayment sql_text JSON_parse parseFloat_other
          hours_between u qrData) s
       (fun _ s' => kept s s').
Proof.
  unfold PaymentService.processQRPayment.
  apply spec_try_catch.
  destruct (match qrData with JStr s0 => JSON_parse s0 | _ => Some qrData end)
    as [qrInfo|]; [|wp; apply kept_refl].
  wp; try apply kept_refl.
  eapply spec_weaken; [apply kept_processPayment|].
  intros o s' Hs'. cbv beta. wp; assumption.
Qed.

Lemma kept_createEqualSplit p t ds s :
  spec (BillSplitService.createEqualSplit p t ds) s (fun _ s' => kept s s').
Proof. unfold BillSplitService.createEqualSplit. wp; kept_solve. Qed.

Lemma kept_createWeightedSplit p t ds s :
  spec (BillSplitService.createWeightedSplit p t ds) s (fun _ s' => kept s s').
Proof. unfold BillSplitService.createWeightedSplit. wp; kept_solve. Qed.

Lemma kept_settleBillSplit i u s :
  spec (BillSplitService.settleBillSplit i u) s (fun _ s' => kept s s').
Proof.
  unfold BillSplitService.settleBillSplit. wp; try apply kept_refl.
  unfold BillSplitService.transferMoney. wp; kept_solve.
Qed.

Lemma kept_cancelBillSplit i u s :
  spec (BillSplitService.cancelBillSplit i u) s (fun _ s' => kept s s').
Proof. unfold BillSplitService.cancelBillSplit. wp; kept_solve. Qed.

Lemma kept_apply_rules u m merchant amount tx rules : forall total applied s0 s,
  kept s0 s ->
  spec (CashbackService.apply_rules getCashbackDescription u m merchant amount
          tx rules total applied) s
       (fun _ s' => kept s0 s').
Proof.
  induction rules as [|[rid r] rest IH]; intros total applied s0 s Hs; simpl.
  - apply spec_ret. assumption.
  - destruct (Qltb 0 (CashbackService.calculateCashbackAmount r amount)).
    + wp; try assumption.
      * apply IH. kept_solve.
      * kept_solve.
    + apply IH. assumption.
Qed.

Lemma kept_calculateAndApplyCashback u m amount tx s :
  spec (CashbackService.calculateAndApplyCashback getCashbackDescription
          u m amount tx) s
       (fun _ s' => kept s s').
Proof.
  unfold CashbackService.calculateAndApplyCashback.
  wp; try apply kept_refl.
  eapply spec_weaken; [apply getApplicableCashbackRules_spec|].
  intros o s' (-> & rules & -> & _). cbv beta iota.
  wp; try apply kept_refl.
  eapply spec_weaken; [apply kept_apply_rules, kept_refl|].
  intros o s' Hs'. cbv beta.
  destruct o as [[total applied]|e]; wp; assumption.
Qed.

Lemma perform_kept c s :
  spec (perform sql_text JSON_parse parseFloat_other hours_between
          getCashbackDescription c) s
       (fun _ s' => kept s s').
Proof.
  destruct c; simpl; apply (dropped _ _ (kept s)).
  - apply kept_transferMoney.
  - apply kept_processPayment.
  - apply kept_topUpWallet.
  - apply kept_processQRPayment.
  - apply kept_createEqualSplit.
  - apply kept_createWeightedSplit.
  - apply kept_settleBillSplit.
  - apply kept_cancelBillSplit.
  - apply kept_calculateAndApplyCashback.
Qed.


End Kept.


(** ** What a payment, a top-up, a settlement and a cancellation do *)

Lemma typeof_number_inv v q : typeof_number v = Some q -> v = JNum q.
Proof. destruct v; simpl; intros [= <-]; reflexivity. Qed.

Lemma has_key_is_Some {V} (m : gmap string V) k :
  Database.has_key m k = true -> is_Some (m !! k).
Proof. unfold Database.has_key. destruct (m !! k); [eauto | discriminate]. Qed.

Lemma tx_constraints_inv s r :
  Database.tx_constraints s r = true ->
  Database.find_tx s (tx_id r) = None
  /\ is_Some (users s !! tx_user_id r)
  /\ match tx_merchant_id r with
     | Some m => is_Some (merchants s !! m)
     | None => True
     end.
Proof.
  unfold Database.tx_constraints. rewrite !andb_true_iff.
  intros [[[H1 H2] H3] _]. split; [|split].
  - destruct (Database.find_tx s (tx_id r)); [discriminate | reflexivity].
  - apply has_key_is_Some, H2.
  - destruct (tx_merchant_id r); [apply has_key_is_Some, H3 | exact I].
Qed.

Ltac failed_reply := intros ? [= <-]; discriminate.

Section Effects.

Variable sql_text : jsval -> string.

End Effects.

Lemma exec_transfer_bundle_inv a F T out_tx in_tx fs s s' :
  Database.exec_all
    [ Database.DebitWallet a F; Database.CreditWallet a T;
      Database.InsertTransaction out_tx; Database.InsertTransaction in_tx ]
    fs s = Some s' ->
  s' = Database.set_transactions
         (Database.set_wallets s
            (alter (Database.add_balance a) T
               (alter (Database.sub_balance a) F (wallets s))))
         (transactions s ++ [out_tx; in_tx])%list.
Proof.
  simpl.
  destruct (hd false fs); [discriminate|].
  destruct (hd false (tl fs)); [discriminate|].
  destruct (hd false (tl (tl fs))); [discriminate|].
  destruct (Database.tx_constraints _ out_tx); [|discriminate].
  destruct (hd false (tl (tl (tl fs)))); [discriminate|].
  destruct (Database.tx_constraints _ in_tx); [|discriminate].
  intros [= <-]. unfold Database.set_transactions, Database.set_wallets. simpl.
  rewrite <- app_assoc. reflexivity.
Qed.

Lemma isSettled_false b : BillSplit.isSettled b = false -> sp_status b <> settled.
Proof.
  unfold BillSplit.isSettled. intros H E. rewrite E in H. discriminate.
Qed.

(** A settlement that is refused has changed nothing, with one exception:
    when the transfer went through and the update of the status was
    rejected by the storage, the reply is the failure of the catch branch,
    the money has moved and the split is as it was. *)
Theorem settlement_failure_modes i u s :
  spec (BillSplitService.settleBillSplit i u) s
       (fun o s' => forall r, o = Ok r -> success r = false ->
          s' = s
          \/ (message r = MsgSettleError
              /\ exists b out_id in_id,
                   Database.find_split s i = Some b
                   /\ debtor_user_id b = u
                   /\ sp_status b <> settled
                   /\ s' = settlement_transfer b out_id in_id s)).
Proof.
  unfold BillSplitService.settleBillSplit.
  wp; try (intros ? [= <-] ?; left; reflexivity).
  unfold BillSplitService.transferMoney.
  wp; try (intros ? [= <-] ?; left; reflexivity);
    try match goal with H : success (ok _ _) = false |- _ => discriminate H end;
    try match goal with H : data (ok _ _) = None |- _ => discriminate H end;
    try (intros ? [= <-] Hfail; discriminate Hfail).
  intros res [= <-] _. right. split; [reflexivity|].
  repeat match goal with
         | H : Transaction.new _ _ _ _ _ _ _ _ = Ok _ |- _ =>
             apply Transaction_new_inv in H as (-> & _)
         end.
  match goal with H : Database.exec_all _ _ _ = Some _ |- _ =>
    apply exec_transfer_bundle_inv in H as -> end.
  match goal with H : negb (String.eqb _ u) = false |- _ =>
    rewrite negb_false_iff in H; apply String.eqb_eq in H end.
  match goal with H : BillSplit.isSettled _ = false |- _ =>
    apply isSettled_false in H end.
  eexists _, _, _. repeat split; try eassumption; reflexivity.
Qed.

(** A cancellation moves no money and adds no record.  One that succeeds
    was asked by the payer of a split that was not settled, and sets the
    status of the split to cancelled, also where it was cancelled
    already; one that is refused has changed nothing. *)
Theorem cancellation_changes_the_status_only i u s :
  spec (BillSplitService.cancelBillSplit i u) s
       (fun o s' =>
          exists r, o = Ok r
            /\ if success r
               then exists b,
                      Database.find_split s i = Some b
                      /\ payer_user_id b = u
                      /\ sp_status b <> settled
                      /\ s' = with_split_status cancelled i s
               else s' = s).
Proof.
  unfold BillSplitService.cancelBillSplit.
  wp; try (eexists; split; [reflexivity|]; reflexivity).
  eexists. split; [reflexivity|]. cbn [success].
  match goal with H : Database.exec (Database.UpdateSplitStatus _ _) _ = Some _ |- _ =>
    injection H as <- end.
  match goal with H : negb (String.eqb _ u) = false |- _ =>
    rewrite negb_false_iff in H; apply String.eqb_eq in H end.
  match goal with H : BillSplit.isSettled _ = false |- _ =>
    apply isSettled_false in H end.
  eexists. repeat split; try eassumption; reflexivity.
Qed.

(** The transfer went through and the update of the status was rejected:
    the reply is a failure, 9.25 has moved and the split is still
    pending. *)
Example settlement_fails_after_transfer :
  let w := mkWorld seed_pending_split
             [false; false; false; false; false; false; true]
             ["aaaaaaaa-1"; "bbbbbbbb-2"] "2025-10-15T12:00:00.000Z" in
  exists r w',
    BillSplitService.settleBillSplit 1 "U2" w = (Ok r, w')
    /\ success r = false /\ message r = MsgSettleError
    /\ balance_of (db w') "U2" = Some (323 # 4)
    /\ balance_of (db w') "U1" = Some (1037 # 4)
    /\ split_status (db w') 1 = Some pending.
Proof.
  intros w. eexists _, _. split; [vm_compute; reflexivity|].
  repeat split; vm_compute; reflexivity.
Qed.

Lemma settled_split_is_rejected_witness :
  Database.find_split seed_settled_split 1
    = Some (mkSplit 1 "TX_PAY_004" "U1" "U2" (37 # 2) (37 # 4) 1 settled)
  /\ rejects (BillSplitService.settleBillSplit 1 "U2") seed_settled_split.
Proof.
  split; [reflexivity|].
  apply (settleBillSplit_rejects_settled 1 "U2"
           (mkSplit 1 "TX_PAY_004" "U1" "U2" (37 # 2) (37 # 4) 1 settled));
    reflexivity.
Defined.

Ltac unchanged := intros ? [= <-] ?; reflexivity.

Section Refused.

Variable sql_text : jsval -> string.
Variable JSON_parse : string -> option jsval.
Variable parseFloat_other : jsval -> option Q.
Variable hours_between : string -> jsval -> option Q.

Lemma refused_processPayment u m amount s :
  spec (PaymentService.processPayment sql_text u m amount) s
       (fun o s' => exists r, o = Ok r /\ (success r = false -> s' = s)).
Proof.
  unfold PaymentService.processPayment.
  wp; eexists; (split; [reflexivity|]); try reflexivity.
  intros Hf. discriminate Hf.
Qed.


End Refused.

(** ** WalletRepository.transfer *)

Lemma transaction_of_inv {S} (exec : S -> Store -> option Store) l w o w' :
  Database.transaction_of exec l w = (o, w') ->
  (o = Ok tt /\ Database.exec_all_of exec l (faults w) (db w) = Some (db w')) \/
  (o = Throw StorageError /\ db w' = db w).
Proof.
  unfold Database.transaction_of.
  destruct (Database.exec_all_of exec l (faults w) (db w)) eqn:E;
    intros [= <- <-]; auto.
Qed.

Lemma spec_transaction_of {S} (exec : S -> Store -> option Store) l s
    (Q : outcome unit -> Store -> Prop) :
  (forall fs s', Database.exec_all_of exec l fs s = Some s' -> Q (Ok tt) s') ->
  Q (Throw StorageError) s ->
  spec (Database.transaction_of exec l) s Q.
Proof.
  intros H1 H2 w <-.
  destruct (Database.transaction_of exec l w) as [o w'] eqn:E. simpl.
  apply transaction_of_inv in E as [[-> E]|[-> ->]]; eauto.
Qed.

(** The bundle of [Database.transaction] is the bundle of
    [Database.transaction_of] for the statements of the services. *)
Lemma transaction_of_exec l w :
  Database.transaction_of Database.exec l w = Database.transaction l w.
Proof.
  unfold Database.transaction_of, Database.transaction.
  assert (E : forall fs s, Database.exec_all_of Database.exec l fs s
                           = Database.exec_all l fs s).
  { induction l as [|st l IH]; intros fs s; simpl; [reflexivity|].
    destruct (hd false fs); [reflexivity|].
    destruct (Database.exec st s); [apply IH | reflexivity]. }
  rewrite E. reflexivity.
Qed.

(** The store after the two writes of a transfer, the balances read
    being [bF] and [bT]. *)
Lemma exec_transfer_writes bF bT a F T fs s s' :
  Database.exec_all_of Database.exec_balance
    [Database.SetBalance (bF - a) F; Database.SetBalance (bT + a) T] fs s
    = Some s' ->
  s' = Database.set_wallets s
         (alter (Database.set_balance (bT + a)) T
            (alter (Database.set_balance (bF - a)) F (wallets s))).
Proof.
  simpl. destruct (hd false fs); [discriminate|].
  destruct (hd false (tl fs)); [discriminate|].
  intros [= <-]. reflexivity.
Qed.

(** [transfer] returns [true] or throws, never [false].  When it returns,
    both wallets exist, the balance of the sender covers the amount, and
    the store differs by the two balances written, the one of the sender
    first: the balance read less the amount, and the balance read plus
    the amount; no record is added.  When it throws, the store is as it
    was.  The sign of the amount is not checked. *)
Lemma repository_transfer_writes_two_balances F T a s :
  spec (WalletRepository.transfer F T a) s
       (fun o s' =>
          match o with
          | Ok done =>
              done = true
              /\ exists rowF rowT,
                   wallets s !! F = Some rowF /\ wallets s !! T = Some rowT
                   /\ a <= w_balance rowF
                   /\ s' = Database.set_wallets s
                             (alter (Database.set_balance (w_balance rowT + a)) T
                                (alter (Database.set_balance (w_balance rowF - a)) F
                                       (wallets s)))
          | Throw _ => s' = s
          end).
Proof.
  unfold WalletRepository.transfer.
  wp; try reflexivity.
  apply spec_transaction_of.
  - intros fs s' Hexec. wp.
    apply exec_transfer_writes in Hexec as ->.
    funds_facts. split; [reflexivity|]. eauto 10.
  - wp. reflexivity.
Qed.

Lemma nonneg_set_balance b u (m : gmap string WalletRow) :
  0 <= b ->
  (forall u' row, m !! u' = Some row -> 0 <= w_balance row) ->
  forall u' row, alter (Database.set_balance b) u m !! u' = Some row ->
                 0 <= w_balance row.
Proof.
  intros Hb Hm u' row. destruct (String.string_dec u u') as [->|Hne].
  - rewrite lookup_alter_eq. destruct (m !! u'); [|discriminate].
    intros [= <-]. exact Hb.
  - rewrite lookup_alter_ne by assumption. apply Hm.
Qed.

(** With an amount that is not negative a transfer leaves no balance
    below 0.  (The amount is not checked: see
    [repository_transfer_of_a_negative_amount].) *)
Theorem repository_transfer_keeps_nonneg F T a s :
  nonneg s -> 0 <= a ->
  spec (WalletRepository.transfer F T a) s (fun _ s' => nonneg s').
Proof.
  intros Hs Ha.
  eapply spec_weaken; [apply repository_transfer_writes_two_balances|].
  intros [done|e] s'; [|intros ->; exact Hs].
  intros (_ & rowF & rowT & HF & HT & Hle & ->). unfold nonneg. simpl.
  apply nonneg_set_balance; [specialize (Hs _ _ HT); lra|].
  apply nonneg_set_balance; [lra | exact Hs].
Qed.

Lemma repository_transfer_keeps_nonneg_witness :
  nonneg seed /\ 0 <= 50
  /\ nonneg (db (snd (WalletRepository.transfer "U1" "U2" 50 world0))).
Proof.
  assert (H0 : nonneg seed) by (apply nonneg_check; vm_compute; reflexivity).
  assert (Ha : 0 <= 50) by (unfold Qle; simpl; lia).
  split; [exact H0|]. split; [exact Ha|].
  apply (repository_transfer_keeps_nonneg "U1" "U2" 50 seed H0 Ha world0 eq_refl).
Defined.

(** A negative amount passes the check of the funds and takes from the
    receiver, below 0 if need be. *)
Example repository_transfer_of_a_negative_amount :
  exists w',
    WalletRepository.transfer "U1" "U3" (- (40)) world0 = (Ok true, w')
    /\ balance_of (db w') "U1" = Some 290
    /\ balance_of (db w') "U3" = Some (- (10)).
Proof.
  eexists. split; [vm_compute; reflexivity|].
  split; vm_compute; reflexivity.
Qed.

(** ** middleware/auth.js: the sessions and the Authorization header *)

(** A session made can be read back, touched; a session destroyed is
    gone; the other sessions are not touched by either. *)
Theorem session_create_read_destroy sessions sessionId createdAt lastAccess
    userId now :
  let made := SessionManager.createSession sessionId createdAt lastAccess
                userId sessions in
  let touched := SessionManager.mkSession userId createdAt now in
  fst made = sessionId
  /\ SessionManager.getSession sessionId now (snd made)
     = (Some touched, <[sessionId := touched]> (snd made))
  /\ SessionManager.destroySession sessionId (snd made)
     = (true, delete sessionId sessions)
  /\ fst (SessionManager.getSession sessionId now
            (snd (SessionManager.destroySession sessionId (snd made)))) = None
  /\ (forall other, other <> sessionId ->
        snd made !! other = sessions !! other
        /\ snd (SessionManager.getSession sessionId now (snd made)) !! other
           = sessions !! other
        /\ snd (SessionManager.destroySession sessionId (snd made)) !! other
           = sessions !! other)
  /\ (sessions !! sessionId = None ->
        SessionManager.destroySession sessionId sessions = (false, sessions)
        /\ SessionManager.getSession sessionId now sessions = (None, sessions)).
Proof.
  cbv zeta. unfold SessionManager.createSession. cbn [fst snd].
  set (s1 := <[sessionId := SessionManager.mkSession userId createdAt lastAccess]>
               sessions).
  assert (Hl : s1 !! sessionId
               = Some (SessionManager.mkSession userId createdAt lastAccess))
    by apply lookup_insert_eq.
  assert (Hd : delete sessionId s1 = delete sessionId sessions)
    by apply delete_insert_eq.
  unfold SessionManager.getSession, SessionManager.destroySession.
  rewrite Hl. cbn [fst snd SessionManager.userId SessionManager.createdAt].
  rewrite Hd, lookup_delete_eq. cbn [fst].
  split; [reflexivity|]. split; [reflexivity|]. split; [reflexivity|].
  split; [reflexivity|]. split.
  - intros other Hne.
    assert (Hne' : sessionId <> other) by (intros E; symmetry in E; contradiction).
    unfold s1. rewrite !lookup_insert_ne by assumption.
    rewrite lookup_delete_ne by assumption. auto.
  - intros Hnone. rewrite Hnone. rewrite delete_id by assumption. auto.
Qed.

Lemma clean_fold now (acc0 sessions : gmap string SessionManager.Session) id :
  map_fold (fun sessionId session (acc : gmap string SessionManager.Session) =>
              if (SessionManager.maxAge
                  <? now - SessionManager.lastAccess session)%Z
              then delete sessionId acc else acc)
           acc0 sessions !! id
  = match sessions !! id with
    | Some session =>
        if (SessionManager.maxAge <? now - SessionManager.lastAccess session)%Z
        then None else acc0 !! id
    | None => acc0 !! id
    end.
Proof.
  revert id.
  apply (map_fold_weak_ind
           (fun (r m : gmap string SessionManager.Session) =>
              forall id,
                r !! id = match m !! id with
                          | Some session =>
                              if (SessionManager.maxAge
                                  <? now - SessionManager.lastAccess session)%Z
                              then None else acc0 !! id
                          | None => acc0 !! id
                          end)).
  - intros id. rewrite lookup_empty. reflexivity.
  - intros i x m r Hi IH id.
    destruct (decide (i = id)) as [->|Hne].
    + rewrite lookup_insert_eq.
      destruct (SessionManager.maxAge <? now - SessionManager.lastAccess x)%Z.
      * apply lookup_delete_eq.
      * rewrite IH, Hi. reflexivity.
    + rewrite lookup_insert_ne by assumption.
      destruct (SessionManager.maxAge <? now - SessionManager.lastAccess x)%Z.
      * rewrite lookup_delete_ne by assumption. apply IH.
      * apply IH.
Qed.

(** The cleaning removes the sessions idle for more than 24 hours, and
    only those: any other session is found as it was. *)
Theorem clean_removes_exactly_the_expired now sessions id :
  SessionManager.cleanExpiredSessions now sessions !! id
  = match sessions !! id with
    | Some session =>
        if (24 * 60 * 60 * 1000 <? now - SessionManager.lastAccess session)%Z
        then None else Some session
    | None => None
    end.
Proof.
  unfold SessionManager.cleanExpiredSessions. rewrite clean_fold.
  unfold SessionManager.maxAge.
  destruct (sessions !! id) as [session|] eqn:E; reflexivity.
Qed.

(** A session read survives every cleaning of the next 24 hours. *)
Theorem session_read_survives_cleaning sessions id now later session sessions' :
  SessionManager.getSession id now sessions = (Some session, sessions') ->
  (later - now <= 24 * 60 * 60 * 1000)%Z ->
  SessionManager.cleanExpiredSessions later sessions' !! id = Some session
  /\ SessionManager.lastAccess session = now.
Proof.
  unfold SessionManager.getSession.
  destruct (sessions !! id) as [old|] eqn:E; [|discriminate].
  intros [= <- <-] Hlater.
  unfold SessionManager.cleanExpiredSessions.
  rewrite clean_fold, lookup_insert_eq.
  unfold SessionManager.maxAge. cbn [SessionManager.lastAccess].
  destruct (24 * 60 * 60 * 1000 <? later - now)%Z eqn:Hexp.
  - apply Z.ltb_lt in Hexp. lia.
  - split; reflexivity.
Qed.

Lemma session_read_survives_cleaning_witness :
  exists session sessions',
    SessionManager.getSession "s-1" 1000
      (snd (SessionManager.createSession "s-1" 0 0 "U1" ∅))
    = (Some session, sessions')
    /\ (86401000 - 1000 <= 24 * 60 * 60 * 1000)%Z
    /\ SessionManager.cleanExpiredSessions 86401000 sessions' !! "s-1"
       = Some session
    /\ SessionManager.lastAccess session = 1000%Z.
Proof.
  assert (Hget : SessionManager.getSession "s-1" 1000
                   (snd (SessionManager.createSession "s-1" 0 0 "U1" ∅))
                 = (Some (SessionManager.mkSession "U1" 0 1000),
                    snd (SessionManager.getSession "s-1" 1000
                           (snd (SessionManager.createSession
                                   "s-1" 0 0 "U1" ∅)))))
    by reflexivity.
  assert (Hlater : (86401000 - 1000 <= 24 * 60 * 60 * 1000)%Z)
    by (vm_compute; discriminate).
  destruct (session_read_survives_cleaning _ "s-1" 1000 86401000 _ _
              Hget Hlater) as [H1 H2].
  eexists _, _. split; [exact Hget|]. split; [exact Hlater|].
  split; [exact H1 | exact H2].
Defined.

Lemma prefix_split p : forall h,
  String.prefix p h = true -> exists rest, h = p ++ rest.
Proof.
  induction p as [|a p IH]; intros h.
  - intros _. exists h. reflexivity.
  - destruct h as [|b h]; simpl; [discriminate|].
    destruct (Ascii.ascii_dec a b) as [->|]; [|discriminate].
    intros H. destruct (IH h H) as [rest ->]. exists rest. reflexivity.
Qed.

Lemma append_empty_l (x : string) : "" ++ x = x.
Proof. reflexivity. Qed.

Lemma append_empty_r (p : string) : p ++ "" = p.
Proof.
  induction p as [|a p IH]; [reflexivity|].
  change (String a (p ++ "") = String a p). now rewrite IH.
Qed.

Lemma substring_all s : String.substring 0 (String.length s) s = s.
Proof. induction s as [|a s IH]; simpl; [reflexivity | now rewrite IH]. Qed.

Lemma substring_after p : forall rest,
  String.substring (String.length p) (String.length rest) (p ++ rest) = rest.
Proof.
  induction p as [|a p IH]; intros rest; simpl.
  - apply substring_all.
  - apply IH.
Qed.

Lemma length_append_string (p rest : string) :
  String.length (p ++ rest) = (String.length p + String.length rest)%nat.
Proof. induction p as [|a p IH]; simpl; [reflexivity | now rewrite IH]. Qed.

(** Removing the first occurrence of a pattern leaves nothing exactly when
    the string is the pattern, or is empty. *)
Lemma String_replace_empty s p :
  p <> "" ->
  (String_replace s p "" = "" <-> s = p \/ s = "").
Proof.
  intros Hp. unfold String_replace. destruct s as [|b s].
  - destruct p as [|a p]; [contradiction|]. simpl. tauto.
  - cbn [String.index].
    destruct (String.prefix p (String b s)) eqn:Hpre.
    + apply prefix_split in Hpre as [rest Hrest]. rewrite Hrest.
      cbn [String.substring].
      assert (E : String.substring 0 0 (p ++ rest) = "")
        by (destruct (p ++ rest); reflexivity).
      rewrite E. cbn [Nat.add]. rewrite !append_empty_l.
      rewrite length_append_string.
      replace (String.length p + String.length rest - String.length p)%nat
        with (String.length rest) by lia.
      rewrite substring_after. split.
      * intros ->. left. apply append_empty_r.
      * intros [H|H];
          [|destruct p as [|a p];
            [contradiction
            | change (String a (p ++ rest) = "") in H; discriminate]].
        assert (L : String.length (p ++ rest) = String.length p) by (now rewrite H).
        rewrite length_append_string in L.
        destruct rest; [reflexivity | simpl in L; lia].
    + assert (Hs : String.prefix (String b s) (String b s) = true).
      { clear. generalize (String b s). intros x.
        induction x as [|c x IH]; simpl; [reflexivity|].
        destruct (Ascii.ascii_dec c c); [assumption | contradiction]. }
      destruct (String.index 0 p s) as [n|].
      * cbn [String.substring]. split; [discriminate|].
        intros [H|H]; [|discriminate]. rewrite <- H in Hpre. congruence.
      * split; [discriminate|].
        intros [H|H]; [|discriminate]. rewrite <- H in Hpre. congruence.
Qed.

Lemma prefix_append p : forall rest, String.prefix p (p ++ rest) = true.
Proof.
  induction p as [|a p IH]; intros rest.
  - destruct rest; reflexivity.
  - change (String a p ++ rest) with (String a (p ++ rest)). simpl.
    destruct (Ascii.ascii_dec a a); [apply IH | contradiction].
Qed.

(** Removing a prefix leaves the rest. *)
Lemma String_replace_prefix p rest :
  p <> "" -> String_replace (p ++ rest) p "" = rest.
Proof.
  intros Hp. unfold String_replace.
  assert (Hi : String.index 0 p (p ++ rest) = Some 0%nat).
  { destruct p as [|a p]; [contradiction|].
    pose proof (prefix_append (String a p) rest) as Hpre.
    change (String a p ++ rest) with (String a (p ++ rest)) in *.
    cbn [String.index]. rewrite Hpre. reflexivity. }
  rewrite Hi. cbn [Nat.add].
  assert (E : String.substring 0 0 (p ++ rest) = "")
    by (destruct (p ++ rest); reflexivity).
  rewrite E, !append_empty_l, length_append_string.
  replace (String.length p + String.length rest - String.length p)%nat
    with (String.length rest) by lia.
  apply substring_after.
Qed.

(** The middleware lets a request pass exactly when it has an
    Authorization header that is neither empty nor the bare ["Bearer "];
    the user of the session is then the header without its first
    ["Bearer "], never empty and checked against nothing: after the prefix
    any text is taken, and a header without the prefix is taken whole. *)
Theorem authMiddleware_accepts_any_user authorization :
  ((exists u, AuthMiddleware.authMiddleware authorization
              = AuthMiddleware.CallNext u)
   <-> exists h, authorization = Some h /\ h <> "" /\ h <> "Bearer ")
  /\ (forall u, AuthMiddleware.authMiddleware authorization
                = AuthMiddleware.CallNext u ->
        exists h userId,
          authorization = Some h /\ u = Some userId /\ userId <> ""
          /\ userId = String_replace h "Bearer " "")
  /\ (forall userId, userId <> "" ->
        AuthMiddleware.authMiddleware (Some ("Bearer " ++ userId))
        = AuthMiddleware.CallNext (Some userId))
  /\ (forall h, h <> "" -> String.index 0 "Bearer " h = None ->
        AuthMiddleware.authMiddleware (Some h)
        = AuthMiddleware.CallNext (Some h)).
Proof.
  assert (Hp : "Bearer " <> "") by discriminate.
  assert (Htruthy : forall x, str_truthy x = true <-> x <> "").
  { intros x. unfold str_truthy. rewrite negb_true_iff. apply String.eqb_neq. }
  assert (Hfalsy : forall x, str_truthy x = false <-> x = "").
  { intros x. unfold str_truthy. rewrite negb_false_iff. apply String.eqb_eq. }
  unfold AuthMiddleware.authMiddleware. split; [|split; [|split]].
  - split.
    + intros [u H]. destruct authorization as [h|]; [|discriminate].
      destruct (str_truthy h) eqn:Hh; [|discriminate]. cbn [negb] in H.
      destruct (str_truthy (String_replace h "Bearer " "")) eqn:Hr;
        [|discriminate].
      apply Htruthy in Hh, Hr. exists h. split; [reflexivity|]. split; [assumption|].
      intros ->. apply Hr. apply String_replace_empty; auto.
    + intros (h & -> & Hne & Hnb).
      assert (Hh : str_truthy h = true) by (apply Htruthy; assumption).
      rewrite Hh. cbn [negb].
      destruct (str_truthy (String_replace h "Bearer " "")) eqn:Hr;
        [eauto|].
      apply Hfalsy, String_replace_empty in Hr as [?|?]; auto; contradiction.
  - intros u H. destruct authorization as [h|]; [|discriminate].
    destruct (str_truthy h) eqn:Hh; [|discriminate]. cbn [negb] in H.
    destruct (str_truthy (String_replace h "Bearer " "")) eqn:Hr;
      [|discriminate].
    injection H as <-. apply Htruthy in Hr. eauto 10.
  - intros userId Hu.
    rewrite String_replace_prefix by assumption.
    assert (Hh : str_truthy ("Bearer " ++ userId) = true) by reflexivity.
    rewrite Hh. cbn [negb]. apply Htruthy in Hu. rewrite Hu. reflexivity.
  - intros h Hh Hidx. unfold String_replace. rewrite Hidx.
    apply Htruthy in Hh. rewrite Hh. reflexivity.
Qed.

(** ** The history of a user, page by page *)

Lemma pages_concat {A} (rows : list A) psn k :
  concat (map (fun p => take psn (drop ((p - 1) * psn) rows)) (seq 1 k))
  = take (k * psn) rows.
Proof.
  induction k as [|k IH].
  - reflexivity.
  - rewrite seq_S, map_app, concat_app, IH. cbn [map concat].
    rewrite app_nil_r.
    replace (1 + k - 1)%nat with k by lia.
    rewrite take_take_drop. f_equal. lia.
Qed.

Lemma sql_limit_page {A} (rows : list A) (p : nat) (ps : Z) :
  (0 < ps)%Z -> (1 <= p)%nat ->
  TransactionRepository.sql_limit ps ((Z.of_nat p - 1) * ps)%Z rows
  = take (Z.to_nat ps) (drop ((p - 1) * Z.to_nat ps) rows).
Proof.
  intros Hps Hp. unfold TransactionRepository.sql_limit.
  assert (Hl : (ps <? 0)%Z = false) by (apply Z.ltb_ge; lia).
  rewrite Hl. do 2 f_equal. nia.
Qed.

(** ** Reading back what was written *)

Lemma get_no_fault {A} (read : Store -> A) w :
  hd false (faults w) = false ->
  Database.get read w
  = (Ok (read (db w)), mkWorld (db w) (tl (faults w)) (uuids w) (now w)).
Proof.
  intros Hf. unfold Database.get, Database.next_fault. unfold_monad. simpl.
  rewrite Hf. reflexivity.
Qed.

Lemma spec_findByUserId_valid u s (Q : outcome (option Wallet.t) -> Store -> Prop) :
  (wallets s !! u = None -> Q (Ok None) s) ->
  (forall row,
      wallets s !! u = Some row ->
      Wallet.fromRow u row = Ok (Wallet.mk u (w_balance row) (w_currency row)) ->
      Q (Ok (Some (Wallet.mk u (w_balance row) (w_currency row)))) s) ->
  (forall e, Q (Throw e) s) ->
  spec (WalletRepository.findByUserId u) s Q.
Proof.
  intros H1 H2 H3. unfold WalletRepository.findByUserId.
  apply spec_bind, spec_get; [|apply H3].
  destruct (wallets s !! u) as [row|] eqn:L.
  - apply spec_bind, spec_lift.
    destruct (Wallet.fromRow u row) as [wl|e] eqn:F; [|apply H3].
    apply spec_ret. pose proof F as F'.
    apply Wallet_fromRow_inv in F' as [-> _]. apply H2; [reflexivity | exact F].
  - apply spec_ret. apply H1. reflexivity.
Qed.

Lemma Wallet_fromRow_credited u row d :
  Wallet.fromRow u row = Ok (Wallet.mk u (w_balance row) (w_currency row)) ->
  0 <= d ->
  Wallet.fromRow u (Database.add_balance d row)
  = Ok (Wallet.mk u (w_balance row + d) (w_currency row)).
Proof.
  unfold Wallet.fromRow, Wallet.new, Wallet.validate. simpl.
  destruct (check (str_truthy u)) as [[]|]; [|discriminate]. simpl.
  destruct (Qltb (w_balance row) 0) eqn:Hb; [discriminate|]. simpl.
  destruct (check (str_truthy (w_currency row))) as [[]|]; [|discriminate].
  intros _ Hd. apply Qltb_false in Hb.
  assert (Hb' : Qltb (w_balance row + d) 0 = false) by (apply Qltb_false; lra).
  rewrite Hb'. reflexivity.
Qed.

Lemma topup_leaves_a_valid_wallet u amount s :
  spec (PaymentService.topUpWallet u amount) s
       (fun o s' => forall r, o = Ok r -> success r = true ->
          exists a row d,
            0 < a
            /\ Wallet.fromRow u row
               = Ok (Wallet.mk u (w_balance row) (w_currency row))
            /\ wallets s' !! u = Some (Database.add_balance a row)
            /\ data r = Some d
            /\ PaymentService.topup_newBalance d = w_balance row + a).
Proof.
  unfold PaymentService.topUpWallet. apply spec_try_catch.
  destruct (typeof_number amount) as [a|]; [|wp; failed_reply].
  destruct (Qleb a 0) eqn:Ha; [wp; failed_reply|]. apply Qleb_false in Ha.
  apply spec_bind, spec_findByUserId_valid.
  - intros _. wp. failed_reply.
  - intros row Hrow Hvalid. wp; try failed_reply.
    intros r [= <-] _.
    match goal with H : Database.exec_all _ _ _ = Some _ |- _ =>
      apply exec_credit_bundle in H as (Hw & _) end.
    exists a, row. eexists. split; [assumption|]. split; [assumption|].
    split; [|split; reflexivity].
    rewrite Hw, lookup_alter_eq, Hrow. reflexivity.
  - intros e. wp. failed_reply.
Qed.

Section ReadBack.

Variable toFixed2 : Q -> string.

(** [getWalletBalance] changes nothing and always replies; where no
    fault of the storage meets it, it reports the balance and the
    currency stored, or that there is no wallet. *)
Lemma getWalletBalance_reads u w :
  hd false (faults w) = false ->
  forall row wl,
    wallets (db w) !! u = Some row ->
    Wallet.fromRow u row = Ok wl ->
    exists reply w',
      PaymentService.getWalletBalance toFixed2 u w = (Ok reply, w')
      /\ db w' = db w
      /\ reply_success reply = true
      /\ (PaymentService.bd_balance <$> reply_data reply) = Some (w_balance row)
      /\ (PaymentService.bd_currency <$> reply_data reply) = Some (w_currency row).
Proof.
  intros Hf row wl Hrow Hwl.
  unfold PaymentService.getWalletBalance, WalletRepository.findByUserId.
  unfold_monad. rewrite get_no_fault by assumption. rewrite Hrow, Hwl.
  apply Wallet_fromRow_inv in Hwl as [-> _].
  eexists _, _. split; [reflexivity|]. repeat split.
Qed.

(** After a top-up that succeeds, a reading of the balance that meets no
    fault of the storage reports the new balance of the reply of the
    top-up. *)
Theorem balance_read_after_top_up u amount w r w1 :
  PaymentService.topUpWallet u amount w = (Ok r, w1) ->
  success r = true ->
  hd false (faults w1) = false ->
  exists d reply w2,
    data r = Some d
    /\ PaymentService.getWalletBalance toFixed2 u w1 = (Ok reply, w2)
    /\ reply_success reply = true
    /\ (PaymentService.bd_balance <$> reply_data reply)
       = Some (PaymentService.topup_newBalance d)
    /\ db w2 = db w1.
Proof.
  intros Hrun Hok Hf.
  pose proof (topup_leaves_a_valid_wallet u amount (db w) w eq_refl) as H.
  rewrite Hrun in H. simpl in H.
  destruct (H r eq_refl Hok) as (a & row & d & Ha & Hvalid & Hrow' & Hd & Hnew).
  assert (Hvalid' := Wallet_fromRow_credited u row a Hvalid ltac:(lra)).
  destruct (getWalletBalance_reads u w1 Hf _ _ Hrow' Hvalid')
    as (reply & w2 & Hget & Hdb & Hs & Hb & _).
  exists d, reply, w2. rewrite Hnew. auto.
Qed.

End ReadBack.

Lemma balance_read_after_top_up_witness :
  exists r w1 d reply w2,
    PaymentService.topUpWallet "U3" (JNum (1 # 8)) world0 = (Ok r, w1)
    /\ success r = true
    /\ hd false (faults w1) = false
    /\ data r = Some d
    /\ PaymentService.getWalletBalance (fun _ => "") "U3" w1 = (Ok reply, w2)
    /\ reply_success reply = true
    /\ (PaymentService.bd_balance <$> reply_data reply)
       = Some (PaymentService.topup_newBalance d)
    /\ db w2 = db w1
    /\ PaymentService.topup_newBalance d = 30 + (1 # 8).
Proof.
  assert (Hrun : PaymentService.topUpWallet "U3" (JNum (1 # 8)) world0
                 = (Ok (ok MsgTopUpOk
                          (PaymentService.mkTopUpData "TX_TOP_aaaaaaaa" (1 # 8)
                             (30 + (1 # 8)))),
                    snd (PaymentService.topUpWallet "U3" (JNum (1 # 8)) world0)))
    by (vm_compute; reflexivity).
  destruct (balance_read_after_top_up (fun _ => "") "U3" (JNum (1 # 8))
              world0 _ _ Hrun eq_refl eq_refl)
    as (d & reply & w2 & Hd & Hget & Hs & Hb & Hdb).
  eexists _, _.
  exists d, reply, w2.
  split; [exact Hrun|]. split; [reflexivity|]. split; [reflexivity|].
  split; [exact Hd|]. split; [exact Hget|]. split; [exact Hs|].
  split; [exact Hb|]. split; [exact Hdb|].
  injection Hd as <-. reflexivity.
Defined.

(** ** AuthService, BudgetService and the controller of the split details *)

Lemma spec_findById_user id s (Q : outcome (option UserRow) -> Store -> Prop) :
  (users s !! id = None -> Q (Ok None) s) ->
  (forall row, users s !! id = Some row -> User.validate id row = Ok tt ->
               Q (Ok (Some row)) s) ->
  (forall e, Q (Throw e) s) ->
  spec (UserRepository.findById id) s Q.
Proof.
  intros H1 H2 H3. unfold UserRepository.findById.
  apply spec_bind, spec_get; [|apply H3].
  destruct (users s !! id) as [row|] eqn:L.
  - apply spec_bind, spec_lift. unfold User.fromRow.
    destruct (User.validate id row) as [[]|e] eqn:V; [|apply H3].
    apply spec_ret. apply H2; [reflexivity | exact V].
  - apply spec_ret. apply H1. reflexivity.
Qed.

Lemma User_validate_inv id row :
  User.validate id row = Ok tt ->
  id <> "" /\ u_name row <> "" /\ User.isValidPhone (u_phone row) = true.
Proof.
  unfold User.validate. intros V.
  apply seq_check_inv in V as [V1 V]. apply seq_check_inv in V as [V2 V3].
  apply check_inv in V1, V2, V3. apply andb_true_iff in V3 as [_ V3].
  unfold str_truthy in *. rewrite negb_true_iff in V1, V2.
  apply String.eqb_neq in V1, V2. auto.
Qed.

(** A login changes nothing and always replies.  It succeeds only for an
    id that is a text, not empty, of a user of the table whose row passes
    the validation of the domain class (a name, and a phone number of +90
    and ten digits), and then replies that user. *)
Theorem authenticateById_finds_a_valid_user userId s :
  spec (AuthService.authenticateById userId) s
       (fun o s' =>
          s' = s
          /\ exists reply,
               o = Ok reply
               /\ (reply_success reply = true ->
                   exists id row,
                     userId = JStr id /\ id <> ""
                     /\ users s !! id = Some row
                     /\ u_name row <> ""
                     /\ User.isValidPhone (u_phone row) = true
                     /\ reply_data reply = Some (id, row))).
Proof.
  unfold AuthService.authenticateById. apply spec_try_catch.
  destruct userId as [| |b|q|id|l|fields];
    try (apply spec_ret; split; [reflexivity|]; eexists; split;
         [reflexivity | discriminate]).
  destruct (negb (str_truthy id)) eqn:Hid.
  - apply spec_ret. split; [reflexivity|]. eexists. split; [reflexivity|discriminate].
  - apply spec_bind, spec_findById_user.
    + intros _. apply spec_ret. split; [reflexivity|].
      eexists. split; [reflexivity|discriminate].
    + intros row Hrow V. apply spec_ret. split; [reflexivity|].
      eexists. split; [reflexivity|]. intros _.
      apply User_validate_inv in V as (V1 & V2 & V3).
      exists id, row. auto 10.
    + intros e. apply spec_ret. split; [reflexivity|].
      eexists. split; [reflexivity|discriminate].
Qed.

Section SearchUsers.

Variable users_like : string -> Store -> list (string * UserRow).

Lemma spec_searchByName term s :
  spec (UserRepository.searchByName users_like term) s (fun _ s' => s' = s).
Proof.
  unfold UserRepository.searchByName.
  apply spec_bind, spec_get; [|reflexivity].
  apply spec_mapM_unchanged; [|reflexivity].
  intros x. apply spec_bind, spec_lift.
  destruct (User.fromRow x.1 x.2); [apply spec_ret|]; reflexivity.
Qed.

(** A search changes nothing, always returns a list, and the list never
    holds the user who searches: not when the term is that user's own
    id, and not when the name matches. *)
Theorem searchUsers_never_returns_the_searcher currentUserId searchTerm s :
  spec (AuthService.searchUsers users_like currentUserId searchTerm) s
       (fun o s' =>
          s' = s
          /\ exists found,
               o = Ok found
               /\ Forall (fun user => fst user <> currentUserId) found).
Proof.
  unfold AuthService.searchUsers.
  set (Post := fun (o : outcome (list (string * UserRow))) (s' : Store) =>
                 s' = s
                 /\ exists found,
                      o = Ok found
                      /\ Forall (fun user : string * UserRow =>
                                   fst user <> currentUserId) found).
  assert (Hnil : Post (Ok []) s).
  { split; [reflexivity|]. exists []. split; [reflexivity|constructor]. }
  assert (Hthrow : forall e : Err, spec (mret []) s Post).
  { intros e. apply spec_ret, Hnil. }
  apply spec_try_catch.
  destruct (negb (str_truthy searchTerm)); [apply spec_ret, Hnil|].
  assert (Hname : spec
            (users ← UserRepository.searchByName users_like searchTerm;
             mret (List.filter
                     (fun user => negb (String.eqb (fst user) currentUserId))
                     users)) s
            (fun o s1 => match o with
                         | Ok a => Post (Ok a) s1
                         | Throw e => spec (mret []) s1 Post
                         end)).
  { apply spec_bind. eapply spec_weaken; [apply spec_searchByName|].
    intros [users|e] s1 ->; cbv beta iota.
    - apply spec_ret. split; [reflexivity|]. eexists. split; [reflexivity|].
      apply Forall_forall. intros x Hx.
      apply list_elem_of_In, filter_In in Hx as [_ Hx].
      rewrite negb_true_iff in Hx. apply String.eqb_neq in Hx. exact Hx.
    - apply Hthrow, e. }
  apply spec_bind.
  destruct (String.prefix "U" searchTerm).
  - apply spec_bind, spec_findById_user.
    + intros _. apply spec_ret. exact Hname.
    + intros row Hrow V. apply spec_ret.
      destruct (negb (String.eqb searchTerm currentUserId)) eqn:Hself.
      * apply spec_ret. split; [reflexivity|]. eexists. split; [reflexivity|].
        constructor; [|constructor]. simpl.
        rewrite negb_true_iff in Hself. apply String.eqb_neq in Hself. exact Hself.
      * exact Hname.
    + intros e. apply Hthrow, e.
  - apply spec_ret. exact Hname.
Qed.

End SearchUsers.

Section SplitDetails.

Variable parseInt : string -> option Z.

(** The controller changes nothing and always answers.  It sends the
    details of a split with status 200 only, only for the split of the
    table that the id in the path names, and only to a session whose user
    is the payer or the debtor of that split. *)
Theorem split_details_go_to_payer_or_debtor session_userId splitId s :
  spec (BillSplitController.getSplitDetails parseInt session_userId splitId) s
       (fun o s' =>
          s' = s
          /\ exists status reply,
               o = Ok (status, reply)
               /\ (forall d, reply_data reply = Some d ->
                     status = 200%nat
                     /\ exists userId id,
                          session_userId = Some userId
                          /\ parseInt splitId = Some (Z.of_nat id)
                          /\ Database.find_split s id
                             = Some (BillSplitRepository.d_split d)
                          /\ (payer_user_id (BillSplitRepository.d_split d) = userId
                              \/ debtor_user_id (BillSplitRepository.d_split d)
                                 = userId))).
Proof.
  unfold BillSplitController.getSplitDetails,
    BillSplitService.getSplitDetails, BillSplitRepository.findDetailedById.
  assert (Hno : forall status msg,
            s = s /\ exists st reply,
              Ok (status, mkReply false msg None)
              = Ok (st, reply : Reply BillSplitRepository.SplitDetails)
              /\ (forall d, reply_data reply = Some d ->
                    st = 200%nat
                    /\ exists userId id,
                         session_userId = Some userId
                         /\ parseInt splitId = Some (Z.of_nat id)
                         /\ Database.find_split s id
                            = Some (BillSplitRepository.d_split d)
                         /\ (payer_user_id (BillSplitRepository.d_split d) = userId
                             \/ debtor_user_id (BillSplitRepository.d_split d)
                                = userId))).
  { intros status msg. split; [reflexivity|]. eexists _, _.
    split; [reflexivity|]. intros d [=]. }
  apply spec_try_catch.
  destruct session_userId as [userId|]; [|apply spec_ret, Hno].
  destruct (negb (str_truthy userId)); [apply spec_ret, Hno|].
  destruct (negb (str_truthy splitId)); [apply spec_ret, Hno|].
  apply spec_bind, spec_try_catch, spec_bind, spec_get.
  - destruct (parseInt splitId) as [z|] eqn:Hparse;
      [destruct (z <? 0)%Z eqn:Hz|]; cbv beta iota;
      try (wp; apply Hno).
    apply Z.ltb_ge in Hz.
    destruct (Database.find_split s (Z.to_nat z)) as [row|] eqn:Hrow;
      cbn [fmap option_fmap option_map]; [|wp; apply Hno].
    wp;
      try (exfalso;
           match goal with
           | H : reply_success _ = false |- _ => cbn in H; discriminate H
           | H : reply_data _ = None |- _ => cbn in H; discriminate H
           end);
      try apply Hno;
      (split; [reflexivity|]); eexists _, _; (split; [reflexivity|]);
      intros d Hd; cbn in Hd; injection Hd as <-; (split; [reflexivity|]);
      exists userId, (Z.to_nat z); rewrite Z2Nat.id by assumption;
      cbn [BillSplitRepository.d_split BillSplitRepository.with_details];
      (split; [reflexivity|]); (split; [reflexivity|]); (split; [assumption|]);
      match goal with H : reply_data _ = Some _ |- _ =>
        cbn in H; injection H as <- end;
      match goal with H : _ && _ = false |- _ =>
        apply andb_false_iff in H as [H|H];
        rewrite negb_false_iff in H; apply String.eqb_eq in H; auto end.
  - wp; apply Hno.
Qed.

End SplitDetails.

(** ** The campaigns shown and the rules applied; the summary of the splits *)

Lemma rule_matches_in_window category date r :
  CashbackService.rule_matches category date r = true ->
  CashbackService.in_window date r = true.
Proof.
  unfold CashbackService.rule_matches, CashbackService.in_window.
  rewrite !andb_true_iff. intros [[[-> _] ->] ->]. auto.
Qed.

Lemma applicable_rules_match u category tx w rules :
  fst (CashbackService.getApplicableCashbackRules u category tx w) = Ok rules ->
  forall kr, In kr rules ->
    In kr (map_to_list (cashback_rules (db w)))
    /\ CashbackService.rule_matches category
         (String.substring 0 10 (now w)) (snd kr) = true.
Proof.
  unfold CashbackService.getApplicableCashbackRules.
  unfold try_catch at 1. unfold mbind, M_bind, bind at 1. simpl.
  unfold bind at 1.
  destruct (Database.get _ w) as [o1 w1] eqn:Hget.
  apply get_inv in Hget as [Hdb [-> | ->]].
  - pose proof (filter_first_time_spec u
                  (CashbackService.select_rules category
                     (String.substring 0 10 (now w)) (db w))
                  (db w) w1 Hdb) as [_ Hsub].
    destruct (CashbackService.filter_first_time u _ w1) as [[out|e] w2];
      simpl in *.
    + intros [= <-] kr Hin.
      destruct (Hsub out eq_refl) as [Hsub' _].
      apply (sublist_In _ _ _ Hsub'), filter_In in Hin. exact Hin.
    + unfold mret, M_ret, ret. simpl. intros [= <-] kr [].
  - unfold mret, M_ret, ret. simpl. intros [= <-] kr [].
Qed.

Section Campaigns.

Variable by_rule_type_category :
  list (string * RuleRow) -> list (string * RuleRow).
Variable getCampaignDescription : RuleRow -> string.

(** Every rule that is applied to a payment is on the list of campaigns
    shown on the same day over the same table, whatever the category of
    the merchant and whoever pays, when the ordering of the list keeps
    the rows it is given. *)
Theorem applied_rules_are_shown_campaigns u category tx w w' rules reply shown :
  (forall l kr, In kr l -> In kr (by_rule_type_category l)) ->
  db w' = db w ->
  String.substring 0 10 (now w') = String.substring 0 10 (now w) ->
  fst (CashbackService.getApplicableCashbackRules u category tx w) = Ok rules ->
  fst (CashbackService.getActiveCampaigns by_rule_type_category
         getCampaignDescription w') = Ok reply ->
  reply_data reply = Some shown ->
  forall rule_id rule,
    In (rule_id, rule) rules ->
    In (CashbackService.mkCampaign rule_id rule (getCampaignDescription rule))
       shown.
Proof.
  intros Hkeep Hdb Hday Hrules Hshown Hdata rule_id rule Hin.
  destruct (applicable_rules_match _ _ _ _ _ Hrules _ Hin) as [Hrow Hmatch].
  apply rule_matches_in_window in Hmatch. simpl in Hmatch.
  revert Hshown. unfold CashbackService.getActiveCampaigns.
  unfold try_catch at 1. unfold mbind, M_bind, bind at 1. simpl.
  unfold bind at 1.
  destruct (Database.get _ w') as [o1 w1] eqn:Hget.
  apply get_inv in Hget as [_ [-> | ->]];
    unfold mret, M_ret, ret; simpl; intros [= <-];
    simpl in Hdata; [|discriminate].
  injection Hdata as <-.
  apply (in_map (fun kr => CashbackService.mkCampaign (fst kr) (snd kr)
                             (getCampaignDescription (snd kr)))
           _ (rule_id, rule)).
  apply Hkeep, filter_In. rewrite Hdb, Hday. split; assumption.
Qed.

End Campaigns.

Lemma applied_rules_are_shown_campaigns_witness :
  In (CashbackService.mkCampaign "CB1"
        (mkRule percent (Some "cafe") (5 # 100) 0 (Some 20) false
                (Some "2025-10-01") (Some "2025-12-31") true)
        "campaign")
     (map (fun kr => CashbackService.mkCampaign (fst kr) (snd kr) "campaign")
          (rev (List.filter
                  (fun kr => CashbackService.in_window "2025-10-15" (snd kr))
                  (map_to_list (cashback_rules seed))))).
Proof.
  refine (applied_rules_are_shown_campaigns (@rev _) (fun _ => "campaign")
            "U1" "cafe" "TX_PAY_004" world0 world0
            _ (mkReply true MsgNoMessage (Some _)) _
            _ eq_refl eq_refl _ _ eq_refl "CB1" _ _).
  - intros l kr Hin. apply in_rev. rewrite rev_involutive. exact Hin.
  - vm_compute. reflexivity.
  - vm_compute. reflexivity.
  - vm_compute. tauto.
Defined.

Lemma status_matches_pending r :
  BillSplitRepository.status_matches (Some "pending") r
  = SplitStatus_eqb (sp_status r) pending.
Proof. destruct r as [? ? ? ? ? ? ? []]; reflexivity. Qed.

Lemma spec_mapM_lift {A B} (f : A -> outcome B) l s :
  spec (mapM (fun x => lift (f x)) l) s
       (fun o s' => s' = s /\ forall bs, o = Ok bs -> length bs = length l).
Proof.
  intros w Hw.
  destruct (mapM (fun x => lift (f x)) l w) as [o w'] eqn:E. simpl.
  apply mapM_lift_inv in E as [-> Hbs]. split; [exact Hw|].
  intros bs Ho. symmetry. eapply Forall2_length, Hbs, Ho.
Qed.

(** * Amounts as binary64 computes them *)

(** ** The rounding of binary64 *)


Lemma nearest_even_spec n d :
  (0 < d)%Z -> (2 * Z.abs (nearest_even n d * d - n) <= d)%Z.
Proof.
  intros Hd. unfold nearest_even.
  pose proof (Z.div_mod n d ltac:(lia)) as E.
  pose proof (Z.mod_pos_bound n d Hd) as B.
  destruct (2 * (n mod d) ?= d)%Z eqn:C.
  - apply Z.compare_eq in C. destruct (Z.even (n / d)); nia.
  - rewrite Z.compare_lt_iff in C. nia.
  - rewrite Z.compare_gt_iff in C. nia.
Qed.

Lemma nearest_even_nonneg n d : (0 < d)%Z -> (0 <= n)%Z -> (0 <= nearest_even n d)%Z.
Proof.
  intros Hd Hn. unfold nearest_even.
  pose proof (Z.div_pos n d Hn Hd).
  destruct (2 * (n mod d) ?= d)%Z; [destruct (Z.even _)| |]; lia.
Qed.

Lemma pow2_pos e : (0 < 2 ^ e)%Z \/ (e < 0)%Z.
Proof. destruct (Z.lt_ge_cases e 0); [right; lia | left; apply Z.pow_pos_nonneg; lia]. Qed.

Lemma log2_floor_spec n d :
  let L := log2_floor n d in
  if (0 <=? L)%Z
  then (Zpos d * 2 ^ L <= Zpos n < Zpos d * 2 ^ (L + 1))%Z
  else (Zpos d <= Zpos n * 2 ^ (- L) /\ Zpos n * 2 ^ (- L) < 2 * Zpos d)%Z.
Proof.
  cbv zeta. unfold log2_floor.
  pose proof (Z.log2_spec (Zpos n) ltac:(lia)) as [Hn1 Hn2].
  pose proof (Z.log2_spec (Zpos d) ltac:(lia)) as [Hd1 Hd2].
  pose proof (Z.log2_nonneg (Zpos n)) as Ln.
  pose proof (Z.log2_nonneg (Zpos d)) as Ld.
  set (a := Z.log2 (Zpos n)) in *. set (b := Z.log2 (Zpos d)) in *.
  rewrite Z.pow_succ_r in Hn2, Hd2 by assumption.
  destruct (0 <=? a - b)%Z eqn:Heb.
  - pose proof (proj1 (Z.leb_le _ _) Heb) as He.
    assert (Ea : (2 ^ a = 2 ^ (a - b) * 2 ^ b)%Z).
    { rewrite <- Z.pow_add_r by lia. f_equal. lia. }
    assert (P1 : (0 < 2 ^ (a - b))%Z) by (apply Z.pow_pos_nonneg; lia).
    assert (P2 : (0 < 2 ^ b)%Z) by (apply Z.pow_pos_nonneg; lia).
    destruct (Zpos n <? Zpos d * 2 ^ (a - b))%Z eqn:C.
    + apply Z.ltb_lt in C.
      destruct (0 <=? a - b - 1)%Z eqn:He'.
      * apply Z.leb_le in He'.
        replace (a - b - 1 + 1)%Z with (a - b)%Z by lia.
        split; [|exact C].
        assert (E2 : (2 ^ (a - b) = 2 * 2 ^ (a - b - 1))%Z).
        { rewrite <- Z.pow_succ_r by lia. f_equal. lia. }
        assert (P3 : (0 < 2 ^ (a - b - 1))%Z) by (apply Z.pow_pos_nonneg; lia).
        nia.
      * apply Z.leb_gt in He'. assert (a - b = 0)%Z as E0 by lia.
        rewrite E0 in *. replace (- (0 - 1))%Z with 1%Z by lia.
        change (2 ^ 0)%Z with 1%Z in *. change (2 ^ 1)%Z with 2%Z. nia.
    + apply Z.ltb_ge in C. rewrite Heb.
      split; [exact C|]. rewrite Z.pow_add_r by lia. change (2 ^ 1)%Z with 2%Z. nia.
  - pose proof (proj1 (Z.leb_gt _ _) Heb) as He.
    assert (Eb : (2 ^ b = 2 ^ (- (a - b)) * 2 ^ a)%Z).
    { rewrite <- Z.pow_add_r by lia. f_equal. lia. }
    assert (P1 : (0 < 2 ^ (- (a - b)))%Z) by (apply Z.pow_pos_nonneg; lia).
    assert (P2 : (0 < 2 ^ a)%Z) by (apply Z.pow_pos_nonneg; lia).
    destruct (Zpos n * 2 ^ (- (a - b)) <? Zpos d)%Z eqn:C.
    + apply Z.ltb_lt in C.
      assert (He' : (0 <=? a - b - 1)%Z = false) by (apply Z.leb_gt; lia).
      rewrite He'.
      replace (- (a - b - 1))%Z with (Z.succ (- (a - b)))%Z by lia.
      rewrite Z.pow_succ_r by lia. nia.
    + apply Z.ltb_ge in C. rewrite Heb. nia.
Qed.

Lemma pow2_Q_nonneg e : (0 <= e)%Z -> 2 ^ e == inject_Z (2 ^ e).
Proof. intros He. rewrite Zpower_Qpower by assumption. reflexivity. Qed.

Lemma pow2_Q_neg e : (e < 0)%Z -> 2 ^ e == 1 # Z.to_pos (2 ^ (- e)).
Proof.
  intros He.
  replace e with (- - e)%Z at 1 by lia.
  rewrite Qpower_opp, pow2_Q_nonneg by lia.
  assert (P : (0 < 2 ^ (- e))%Z) by (apply Z.pow_pos_nonneg; lia).
  destruct (2 ^ (- e))%Z as [|p|p] eqn:E; try lia.
  reflexivity.
Qed.

Lemma pow2_Q_pos e : 0 < 2 ^ e.
Proof. apply Qpower_0_lt. reflexivity. Qed.

Lemma scaled_eq m e : scaled m e == inject_Z m * 2 ^ e.
Proof.
  unfold scaled. destruct (0 <=? e)%Z eqn:He.
  - apply Z.leb_le in He. rewrite pow2_Q_nonneg, inject_Z_mult by assumption.
    reflexivity.
  - apply Z.leb_gt in He. rewrite pow2_Q_neg by assumption.
    unfold Qeq, Qmult, inject_Z. simpl. lia.
Qed.

Lemma fl64_pos_error n d :
  Qabs (fl64_pos n d - (Zpos n # d)) <= (1 # 2) * 2 ^ last_place n d.
Proof.
  unfold fl64_pos. rewrite Qred_correct.
  set (e := last_place n d).
  apply Qabs_Qle_condition.
  unfold scaled. destruct (0 <=? e)%Z eqn:He.
  - apply Z.leb_le in He. rewrite pow2_Q_nonneg by assumption.
    assert (P : (0 < 2 ^ e)%Z) by (apply Z.pow_pos_nonneg; lia).
    pose proof (nearest_even_spec (Zpos n) (Zpos d * 2 ^ e) ltac:(nia)) as S.
    set (m := nearest_even _ _) in *. clearbody m.
    destruct (2 ^ e)%Z as [|p|p] eqn:E; try lia.
    unfold Qle, Qminus, Qplus, Qopp, Qmult, inject_Z. simpl.
    rewrite ?Pos.mul_1_r, ?Pos2Z.inj_mul.
    change (Z.neg n) with (- Z.pos n)%Z. nia.
  - apply Z.leb_gt in He. rewrite pow2_Q_neg by assumption.
    assert (P : (0 < 2 ^ (- e))%Z) by (apply Z.pow_pos_nonneg; lia).
    pose proof (nearest_even_spec (Zpos n * 2 ^ (- e)) (Zpos d) ltac:(lia)) as S.
    set (m := nearest_even _ _) in *. clearbody m.
    destruct (2 ^ (- e))%Z as [|p|p] eqn:E; try lia.
    unfold Qle, Qminus, Qplus, Qopp, Qmult, inject_Z. simpl.
    rewrite ?Pos.mul_1_r, ?Pos2Z.inj_mul.
    change (Z.neg n) with (- Z.pos n)%Z. nia.
Qed.

Lemma log2_floor_le n d : 2 ^ log2_floor n d <= Zpos n # d.
Proof.
  pose proof (log2_floor_spec n d) as S. cbv zeta in S.
  set (L := log2_floor n d) in *.
  destruct (0 <=? L)%Z eqn:HL.
  - apply Z.leb_le in HL. rewrite pow2_Q_nonneg by assumption.
    destruct S as [S _].
    unfold Qle, inject_Z. simpl. lia.
  - apply Z.leb_gt in HL. rewrite pow2_Q_neg by assumption.
    destruct S as [S _].
    assert (P : (0 < 2 ^ (- L))%Z) by (apply Z.pow_pos_nonneg; lia).
    destruct (2 ^ (- L))%Z as [|p|p] eqn:E; try lia.
    unfold Qle. simpl. lia.
Qed.

Lemma log2_floor_lt n d : Zpos n # d < 2 ^ (log2_floor n d + 1).
Proof.
  pose proof (log2_floor_spec n d) as S. cbv zeta in S.
  set (L := log2_floor n d) in *.
  destruct (0 <=? L)%Z eqn:HL.
  - apply Z.leb_le in HL. rewrite pow2_Q_nonneg by lia.
    destruct S as [_ S].
    unfold Qlt, inject_Z. simpl. lia.
  - apply Z.leb_gt in HL. destruct S as [_ S].
    assert (P : (0 < 2 ^ (- L))%Z) by (apply Z.pow_pos_nonneg; lia).
    destruct (Z.eq_dec L (-1)%Z) as [->|HL1].
    + change (2 ^ (-1 + 1)) with 1. change (2 ^ (- -1))%Z with 2%Z in S.
      unfold Qlt. simpl. lia.
    + rewrite pow2_Q_neg by lia.
      assert (E2 : (2 ^ (- L) = 2 * 2 ^ (- (L + 1)))%Z).
      { rewrite <- Z.pow_succ_r by lia. f_equal. lia. }
      assert (P' : (0 < 2 ^ (- (L + 1)))%Z) by (apply Z.pow_pos_nonneg; lia).
      destruct (2 ^ (- (L + 1)))%Z as [|p|p] eqn:E; try lia.
      unfold Qlt. simpl. nia.
Qed.

Lemma last_place_bound n d :
  (1 # 2) * 2 ^ last_place n d <= (Zpos n # d) * u64 + eta64.
Proof.
  unfold last_place.
  pose proof (log2_floor_le n d) as HL.
  set (L := log2_floor n d) in *.
  assert (Hx : 0 < Zpos n # d) by reflexivity.
  destruct (Z.max_spec (L - 52) (-1074)) as [[Hlt ->]|[Hge ->]].
  - assert (E : (1 # 2) * 2 ^ (-1074) == eta64) by reflexivity.
    rewrite E. unfold u64.
    assert (0 <= (Zpos n # d) * (1 # 2 ^ 53)).
    { apply Qmult_le_0_compat; [apply Qlt_le_weak, Hx | discriminate]. }
    lra.
  - assert (E : (1 # 2) * 2 ^ (L - 52) == 2 ^ L * u64).
    { unfold Z.sub. rewrite Qpower_plus by discriminate.
      assert (E52 : 2 ^ (-52) == 2 * u64) by (vm_compute; reflexivity).
      rewrite E52. ring. }
    rewrite E.
    assert (2 ^ L * u64 <= (Zpos n # d) * u64).
    { apply Qmult_le_compat_r; [exact HL | discriminate]. }
    assert (0 <= eta64) by discriminate. lra.
Qed.

Lemma fl64_pos_nonneg n d : 0 <= fl64_pos n d.
Proof.
  unfold fl64_pos. rewrite Qred_correct, scaled_eq.
  apply Qmult_le_0_compat; [|apply Qlt_le_weak, pow2_Q_pos].
  change 0 with (inject_Z 0). rewrite <- Zle_Qle.
  destruct (0 <=? last_place n d)%Z eqn:He.
  - apply Z.leb_le in He. apply nearest_even_nonneg; [|lia].
    assert (0 < 2 ^ last_place n d)%Z by (apply Z.pow_pos_nonneg; lia). nia.
  - apply Z.leb_gt in He. apply nearest_even_nonneg; [lia|].
    assert (0 < 2 ^ (- last_place n d))%Z by (apply Z.pow_pos_nonneg; lia). nia.
Qed.

Lemma Q_of_parts x : x == Qnum x # Qden x.
Proof. destruct x; reflexivity. Qed.

(** The rounding error of binary64: half a unit in the last place. *)
Lemma fl64_error x : Qabs (fl64 x - x) <= Qabs x * u64 + eta64.
Proof.
  unfold fl64. destruct x as [[|n|n] d]; cbn [Qnum Qden].
  - vm_compute. discriminate.
  - pose proof (fl64_pos_error n d) as H. pose proof (last_place_bound n d) as B.
    assert (E : Qabs (Zpos n # d) == Zpos n # d) by reflexivity.
    rewrite E. lra.
  - pose proof (fl64_pos_error n d) as H. pose proof (last_place_bound n d) as B.
    assert (E : Qabs (Zneg n # d) == Zpos n # d) by reflexivity.
    rewrite E.
    assert (E2 : - fl64_pos n d - (Zneg n # d) == - (fl64_pos n d - (Zpos n # d))).
    { change (Zneg n # d) with (- (Zpos n # d)). ring. }
    rewrite E2, Qabs_opp. lra.
Qed.

Lemma fl64_nonneg x : 0 <= x -> 0 <= fl64 x.
Proof.
  unfold fl64. destruct x as [[|n|n] d]; cbn [Qnum Qden]; intros H.
  - discriminate.
  - apply fl64_pos_nonneg.
  - exfalso. revert H. unfold Qle. simpl. lia.
Qed.

Lemma fl64_nonpos x : x <= 0 -> fl64 x <= 0.
Proof.
  unfold fl64. destruct x as [[|n|n] d]; cbn [Qnum Qden]; intros H.
  - discriminate.
  - exfalso. revert H. unfold Qle. simpl. lia.
  - pose proof (fl64_pos_nonneg n d). lra.
Qed.

Lemma fl64_0 : fl64 0 = 0.
Proof. reflexivity. Qed.

(** [Math.round(y)] is within a half of [y]. *)
Lemma Math_round_bounds y :
  inject_Z (Math_round y) - (1 # 2) <= y /\ y < inject_Z (Math_round y) + (1 # 2).
Proof.
  unfold Math_round.
  pose proof (Qfloor_le (y + (1 # 2))) as H1.
  pose proof (Qlt_floor (y + (1 # 2))) as H2.
  rewrite inject_Z_plus in H2. change (inject_Z 1) with 1 in H2.
  split; lra.
Qed.

(** The rounding to the cent of the source is within half a cent of its
    argument, up to the rounding errors of the product by 100 and of the
    quotient by 100. *)
Lemma round2_64_error y :
  Qabs (round2_64 y - y)
  <= (1 # 200) + Qabs y * (3 * u64) + 2 * eta64 + u64.
Proof.
  unfold round2_64, div64, mul64.
  set (z := fl64 (y * 100)).
  set (k := inject_Z (Math_round z)).
  pose proof (fl64_error (y * 100)) as Hz. fold z in Hz.
  pose proof (Math_round_bounds z) as [Hk1 Hk2]. fold k in Hk1, Hk2.
  pose proof (fl64_error (k / 100)) as Hr.
  set (r := fl64 (k / 100)) in *.
  assert (Ey : Qabs (y * 100) == Qabs y * 100).
  { rewrite Qabs_Qmult. reflexivity. }
  assert (Ek : Qabs (k / 100) == Qabs k * (1 # 100)).
  { unfold Qdiv. rewrite Qabs_Qmult. reflexivity. }
  rewrite Ey in Hz. rewrite Ek in Hr.
  assert (Ekd : k / 100 == k * (1 # 100)) by (unfold Qdiv; reflexivity).
  rewrite Ekd in Hr.
  assert (Hu : 0 < u64) by reflexivity.
  assert (Hu1 : u64 <= 1 # 1000) by (vm_compute; discriminate).
  assert (He : 0 <= eta64) by discriminate.
  assert (He1 : eta64 <= 1 # 1000) by (vm_compute; discriminate).
  pose proof (Qabs_nonneg y) as Hy0.
  apply Qabs_Qle_condition in Hz. apply Qabs_Qle_condition in Hr.
  assert (Hkabs : Qabs k <= Qabs y * 100 * (1 + u64) + eta64 + (1 # 2)).
  { apply Qabs_Qle_condition.
    pose proof (Qle_Qabs y). pose proof (Qle_Qabs (- y)) as Hn.
    rewrite Qabs_opp in Hn. split; nra. }
  pose proof (Qabs_nonneg k) as Hk0.
  apply Qabs_Qle_condition.
  pose proof (Qle_Qabs y). pose proof (Qle_Qabs (- y)) as Hn.
  rewrite Qabs_opp in Hn.
  split; nra.
Qed.


(** ** C1: a transfer in binary64 does not conserve the sum *)

(** C1.  A transfer of 0.01 from a balance of 83.97 to a balance of
    256.03 succeeds; it stores 83.96 and 256.03999999999996.  The two
    balances added up 340 before; after, they add up to less, as exact
    numbers and as binary64 adds them (339.99999999999994); and the
    receiver has gained less than the amount. *)
Theorem transfer_loses_a_fraction :
  let bF := dec (8397 # 100) in
  let bT := dec (25603 # 100) in
  let a := dec (1 # 100) in
  let w := mkWorld (seed_with_balances bF bT) []
             ["aaaaaaaa-1"; "bbbbbbbb-2"] "2025-10-15T12:00:00.000Z" in
  exists r w' bF' bT',
    PaymentService.transferMoney64 "U1" "U2" (JNum a) w = (Ok r, w')
    /\ success r = true
    /\ balance_of (db w') "U1" = Some bF'
    /\ balance_of (db w') "U2" = Some bT'
    /\ bF' = dec (8396 # 100)
    /\ bT' = dec (25603999999999996 # 100000000000000)
    /\ bF' + bT' < bF + bT
    /\ add64 bF bT = 340
    /\ add64 bF' bT' = dec (33999999999999994 # 100000000000000)
    /\ bT' - bT < a.
Proof.
  cbv zeta. eexists _, _, _, _.
  split; [vm_compute; reflexivity|].
  split; [reflexivity|].
  split; [vm_compute; reflexivity|].
  split; [vm_compute; reflexivity|].
  split; [vm_compute; reflexivity|].
  split; [vm_compute; reflexivity|].
  split; [vm_compute; reflexivity|].
  split; [vm_compute; reflexivity|].
  split; vm_compute; reflexivity.
Qed.


(** ** C8: the amount of a cashback *)

Lemma cashback_base64_error rule amount :
  Qabs (cashback_base64 rule amount - cashback_base rule amount)
  <= Qabs (amount * rate rule) * u64 + eta64.
Proof.
  assert (Hu : 0 <= Qabs (amount * rate rule) * u64 + eta64).
  { pose proof (Qabs_nonneg (amount * rate rule)).
    assert (0 < u64) by reflexivity. assert (0 <= eta64) by discriminate. nra. }
  pose proof (fl64_error (amount * rate rule)) as He.
  unfold cashback_base64, cashback_base, mul64.
  set (p := amount * rate rule) in *. set (p64 := fl64 p) in *.
  assert (H0 : Qabs (flat_amount rule - flat_amount rule)
               <= Qabs p * u64 + eta64).
  { assert (E : flat_amount rule - flat_amount rule == 0) by ring.
    rewrite E. exact Hu. }
  destruct (rule_type rule); [|exact H0].
  destruct (cap rule) as [c|]; [|exact He].
  destruct (Qeq_bool c 0); [exact He|].
  apply Qabs_Qle_condition in He. apply Qabs_Qle_condition.
  destruct (Q.min_spec p c) as [[Hlt ->]|[Hle ->]];
    destruct (Qltb c p64) eqn:E;
    [apply Qltb_lt in E | apply Qltb_false in E
    |apply Qltb_lt in E | apply Qltb_false in E]; split; lra.
Qed.

(** C8, as the code has it.  The amount of a cashback is
    [Math.round(v * 100) / 100] evaluated in binary64, where [v] is, for a
    percent rule, the binary64 product amount x rate, limited to the cap
    when the cap is set and is not 0 (a cap of 0, like a NULL cap, does
    not limit), and for a flat rule flat_amount whatever the payment.  It
    is the binary64 number of a whole number of cents, the nearest to the
    binary64 product [v * 100], a half going up; and it is within half a
    cent of the exact value, up to the rounding error of binary64 (below
    0.000001 for values up to 10^9). *)
Theorem cashback_amount_binary64 rule amount :
  let result := CashbackService.calculateCashbackAmount64 rule amount in
  let v := cashback_base64 rule amount in
  result = round2_64 v
  /\ (exists cents : Z,
        result = div64 (inject_Z cents) 100
        /\ inject_Z cents - (1 # 2) <= mul64 v 100
        /\ mul64 v 100 < inject_Z cents + (1 # 2))
  /\ (rule_type rule = flat ->
      forall amount', CashbackService.calculateCashbackAmount64 rule amount'
                      = result)
  /\ (Qabs (amount * rate rule) <= 1000000000 ->
      Qabs (cashback_base rule amount) <= 1000000000 ->
      Qabs (result - cashback_base rule amount) <= (1 # 200) + (1 # 1000000)).
Proof.
  cbv zeta.
  assert (E : CashbackService.calculateCashbackAmount64 rule amount
              = round2_64 (cashback_base64 rule amount)).
  { unfold CashbackService.calculateCashbackAmount64, cashback_base64.
    destruct (rule_type rule); [|reflexivity].
    destruct (cap rule) as [c|]; [|reflexivity].
    unfold CashbackService.cap_applies. cbn [default].
    destruct (Qeq_bool c 0); cbn [negb andb]; reflexivity. }
  split; [exact E|]. split; [|split].
  - rewrite E. unfold round2_64.
    exists (Math_round (mul64 (cashback_base64 rule amount) 100)).
    split; [reflexivity|]. apply Math_round_bounds.
  - intros Hflat amount'.
    unfold CashbackService.calculateCashbackAmount64. rewrite Hflat. reflexivity.
  - intros Hp Hx. rewrite E.
    pose proof (round2_64_error (cashback_base64 rule amount)) as Hr.
    pose proof (cashback_base64_error rule amount) as Hb.
    set (v := cashback_base64 rule amount) in *.
    set (x := cashback_base rule amount) in *.
    set (p := amount * rate rule) in *.
    assert (Hu : 0 < u64) by reflexivity.
    assert (Hu1 : u64 <= 1 # 9000000000000000) by (vm_compute; discriminate).
    assert (He : 0 <= eta64) by discriminate.
    assert (He1 : eta64 <= 1 # 9000000000000000) by (vm_compute; discriminate).
    pose proof (Qabs_nonneg p) as Hp0. pose proof (Qabs_nonneg x) as Hx0.
    assert (Hv : Qabs v <= Qabs x + (Qabs p * u64 + eta64)).
    { assert (Ev : v == x + (v - x)) by ring.
      rewrite Ev at 1. eapply Qle_trans; [apply Qabs_triangle|]. lra. }
    pose proof (Qabs_nonneg v) as Hv0.
    assert (Et : round2_64 v - x == (round2_64 v - v) + (v - x)) by ring.
    rewrite Et. eapply Qle_trans; [apply Qabs_triangle|]. nra.
Qed.

(** The claim as the specification words it fails twice.  For a percent
    rule whose cap is 0, 5 percent of 100 is paid out in full, not limited
    to 0.  And rule CB1 (5 percent) on a payment of 2.90 gives 0.14, where
    the half cent of 0.145 going up gives 0.15: the binary64 product
    2.9 x 0.05 x 100 is 14.499999999999998. *)
Lemma cashback_cap_zero_and_half_cent :
  let cap0 := mkRule percent (Some "cafe") (dec (5 # 100)) 0 (Some 0)
                     false None None true in
  let cb1 := mkRule percent (Some "cafe") (dec (5 # 100)) 0 (Some 20)
                    false (Some "2025-10-01") (Some "2025-12-31") true in
  (CashbackService.calculateCashbackAmount64 cap0 100 = 5
   /\ round2 (cashback_base_as_specified cap0 100) == 0)
  /\ (CashbackService.calculateCashbackAmount64 cb1 (dec (29 # 10))
      = dec (14 # 100)
      /\ mul64 (mul64 (dec (29 # 10)) (dec (5 # 100))) 100
         = dec (14499999999999998 # 1000000000000000)
      /\ round2 (cashback_base_as_specified cb1 (dec (29 # 10))) == 15 # 100
      /\ round2 ((29 # 10) * (5 # 100)) == 15 # 100).
Proof.
  cbv zeta. repeat split; vm_compute; reflexivity.
Qed.


(** ** C5: the rows of an equal split *)

Lemma quotient_le A N : 0 <= A -> 1 <= N -> Qabs (A / N) <= A.
Proof.
  intros HA HN.
  assert (E : A / N * N == A) by (field; lra).
  assert (Hq : 0 <= A / N).
  { apply Qle_shift_div_l; lra. }
  rewrite Qabs_pos by assumption. nra.
Qed.

(** The share of an equal split is within half a cent of the exact
    quotient, up to the rounding error of binary64. *)
Lemma equal_share_error A N :
  0 <= A -> A <= 1000000000 -> 1 <= N ->
  Qabs (round2_64 (div64 A N) - A / N) <= (1 # 200) + (1 # 1000000).
Proof.
  intros HA HB HN. unfold div64.
  pose proof (quotient_le A N HA HN) as Hq.
  pose proof (fl64_error (A / N)) as He.
  pose proof (round2_64_error (fl64 (A / N))) as Hr.
  set (x := A / N) in *. set (q := fl64 x) in *.
  assert (Hu : 0 < u64) by reflexivity.
  assert (Hu1 : u64 <= 1 # 9000000000000000) by (vm_compute; discriminate).
  assert (He0 : 0 <= eta64) by discriminate.
  assert (He1 : eta64 <= 1 # 9000000000000000) by (vm_compute; discriminate).
  pose proof (Qabs_nonneg x) as Hx0.
  assert (Hv : Qabs q <= Qabs x + (Qabs x * u64 + eta64)).
  { assert (Ev : q == x + (q - x)) by ring.
    rewrite Ev at 1. eapply Qle_trans; [apply Qabs_triangle|]. lra. }
  pose proof (Qabs_nonneg q) as Hq0.
  assert (Et : round2_64 q - x == (round2_64 q - q) + (q - x)) by ring.
  rewrite Et. eapply Qle_trans; [apply Qabs_triangle|]. nra.
Qed.

(** C5, as the code has it.  Every successful [createEqualSplit(payer,
    originalTxId, debtorIds)] was given an array; with D its entries other
    than the payer, D is not empty, the original transaction exists and
    belongs to the payer, and every entry of D is a user.  The call
    appends to bill_splits one row per entry of D, in order, and nothing
    else: each with weight 1, status pending and the share
    [Math.round((A / (|D| + 1)) * 100) / 100] of the original amount A
    as binary64 computes it, which is strictly positive and, for an
    amount up to 10^9, within half a cent of A / (|D| + 1) up to a
    rounding error below 0.000001. *)
Theorem equal_split_rows_binary64 payer txId debtorUserIds w r w' :
  BillSplitService.createEqualSplit64 payer txId debtorUserIds w = (Ok r, w') ->
  success r = true ->
  exists ids tx,
    debtorUserIds = AnArray ids /\
    let D := List.filter (fun id => negb (String.eqb id payer)) ids in
    let n := inject_Z (Z.of_nat (length D + 1)) in
    let share := round2_64 (div64 (tx_amount tx) n) in
    D <> []
    /\ Database.find_tx (db w) txId = Some tx
    /\ tx_user_id tx = payer
    /\ Forall (fun d => is_Some (users (db w) !! d)) D
    /\ 0 < share
    /\ (tx_amount tx <= 1000000000 ->
        Qabs (share - tx_amount tx / n) <= (1 # 200) + (1 # 1000000))
    /\ bill_splits (db w') =
         (bill_splits (db w) ++
          imap (fun i d => mkSplit (next_split_id (db w) + i) txId payer d
                                   (tx_amount tx) share 1 pending) D)%list.
Proof.
  unfold BillSplitService.createEqualSplit64. unfold_monad.
  intros Hrun Hok.
  destruct debtorUserIds as [|ids]; [injection Hrun as <- <-; discriminate|].
  destruct (negb (str_truthy payer) || negb (str_truthy txId)
            || (length ids =? 0)%nat);
    [injection Hrun as <- <-; discriminate|].
  set (D := List.filter (fun id => negb (String.eqb id payer)) ids) in *.
  destruct (length D =? 0)%nat eqn:HD; [injection Hrun as <- <-; discriminate|].
  apply Nat.eqb_neq in HD.
  destruct (TransactionRepository.findById txId w) as [[tx|e] w1] eqn:HF;
    [|injection Hrun as <- <-; discriminate].
  apply findById_tx_inv in HF as [Hdb1 HF].
  destruct tx as [tx|]; [|injection Hrun as <- <-; discriminate].
  destruct HF as [Hfind HA].
  destruct (negb (String.eqb (tx_user_id tx) payer)) eqn:Hown;
    [injection Hrun as <- <-; discriminate|].
  rewrite negb_false_iff in Hown. apply String.eqb_eq in Hown.
  destruct (mapM (M:=M) UserRepository.exists_ D w1) as [[bs|e] w2] eqn:HE;
    [|injection Hrun as <- <-; discriminate].
  apply (mapM_exists_inv (fun x => x)) in HE as [Hdb2 HE].
  destruct (existsb negb bs) eqn:Hall; [injection Hrun as <- <-; discriminate|].
  specialize (HE bs eq_refl Hall). rewrite Hdb1 in HE.
  match type of Hrun with
  | context [mapM (M:=M) ?f D w2] =>
      destruct (mapM (M:=M) f D w2) as [[rows|e] w3] eqn:HN
  end; [|injection Hrun as <- <-; discriminate].
  apply mapM_lift_inv in HN as [-> HN]. specialize (HN rows eq_refl).
  destruct (BillSplitRepository.createMultiple rows w2) as [[[]|e] w4] eqn:HC;
    [|injection Hrun as <- <-; discriminate].
  apply transaction_inv in HC as [[_ HC]|[[=] _]].
  injection Hrun as <- <-.
  apply exec_all_inserts in HC as (Hb & _).
  rewrite Hdb2, Hdb1 in Hb.
  replace (S (length D)) with (length D + 1)%nat in * by lia.
  set (n := inject_Z (Z.of_nat (length D + 1))) in *.
  set (share := round2_64 (div64 (tx_amount tx) n)) in *.
  assert (Hshare : 0 < share).
  { destruct D as [|d D']; [contradiction HD; reflexivity|].
    inversion HN as [|? b ? ? Hd _]; subst.
    apply BillSplit_new_inv in Hd. tauto. }
  assert (Hrows : rows = map (fun d => mkSplit 0 txId payer d (tx_amount tx)
                                               share 1 pending) D).
  { eapply Forall2_new_rows; [exact HN|].
    intros x b Hx. apply BillSplit_new_inv in Hx. tauto. }
  assert (Hn : 1 <= n).
  { unfold n. change 1 with (inject_Z 1). rewrite <- Zle_Qle. lia. }
  exists ids, tx. split; [reflexivity|]. fold D. cbv zeta. fold n. fold share.
  repeat split; try assumption.
  - intros E. apply HD. rewrite E. reflexivity.
  - intros HB. apply equal_share_error; [lra | exact HB | exact Hn].
  - rewrite Hb, Hrows, imap_map. reflexivity.
Qed.

Lemma equal_split_rows_binary64_witness :
  exists r w',
    BillSplitService.createEqualSplit64 "U1" "TX_PAY_004"
      (AnArray ["U2"; "U3"; "U1"]) world0 = (Ok r, w')
    /\ success r = true
    /\ map share_amount (bill_splits (db w')) = [dec (617 # 100); dec (617 # 100)]
    /\ exists ids tx,
         AnArray ["U2"; "U3"; "U1"] = AnArray ids /\
         let D := List.filter (fun id => negb (String.eqb id "U1")) ids in
         let n := inject_Z (Z.of_nat (length D + 1)) in
         let share := round2_64 (div64 (tx_amount tx) n) in
         D <> []
         /\ Database.find_tx (db world0) "TX_PAY_004" = Some tx
         /\ tx_user_id tx = "U1"
         /\ Forall (fun d => is_Some (users (db world0) !! d)) D
         /\ 0 < share
         /\ (tx_amount tx <= 1000000000 ->
             Qabs (share - tx_amount tx / n) <= (1 # 200) + (1 # 1000000))
         /\ bill_splits (db w') =
              (bill_splits (db world0) ++
               imap (fun i d => mkSplit (next_split_id (db world0) + i)
                                        "TX_PAY_004" "U1" d
                                        (tx_amount tx) share 1 pending) D)%list.
Proof.
  eexists _, _. split; [vm_compute; reflexivity|].
  split; [reflexivity|]. split; [vm_compute; reflexivity|].
  eapply (equal_split_rows_binary64 "U1" "TX_PAY_004"
            (AnArray ["U2"; "U3"; "U1"]) world0);
    [vm_compute; reflexivity | reflexivity].
Defined.

(** The claim as the specification words it fails where the quotient is
    half a cent and binary64 does not hold it: 5.75 among ten (nine
    debtors and the payer) is 0.575, whose share round(0.575, 2) is 0.58;
    the code stores 0.57 in each of the nine rows, the binary64 product
    0.575 x 100 being 57.49999999999999. *)
Lemma equal_split_share_below_half_up :
  let debtors := ["U0"; "U2"; "U3"; "U4"; "U5"; "U6"; "U7"; "U8"; "U9"] in
  let w := mkWorld ten_users [] [] "2025-10-15T12:00:00.000Z" in
  exists r w',
    BillSplitService.createEqualSplit64 "U1" "TX_PAY_100" (AnArray debtors) w
      = (Ok r, w')
    /\ success r = true
    /\ map share_amount (bill_splits (db w')) = repeat (dec (57 # 100)) 9
    /\ (tx_amount <$> Database.find_tx (db w) "TX_PAY_100") = Some (23 # 4)
    /\ round2 ((23 # 4) / inject_Z (Z.of_nat (length debtors + 1))) == 58 # 100
    /\ mul64 (div64 (23 # 4) 10) 100 = dec (5749999999999999 # 100000000000000)
    /\ dec (57 # 100) < (58 # 100) - (1 # 200).
Proof.
  cbv zeta. eexists _, _. split; [vm_compute; reflexivity|].
  repeat split; vm_compute; reflexivity.
Qed.


(** ** C6: the shares of a weighted split *)

(** The binary64 sum of positive numbers against their exact sum: each
    addition adds a relative error of at most [u64] and an absolute error
    of at most [eta64]. *)
Lemma fold_add64_bounds l : forall a ax K,
  0 <= K -> 0 <= ax -> 0 <= a ->
  (K + inject_Z (Z.of_nat (length l))) * u64 <= 1 # 4 ->
  ax * (1 - K * u64) - K * eta64 <= a ->
  a <= ax * (1 + 2 * K * u64) + 2 * K * eta64 ->
  Forall (fun w => 0 < w) l ->
  let K' := K + inject_Z (Z.of_nat (length l)) in
  let ax' := ax + Qsum l in
  let a' := fold_left add64 l a in
  0 <= a'
  /\ ax' * (1 - K' * u64) - K' * eta64 <= a'
  /\ a' <= ax' * (1 + 2 * K' * u64) + 2 * K' * eta64.
Proof.
  assert (Hu : 0 < u64) by reflexivity.
  assert (He : 0 < eta64) by reflexivity.
  induction l as [|w l IH]; intros a ax K HK Hax Ha Hsmall Hlo Hhi Hall; cbv zeta.
  - cbn [length fold_left]. change (inject_Z (Z.of_nat 0)) with 0.
    unfold Qsum. cbn [fold_left].
    split; [exact Ha|]. split.
    + assert (E : (ax + 0) * (1 - (K + 0) * u64) - (K + 0) * eta64
                  == ax * (1 - K * u64) - K * eta64) by ring.
      rewrite E. exact Hlo.
    + assert (E : (ax + 0) * (1 + 2 * (K + 0) * u64) + 2 * (K + 0) * eta64
                  == ax * (1 + 2 * K * u64) + 2 * K * eta64) by ring.
      rewrite E. exact Hhi.
  - inversion Hall as [|? ? Hw Hrest]; subst.
    cbn [length fold_left].
    assert (EL : inject_Z (Z.of_nat (S (length l)))
                 == 1 + inject_Z (Z.of_nat (length l))).
    { rewrite Nat2Z.inj_succ. unfold Z.succ. rewrite inject_Z_plus.
      change (inject_Z 1) with 1. ring. }
    assert (HL : 0 <= inject_Z (Z.of_nat (length l))).
    { change 0 with (inject_Z 0). rewrite <- Zle_Qle. lia. }
    rewrite EL in Hsmall.
    pose proof (fl64_error (a + w)) as Herr. fold (add64 a w) in Herr.
    assert (Hpos : 0 <= a + w) by lra.
    rewrite (Qabs_pos (a + w)) in Herr by exact Hpos.
    apply Qabs_Qle_condition in Herr.
    pose proof (fl64_nonneg (a + w) Hpos) as Hnn. fold (add64 a w) in Hnn.
    set (a1 := add64 a w) in *.
    assert (HK1 : K * u64 <= 1 # 4) by nra.
    specialize (IH a1 (ax + w) (K + 1)).
    cbv zeta in IH.
    assert (G := IH ltac:(lra) ltac:(lra) Hnn).
    clear IH.
    assert (G2 := G ltac:(lra)). clear G.
    assert (Hu1 : u64 <= 1 # 4) by (vm_compute; discriminate).
    assert (P1 : 0 <= K * u64) by nra.
    assert (P2 : 0 <= ax * (K * u64 * u64)).
    { apply Qmult_le_0_compat; [exact Hax|]. nra. }
    assert (P3 : 0 <= w * (K * u64)) by (apply Qmult_le_0_compat; lra).
    assert (P4 : 0 <= K * eta64 * u64).
    { apply Qmult_le_0_compat; [|lra]. apply Qmult_le_0_compat; lra. }
    assert (P5 : 0 <= ax * (K * u64)) by (apply Qmult_le_0_compat; lra).
    assert (P6 : 0 <= ax * u64) by (apply Qmult_le_0_compat; lra).
    assert (P7 : 0 <= w * u64) by (apply Qmult_le_0_compat; lra).
    assert (P8 : 0 <= K * eta64) by (apply Qmult_le_0_compat; lra).
    assert (Hlo1 : (ax + w) * (1 - (K + 1) * u64) - (K + 1) * eta64 <= a1).
    { assert (Q1 : 0 <= (a - (ax * (1 - K * u64) - K * eta64)) * (1 - u64)).
      { apply Qmult_le_0_compat; lra. }
      nra. }
    assert (Hhi1 : a1 <= (ax + w) * (1 + 2 * (K + 1) * u64) + 2 * (K + 1) * eta64).
    { assert (Q1 : 0 <= (ax * (1 + 2 * K * u64) + 2 * K * eta64 - a) * (1 + u64)).
      { apply Qmult_le_0_compat; lra. }
      assert (Q2 : ax * (K * u64 * u64) * 2 <= ax * u64).
      { assert (E : ax * u64 - ax * (K * u64 * u64) * 2
                    == ax * u64 * (1 - 2 * (K * u64))) by ring.
        assert (0 <= ax * u64 * (1 - 2 * (K * u64))).
        { apply Qmult_le_0_compat; lra. }
        lra. }
      assert (Q3 : K * eta64 * u64 * 2 <= eta64).
      { assert (E : eta64 - K * eta64 * u64 * 2
                    == eta64 * (1 - 2 * (K * u64))) by ring.
        assert (0 <= eta64 * (1 - 2 * (K * u64))).
        { apply Qmult_le_0_compat; lra. }
        lra. }
      nra. }
    specialize (G2 Hlo1 Hhi1 Hrest).
    rewrite Qsum_cons, EL.
    set (S := Qsum l) in *. set (L := inject_Z (Z.of_nat (length l))) in *.
    set (a' := fold_left add64 l a1) in *.
    destruct G2 as (G0 & G1 & G3).
    split; [exact G0|]. split; nra.
Qed.

Lemma Qsum_lower (wlo : Q) l :
  l <> [] -> Forall (fun w => wlo <= w) l -> 0 < wlo -> wlo <= Qsum l.
Proof.
  intros Hne Hall Hpos. destruct l as [|w l]; [contradiction|]. clear Hne.
  revert w Hall. induction l as [|w' l IH]; intros w Hall.
  - inversion Hall; subst. unfold Qsum. simpl. lra.
  - inversion Hall as [|? ? Hw Hrest]; subst.
    rewrite Qsum_cons. specialize (IH w' Hrest). lra.
Qed.

Lemma Qsum_member_le l w :
  Forall (fun x => 0 < x) l -> In w l -> w <= Qsum l.
Proof.
  induction l as [|x l IH]; intros Hall Hin; [destruct Hin|].
  inversion Hall as [|? ? Hx Hrest]; subst.
  rewrite Qsum_cons.
  assert (0 <= Qsum l).
  { clear -Hrest. induction l as [|y l IH].
    - unfold Qsum. simpl. lra.
    - inversion Hrest; subst. rewrite Qsum_cons. specialize (IH ltac:(assumption)). lra. }
  destruct Hin as [<-|Hin]; [lra|]. specialize (IH Hrest Hin). lra.
Qed.

(** The binary64 sum of at most 1000 weights of 10^-9 or more is the
    exact sum up to a relative error of 10^-12. *)
Lemma sum64_close l :
  l <> [] -> (length l <= 1000)%nat ->
  Forall (fun w => (1 # 1000000000) <= w) l ->
  let W := Qsum l in
  (1 # 1000000000) <= W
  /\ W * (1 - (1 # 1000000000000)) <= sum64 l
  /\ sum64 l <= W * (1 + (1 # 1000000000000)).
Proof.
  intros Hne Hlen Hall. cbv zeta.
  assert (Hpos : Forall (fun w => 0 < w) l).
  { eapply Forall_impl; [exact Hall|]. intros w Hw. simpl in Hw. lra. }
  pose proof (Qsum_lower _ l Hne Hall ltac:(reflexivity)) as HW.
  assert (HN : inject_Z (Z.of_nat (length l)) <= 1000).
  { change 1000 with (inject_Z 1000). rewrite <- Zle_Qle. lia. }
  assert (HN0 : 0 <= inject_Z (Z.of_nat (length l))).
  { change 0 with (inject_Z 0). rewrite <- Zle_Qle. lia. }
  set (N := inject_Z (Z.of_nat (length l))) in *.
  assert (Hu : 0 < u64) by reflexivity.
  assert (Hu1 : u64 <= 1 # 9000000000000000) by (vm_compute; discriminate).
  assert (He : 0 < eta64) by reflexivity.
  assert (He1 : eta64 <= 1 # 1000000000000000000000000000000) by (vm_compute; discriminate).
  pose proof (fold_add64_bounds l 0 0 0 ltac:(lra) ltac:(lra) ltac:(lra)) as B.
  cbv zeta in B. fold N in B.
  assert (B1 := B ltac:(nra) ltac:(lra) ltac:(lra) Hpos). clear B.
  fold (sum64 l) in B1. destruct B1 as (B0 & B1 & B2).
  set (W := Qsum l) in *. set (S := sum64 l) in *.
  split; [exact HW|].
  assert (P1 : 0 <= W * (N * u64)).
  { apply Qmult_le_0_compat; [lra|]. apply Qmult_le_0_compat; lra. }
  assert (P2 : W * (N * u64) <= W * (1 # 8000000000000)).
  { apply Qmult_le_l; [lra|]. nra. }
  assert (P3 : N * eta64 <= W * (1 # 100000000000000000)).
  { assert (N * eta64 <= 1 # 1000000000000000000000000000) by nra. nra. }
  assert (P4 : 0 <= N * eta64) by (apply Qmult_le_0_compat; lra).
  split; nra.
Qed.

Lemma Qmult_pos_le_0 W z : 0 < W -> W * z <= 0 -> z <= 0.
Proof.
  intros HW H. destruct (Qlt_le_dec 0 z) as [Hz|Hz]; [|exact Hz].
  pose proof (Qmult_lt_0_compat W z HW Hz). lra.
Qed.

Lemma Qmult_le_nonneg_l y a b : 0 <= y -> a <= b -> y * a <= y * b.
Proof.
  intros Hy Hab. rewrite (Qmult_comm y a), (Qmult_comm y b).
  apply Qmult_le_compat_r; assumption.
Qed.

(** A share of a weighted split against the exact proportional part. *)
Lemma weighted_share_error A w W S :
  0 < A -> A <= 1000000000 -> 0 < w -> w <= W -> (1 # 1000000000) <= W ->
  W * (1 - (1 # 1000000000000)) <= S ->
  S <= W * (1 + (1 # 1000000000000)) ->
  Qabs (round2_64 (div64 (mul64 A w) S) - A * w / W) <= 1 # 100.
Proof.
  intros HA HB Hw HwW HW HS1 HS2.
  assert (Hu : 0 < u64) by reflexivity.
  assert (Hu1 : u64 <= 1 # 9000000000000000) by (vm_compute; discriminate).
  assert (He : 0 < eta64) by reflexivity.
  assert (He1 : eta64 <= 1 # 1000000000000000000000000000000)
    by (vm_compute; discriminate).
  assert (HAw : 0 <= A * w) by (apply Qmult_le_0_compat; lra).
  unfold mul64, div64.
  pose proof (fl64_error (A * w)) as Hp.
  rewrite (Qabs_pos (A * w)) in Hp by exact HAw.
  apply Qabs_Qle_condition in Hp.
  pose proof (fl64_nonneg (A * w) HAw) as Hp0.
  set (p := fl64 (A * w)) in *.
  assert (HSpos : 0 < S) by nra.
  set (x := A * w / W).
  assert (Ex : x * W == A * w) by (unfold x; field; lra).
  assert (Hx0 : 0 <= x).
  { unfold x. apply Qle_shift_div_l; lra. }
  assert (HxA : x <= A).
  { assert (G : x - A <= 0); [|lra].
    apply (Qmult_pos_le_0 W); [lra|].
    assert (E : W * (x - A) == A * w - A * W) by (rewrite <- Ex; ring).
    rewrite E.
    pose proof (Qmult_le_nonneg_l A w W ltac:(lra) HwW). lra. }
  set (y := p / S).
  assert (Ey : y * S == p) by (unfold y; field; lra).
  assert (Hy0 : 0 <= y).
  { unfold y. apply Qle_shift_div_l; lra. }
  assert (Heta : eta64 <= W * (1 # 1000000000000000000000)) by nra.
  assert (U1 : y * (1 - (1 # 1000000000000))
               <= x * (1 + u64) + (1 # 1000000000000000000000)).
  { assert (G : y * (1 - (1 # 1000000000000))
                - (x * (1 + u64) + (1 # 1000000000000000000000)) <= 0); [|lra].
    apply (Qmult_pos_le_0 W); [lra|].
    pose proof (Qmult_le_nonneg_l y _ _ Hy0 HS1) as Q1.
    assert (E : W * (y * (1 - (1 # 1000000000000))
                     - (x * (1 + u64) + (1 # 1000000000000000000000)))
                == y * (W * (1 - (1 # 1000000000000)))
                   - (x * W) * (1 + u64) - W * (1 # 1000000000000000000000))
      by ring.
    rewrite E, Ex. lra. }
  assert (L1 : x * (1 - u64) - (1 # 1000000000000000000000)
               <= y * (1 + (1 # 1000000000000))).
  { assert (G : x * (1 - u64) - (1 # 1000000000000000000000)
                - y * (1 + (1 # 1000000000000)) <= 0); [|lra].
    apply (Qmult_pos_le_0 W); [lra|].
    pose proof (Qmult_le_nonneg_l y _ _ Hy0 HS2) as Q1.
    assert (E : W * (x * (1 - u64) - (1 # 1000000000000000000000)
                     - y * (1 + (1 # 1000000000000)))
                == (x * W) * (1 - u64) - W * (1 # 1000000000000000000000)
                   - y * (W * (1 + (1 # 1000000000000))))
      by ring.
    rewrite E, Ex. lra. }
  pose proof (Qmult_le_nonneg_l x _ _ Hx0 Hu1) as Xu.
  pose proof (Qmult_le_0_compat x u64 Hx0 ltac:(lra)) as Xu0.
  pose proof (Qmult_le_nonneg_l y _ _ Hy0 Hu1) as Yu.
  pose proof (Qmult_le_0_compat y u64 Hy0 ltac:(lra)) as Yu0.
  assert (Hxy : - (2 # 1000) <= y - x /\ y - x <= 2 # 1000) by (split; lra).
  pose proof (fl64_error y) as Hq.
  rewrite (Qabs_pos y) in Hq by exact Hy0.
  pose proof (round2_64_error (fl64 y)) as Hr.
  set (q := fl64 y) in *.
  assert (Hq1 : Qabs q <= y + (y * u64 + eta64)).
  { assert (Ev : q == y + (q - y)) by ring.
    rewrite Ev at 1. eapply Qle_trans; [apply Qabs_triangle|].
    rewrite (Qabs_pos y) by exact Hy0. lra. }
  pose proof (Qabs_nonneg q) as Hq0.
  assert (Et : round2_64 q - x == (round2_64 q - q) + ((q - y) + (y - x))) by ring.
  rewrite Et. eapply Qle_trans; [apply Qabs_triangle|].
  assert (T2 : Qabs ((q - y) + (y - x)) <= (y * u64 + eta64) + (2 # 1000)).
  { eapply Qle_trans; [apply Qabs_triangle|].
    assert (Qabs (y - x) <= 2 # 1000) by (apply Qabs_Qle_condition; lra).
    lra. }
  assert (Qu : Qabs q * (3 * u64) <= Qabs q * (3 * (1 # 9000000000000000))).
  { apply Qmult_le_nonneg_l; [exact Hq0 | lra]. }
  lra.
Qed.

Lemma Qsum_map_diff {A} (f g : A -> Q) l c :
  (forall a, In a l -> Qabs (f a - g a) <= c) ->
  Qabs (Qsum (map f l) - Qsum (map g l))
  <= inject_Z (Z.of_nat (length l)) * c.
Proof.
  induction l as [|a l IH]; intros H.
  - unfold Qsum. cbn. change (inject_Z (Z.of_nat 0)) with 0.
    assert (E : 0 - 0 == 0) by ring. rewrite E. cbn. lra.
  - cbn [map length]. rewrite !Qsum_cons, Nat2Z.inj_succ.
    unfold Z.succ. rewrite inject_Z_plus. change (inject_Z 1) with 1.
    assert (E : f a + Qsum (map f l) - (g a + Qsum (map g l))
                == (f a - g a) + (Qsum (map f l) - Qsum (map g l))) by ring.
    rewrite E. eapply Qle_trans; [apply Qabs_triangle|].
    pose proof (H a (or_introl eq_refl)).
    assert (Qabs (Qsum (map f l) - Qsum (map g l))
            <= inject_Z (Z.of_nat (length l)) * c).
    { apply IH. intros b Hb. apply H. right. exact Hb. }
    lra.
Qed.

Lemma fold_left_weights64 (items : list BillSplitService.DebtorWeight) :
  fold_left (fun sum item => add64 sum (BillSplitService.weight_of item)) items 0
  = sum64 (map BillSplitService.weight_of items).
Proof.
  unfold sum64. generalize 0. induction items as [|x l IH]; intros a; simpl.
  - reflexivity.
  - apply IH.
Qed.

(** C6, as the code has it.  Every successful [createWeightedSplit] was
    given an array of items; with D the items of a user other than the
    payer, every weight in D is a positive number.  The call appends one
    row per item of D whose share is
    [Math.round((A * w / W) * 100) / 100] as binary64 computes it, W
    being the binary64 sum of the weights; each share is rounded on its
    own and stored as it is.  For an amount up to 10^9, at most 1000
    rows and weights of 10^-9 or more, each share is within 0.01 of the
    exact proportional part, and the sum of the shares is within
    N x 0.01 of the original amount A, N being the number of rows. *)
Theorem weighted_split_shares_binary64 payer txId debtorWeights w r w' :
  BillSplitService.createWeightedSplit64 payer txId debtorWeights w = (Ok r, w') ->
  success r = true ->
  exists items tx,
    debtorWeights = AnArray items /\
    let D := List.filter
               (fun item => negb (String.eqb (BillSplitService.userId item) payer))
               items in
    let weights := map BillSplitService.weight_of D in
    let share := fun item =>
      round2_64 (div64 (mul64 (tx_amount tx) (BillSplitService.weight_of item))
                       (sum64 weights)) in
    D <> []
    /\ Forall (fun item => exists q, BillSplitService.weight item = JNum q
                                     /\ 0 < q
                                     /\ BillSplitService.weight_of item = q) D
    /\ Database.find_tx (db w) txId = Some tx
    /\ tx_user_id tx = payer
    /\ bill_splits (db w') =
         (bill_splits (db w) ++
          imap (fun i item =>
                  mkSplit (next_split_id (db w) + i) txId payer
                          (BillSplitService.userId item) (tx_amount tx)
                          (share item) (BillSplitService.weight_of item) pending)
               D)%list
    /\ (tx_amount tx <= 1000000000 ->
        (length D <= 1000)%nat ->
        Forall (fun q => (1 # 1000000000) <= q) weights ->
        Forall (fun item =>
                  Qabs (share item
                        - tx_amount tx * BillSplitService.weight_of item
                          / Qsum weights) <= 1 # 100) D
        /\ Qabs (Qsum (map share D) - tx_amount tx)
           <= inject_Z (Z.of_nat (length D)) * (1 # 100)).
Proof.
  unfold BillSplitService.createWeightedSplit64. unfold_monad.
  intros Hrun Hok.
  destruct debtorWeights as [|items]; [injection Hrun as <- <-; discriminate|].
  destruct (negb (str_truthy payer) || negb (str_truthy txId)
            || (length items =? 0)%nat);
    [injection Hrun as <- <-; discriminate|].
  set (D := List.filter _ items) in *.
  destruct (length D =? 0)%nat eqn:HD; [injection Hrun as <- <-; discriminate|].
  apply Nat.eqb_neq in HD.
  destruct (existsb BillSplitService.invalid_weight D) eqn:HW;
    [injection Hrun as <- <-; discriminate|].
  apply existsb_invalid_weight in HW.
  destruct (TransactionRepository.findById txId w) as [[tx|e] w1] eqn:HF;
    [|injection Hrun as <- <-; discriminate].
  apply findById_tx_inv in HF as [Hdb1 HF].
  destruct tx as [tx|]; [|injection Hrun as <- <-; discriminate].
  destruct HF as [Hfind HA].
  destruct (negb (String.eqb (tx_user_id tx) payer)) eqn:Hown;
    [injection Hrun as <- <-; discriminate|].
  rewrite negb_false_iff in Hown. apply String.eqb_eq in Hown.
  match type of Hrun with
  | context [mapM (M:=M) ?f D w1] =>
      destruct (mapM (M:=M) f D w1) as [[bs|e] w2] eqn:HE
  end; [|injection Hrun as <- <-; discriminate].
  apply (mapM_exists_inv BillSplitService.userId) in HE as [Hdb2 _].
  destruct (existsb negb bs); [injection Hrun as <- <-; discriminate|].
  rewrite fold_left_weights64 in Hrun.
  set (weights := map BillSplitService.weight_of D) in *.
  match type of Hrun with
  | context [mapM (M:=M) ?f D w2] =>
      destruct (mapM (M:=M) f D w2) as [[rows|e] w3] eqn:HN
  end; [|injection Hrun as <- <-; discriminate].
  apply mapM_lift_inv in HN as [-> HN]. specialize (HN rows eq_refl).
  destruct (BillSplitRepository.createMultiple rows w2) as [[[]|e] w4] eqn:HC;
    [|injection Hrun as <- <-; discriminate].
  apply transaction_inv in HC as [[_ HC]|[[=] _]].
  injection Hrun as <- <-.
  apply exec_all_inserts in HC as (Hb & _).
  rewrite Hdb2, Hdb1 in Hb.
  set (share := fun item =>
         round2_64 (div64 (mul64 (tx_amount tx) (BillSplitService.weight_of item))
                          (sum64 weights))).
  assert (Hrows : rows = map (fun item =>
            mkSplit 0 txId payer (BillSplitService.userId item) (tx_amount tx)
                    (share item) (BillSplitService.weight_of item) pending) D).
  { eapply Forall2_new_rows; [exact HN|].
    intros x b Hx. apply BillSplit_new_inv in Hx. tauto. }
  assert (HDne : D <> []).
  { intros E. apply HD. rewrite E. reflexivity. }
  assert (Hpos : Forall (fun q => 0 < q) weights).
  { apply Forall_map. eapply Forall_impl; [exact HW|].
    intros item (q & _ & Hq & ->). exact Hq. }
  exists items, tx. split; [reflexivity|]. fold D. cbv zeta. fold weights. fold share.
  split; [assumption|]. split; [assumption|]. split; [assumption|].
  split; [assumption|]. split.
  { rewrite Hb, Hrows, imap_map. reflexivity. }
  intros HB Hlen Hlow.
  assert (Hne : weights <> []).
  { unfold weights. destruct D; [contradiction|discriminate]. }
  assert (Hlen' : (length weights <= 1000)%nat).
  { unfold weights. rewrite length_map. exact Hlen. }
  destruct (sum64_close weights Hne Hlen' Hlow) as (HW1 & HS1 & HS2).
  assert (Hshares : forall item, In item D ->
            Qabs (share item
                  - tx_amount tx * BillSplitService.weight_of item / Qsum weights)
            <= 1 # 100).
  { intros item Hin.
    assert (Hinw : In (BillSplitService.weight_of item) weights).
    { unfold weights. apply in_map, Hin. }
    apply weighted_share_error; try assumption.
    - rewrite Forall_forall in Hpos. apply Hpos, list_elem_of_In, Hinw.
    - apply Qsum_member_le; assumption. }
  split.
  - apply Forall_forall. intros item Hin. apply Hshares, list_elem_of_In, Hin.
  - assert (Hsum : Qsum (map (fun item =>
                      tx_amount tx * BillSplitService.weight_of item / Qsum weights) D)
                   == tx_amount tx).
    { assert (E : map (fun item =>
                      tx_amount tx * BillSplitService.weight_of item / Qsum weights) D
                  = map (fun q => tx_amount tx * q / Qsum weights) weights).
      { unfold weights. rewrite map_map. reflexivity. }
      rewrite E, Qsum_scaled by lra. field. lra. }
    rewrite <- Hsum at 1.
    apply Qsum_map_diff. exact Hshares.
Qed.

Lemma weighted_split_shares_binary64_witness :
  let request :=
    AnArray [ BillSplitService.mkDebtorWeight "U2" (JNum 2);
              BillSplitService.mkDebtorWeight "U3" (JNum 1);
              BillSplitService.mkDebtorWeight "U1" (JNum 5) ] in
  exists r w',
    BillSplitService.createWeightedSplit64 "U1" "TX_PAY_004" request world0
      = (Ok r, w')
    /\ success r = true
    /\ map share_amount (bill_splits (db w')) = [dec (1233 # 100); dec (617 # 100)]
    /\ exists items tx,
         request = AnArray items /\
         let D := List.filter
                    (fun item => negb (String.eqb (BillSplitService.userId item) "U1"))
                    items in
         let weights := map BillSplitService.weight_of D in
         let share := fun item =>
           round2_64 (div64 (mul64 (tx_amount tx) (BillSplitService.weight_of item))
                            (sum64 weights)) in
         D <> []
         /\ Forall (fun item => exists q, BillSplitService.weight item = JNum q
                                          /\ 0 < q
                                          /\ BillSplitService.weight_of item = q) D
         /\ Database.find_tx (db world0) "TX_PAY_004" = Some tx
         /\ tx_user_id tx = "U1"
         /\ bill_splits (db w') =
              (bill_splits (db world0) ++
               imap (fun i item =>
                       mkSplit (next_split_id (db world0) + i) "TX_PAY_004" "U1"
                               (BillSplitService.userId item) (tx_amount tx)
                               (share item) (BillSplitService.weight_of item)
                               pending)
                    D)%list
         /\ (tx_amount tx <= 1000000000 ->
             (length D <= 1000)%nat ->
             Forall (fun q => (1 # 1000000000) <= q) weights ->
             Forall (fun item =>
                       Qabs (share item
                             - tx_amount tx * BillSplitService.weight_of item
                               / Qsum weights) <= 1 # 100) D
             /\ Qabs (Qsum (map share D) - tx_amount tx)
                <= inject_Z (Z.of_nat (length D)) * (1 # 100)).
Proof.
  intros request. eexists _, _. split; [vm_compute; reflexivity|].
  split; [reflexivity|]. split; [vm_compute; reflexivity|].
  eapply (weighted_split_shares_binary64 "U1" "TX_PAY_004" request world0);
    [vm_compute; reflexivity | reflexivity].
Defined.

(** The residual is kept: a quarter and three quarters of 18.50 are
    stored as 4.63 and 13.88, which add up to 18.51. *)
Example weighted_split_residual_binary64 :
  let request :=
    AnArray [ BillSplitService.mkDebtorWeight "U2" (JNum 1);
              BillSplitService.mkDebtorWeight "U3" (JNum 3) ] in
  exists r w',
    BillSplitService.createWeightedSplit64 "U1" "TX_PAY_004" request world0
      = (Ok r, w')
    /\ success r = true
    /\ map share_amount (bill_splits (db w')) = [dec (463 # 100); dec (1388 # 100)]
    /\ add64 (dec (463 # 100)) (dec (1388 # 100)) = dec (1851 # 100)
    /\ (tx_amount <$> Database.find_tx (db w') "TX_PAY_004") = Some (37 # 2).
Proof.
  intros request. eexists _, _. split; [vm_compute; reflexivity|].
  repeat split; vm_compute; reflexivity.
Qed.

(** The claim as the specification words it fails twice.  Of 25.50 with
    the weights 1 and 19, one twentieth is 1.275, whose share
    round(1.275, 2) is 1.28; the code stores 1.27, the binary64 product
    being 127.49999999999999.  And the sum of the shares can be far from
    the amount: with two weights of 5e-324, the smallest binary64 number,
    the two shares of 5.75 are 3.00 each, 6.00 together; the product
    5.75 x 5e-324 is rounded to 3 times the weight. *)
Lemma weighted_split_share_and_sum_off :
  let w := mkWorld ten_users [] [] "2025-10-15T12:00:00.000Z" in
  let tiny := 1 # (2 ^ 1074) in
  (exists r w',
     BillSplitService.createWeightedSplit64 "U1" "TX_PAY_101"
       (AnArray [ BillSplitService.mkDebtorWeight "U2" (JNum 1);
                  BillSplitService.mkDebtorWeight "U3" (JNum 19) ]) w
       = (Ok r, w')
     /\ success r = true
     /\ map share_amount (bill_splits (db w')) = [dec (127 # 100); dec (2423 # 100)]
     /\ round2 ((51 # 2) * 1 / (1 + 19)) == 128 # 100
     /\ mul64 (div64 (mul64 (51 # 2) 1) (add64 (add64 0 1) 19)) 100
        = dec (12749999999999999 # 100000000000000))
  /\ (exists r w',
        BillSplitService.createWeightedSplit64 "U1" "TX_PAY_100"
          (AnArray [ BillSplitService.mkDebtorWeight "U2" (JNum tiny);
                     BillSplitService.mkDebtorWeight "U3" (JNum tiny) ]) w
          = (Ok r, w')
        /\ success r = true
        /\ fl64 tiny = tiny
        /\ map share_amount (bill_splits (db w')) = [3; 3]
        /\ (tx_amount <$> Database.find_tx (db w) "TX_PAY_100") = Some (23 # 4)
        /\ ~ Qabs (Qsum (map share_amount (bill_splits (db w'))) - (23 # 4))
             <= 2 * (1 # 100)).
Proof.
  cbv zeta. split.
  - eexists _, _. split; [vm_compute; reflexivity|].
    repeat split; vm_compute; reflexivity.
  - eexists _, _. split; [vm_compute; reflexivity|].
    split; [reflexivity|]. split; [vm_compute; reflexivity|].
    split; [vm_compute; reflexivity|]. split; [vm_compute; reflexivity|].
    vm_compute. intros H. apply H. reflexivity.
Qed.


(** ** The summary of the splits of a user *)

Section SplitSummary.

Variable by_created_at_desc : list SplitRow -> list SplitRow.
Variable sql_sum : list Q -> Q.

(** The summary of a user changes nothing and always replies.  When it
    succeeds, the number of pending splits it lists for the user as payer
    is the count behind the amount owed to the user, and the number as
    debtor is the count behind the amount the user owes: the two queries
    and the two aggregates select the same rows, the pending rows of the
    table that name the user as payer and as debtor. *)
Theorem split_summary_counts_agree userId s :
  (forall l, length (by_created_at_desc l) = length l) ->
  spec (BillSplitService.getUserSplitSummary by_created_at_desc sql_sum userId) s
       (fun o s' =>
          s' = s
          /\ exists reply,
               o = Ok reply
               /\ forall d, reply_data reply = Some d ->
                    BillSplitService.pendingAsPayerCount d
                    = BillSplitRepository.tot_count
                        (BillSplitRepository.owedToMe (BillSplitService.summary d))
                    /\ BillSplitService.pendingAsDebtorCount d
                       = BillSplitRepository.tot_count
                           (BillSplitRepository.iOwe (BillSplitService.summary d))
                    /\ BillSplitService.pendingAsPayerCount d
                       = length (BillSplitRepository.pending_of_payer userId s)
                    /\ BillSplitService.pendingAsDebtorCount d
                       = length (BillSplitRepository.pending_of_debtor userId s)).
Proof.
  intros Hlen.
  set (Post := fun (o : outcome (Reply BillSplitService.SplitSummary))
                   (s' : Store) => _).
  assert (Hfail : forall e : Err,
            spec (mret (mkReply false MsgSummaryError None)) s Post).
  { intros e. apply spec_ret. split; [reflexivity|].
    eexists. split; [reflexivity|]. intros d [=]. }
  assert (Hfilter : forall (p : SplitRow -> bool) l,
            List.filter
              (fun r => p r && BillSplitRepository.status_matches
                                 (Some "pending") r) l
            = List.filter
                (fun r => p r && SplitStatus_eqb (sp_status r) pending) l).
  { intros p l. apply filter_ext. intros r.
    rewrite status_matches_pending. reflexivity. }
  unfold BillSplitService.getUserSplitSummary,
    BillSplitRepository.getPendingSummary,
    BillSplitRepository.findByPayerId, BillSplitRepository.findByDebtorId,
    BillSplitRepository.findByUserId.
  apply spec_try_catch.
  apply spec_bind, spec_bind, spec_get; [|apply Hfail, StorageError].
  apply spec_bind, spec_get; [|apply Hfail, StorageError].
  apply spec_ret.
  apply spec_bind, spec_bind, spec_get; [|apply Hfail, StorageError].
  eapply spec_weaken; [apply spec_mapM_lift|].
  intros [asPayer|e] s1 [-> Hpayer]; cbv beta iota; [|apply Hfail, e].
  specialize (Hpayer _ eq_refl).
  apply spec_bind, spec_bind, spec_get; [|apply Hfail, StorageError].
  eapply spec_weaken; [apply spec_mapM_lift|].
  intros [asDebtor|e] s1 [-> Hdebtor]; cbv beta iota; [|apply Hfail, e].
  specialize (Hdebtor _ eq_refl).
  apply spec_bind, spec_get; [|apply Hfail, StorageError].
  apply spec_ret. split; [reflexivity|]. eexists. split; [reflexivity|].
  intros d [= <-]. simpl.
  rewrite Hpayer, Hdebtor, !Hlen, !Hfilter.
  repeat split; reflexivity.
Qed.

End SplitSummary.

Lemma split_summary_counts_agree_witness :
  spec (BillSplitService.getUserSplitSummary (@rev SplitRow) sum64 "U1")
       seed_pending_split
       (fun o s' =>
          s' = seed_pending_split
          /\ exists reply,
               o = Ok reply
               /\ forall d, reply_data reply = Some d ->
                    BillSplitService.pendingAsPayerCount d
                    = BillSplitRepository.tot_count
                        (BillSplitRepository.owedToMe (BillSplitService.summary d))
                    /\ BillSplitService.pendingAsDebtorCount d
                       = BillSplitRepository.tot_count
                           (BillSplitRepository.iOwe (BillSplitService.summary d))
                    /\ BillSplitService.pendingAsPayerCount d
                       = length (BillSplitRepository.pending_of_payer "U1"
                                   seed_pending_split)
                    /\ BillSplitService.pendingAsDebtorCount d
                       = length (BillSplitRepository.pending_of_debtor "U1"
                                   seed_pending_split)).
Proof.
  exact (split_summary_counts_agree (@rev SplitRow) sum64 "U1" seed_pending_split
           (@length_rev SplitRow)).
Defined.


(** ** BudgetService.getBudgetStatus *)

(** The percentage of the source against the exact one. *)
Lemma percentage_error spent limit :
  0 <= spent -> 0 < limit -> spent <= 100 * limit ->
  Qabs (mul64 (div64 spent limit) 100 - spent / limit * 100) <= 1 # 1000000000.
Proof.
  intros Hs Hl Hb. unfold mul64, div64.
  set (x := spent / limit).
  assert (Ex : x * limit == spent) by (unfold x; field; lra).
  assert (Hx0 : 0 <= x) by (unfold x; apply Qle_shift_div_l; lra).
  assert (Hx1 : x <= 100).
  { unfold x. apply Qle_shift_div_r; lra. }
  pose proof (fl64_error x) as Hq. rewrite (Qabs_pos x) in Hq by exact Hx0.
  pose proof (fl64_nonneg x Hx0) as Hq0.
  set (q := fl64 x) in *.
  pose proof (fl64_error (q * 100)) as Hp.
  assert (Hq100 : 0 <= q * 100) by lra.
  rewrite (Qabs_pos (q * 100)) in Hp by exact Hq100.
  set (p := fl64 (q * 100)) in *.
  assert (Hu : 0 < u64) by reflexivity.
  assert (Hu1 : u64 <= 1 # 9000000000000000) by (vm_compute; discriminate).
  assert (He : 0 <= eta64) by discriminate.
  assert (He1 : eta64 <= 1 # 9000000000000000) by (vm_compute; discriminate).
  apply Qabs_Qle_condition in Hq. apply Qabs_Qle_condition in Hp.
  apply Qabs_Qle_condition. split; nra.
Qed.

(** For a limit above 0 and a spending of at most a hundred times the
    limit, the status is the one of the exact percentage spent (danger
    from 95, warning from 80, good below) wherever that percentage is
    not within 0.000000001 of 95 or of 80; within that distance binary64
    decides, and 2.09 of 2.20, which is 95 per cent, is a warning. *)
Theorem getBudgetStatus_thresholds spent limit :
  0 <= spent -> 0 < limit -> spent <= 100 * limit ->
  let percentage := spent / limit * 100 in
  let status := BudgetService.getBudgetStatus spent limit in
  (95 + (1 # 1000000000) <= percentage -> status = BudgetService.danger)
  /\ (80 + (1 # 1000000000) <= percentage ->
      percentage < 95 - (1 # 1000000000) -> status = BudgetService.warning)
  /\ (percentage < 80 - (1 # 1000000000) -> status = BudgetService.good)
  /\ (status = BudgetService.danger -> 95 - (1 # 1000000000) <= percentage)
  /\ (status = BudgetService.warning ->
      80 - (1 # 1000000000) <= percentage < 95 + (1 # 1000000000))
  /\ (status = BudgetService.good -> percentage < 80 + (1 # 1000000000)).
Proof.
  intros Hs Hl Hb. cbv zeta.
  pose proof (percentage_error spent limit Hs Hl Hb) as He.
  apply Qabs_Qle_condition in He.
  unfold BudgetService.getBudgetStatus.
  assert (Hz : Qeq_bool limit 0 = false).
  { destruct (Qeq_bool limit 0) eqn:E; [|reflexivity].
    apply Qeq_bool_iff in E. lra. }
  rewrite Hz.
  set (p64 := mul64 (div64 spent limit) 100) in *.
  set (p := spent / limit * 100) in *.
  destruct (Qleb 95 p64) eqn:H95; [|destruct (Qleb 80 p64) eqn:H80].
  - apply Qleb_le in H95.
    repeat split; try discriminate; try reflexivity; intros; lra.
  - apply Qleb_false in H95. apply Qleb_le in H80.
    repeat split; try discriminate; try reflexivity; intros; lra.
  - apply Qleb_false in H95, H80.
    repeat split; try discriminate; try reflexivity; intros; lra.
Qed.

Lemma getBudgetStatus_thresholds_witness :
  0 <= 192 /\ 0 < 200 /\ 192 <= 100 * 200
  /\ 95 + (1 # 1000000000) <= 192 / 200 * 100
  /\ BudgetService.getBudgetStatus 192 200 = BudgetService.danger
  /\ BudgetService.getBudgetStatus (dec (209 # 100)) (dec (22 # 10))
     = BudgetService.warning.
Proof.
  assert (H1 : 0 <= 192) by discriminate.
  assert (H2 : 0 < 200) by reflexivity.
  assert (H3 : 192 <= 100 * 200) by discriminate.
  assert (H4 : 95 + (1 # 1000000000) <= 192 / 200 * 100)
    by (vm_compute; discriminate).
  split; [exact H1|]. split; [exact H2|]. split; [exact H3|].
  split; [exact H4|].
  split; [|vm_compute; reflexivity].
  exact (proj1 (getBudgetStatus_thresholds 192 200 H1 H2 H3) H4).
Defined.


(** ** WalletRepository.transfer in binary64 *)

Lemma exec_two_writes x y F T fs s s' :
  Database.exec_all_of Database.exec_balance
    [Database.SetBalance x F; Database.SetBalance y T] fs s = Some s' ->
  s' = Database.set_wallets s
         (alter (Database.set_balance y) T
            (alter (Database.set_balance x) F (wallets s))).
Proof.
  simpl. destruct (hd false fs); [discriminate|].
  destruct (hd false (tl fs)); [discriminate|].
  intros [= <-]. reflexivity.
Qed.

(** [transfer] returns [true] or throws.  When it returns, both wallets
    exist, the balance of the sender covers the amount, and the store
    differs by the two balances written, the one of the sender first: the
    binary64 difference of the balance read and the amount, and the
    binary64 sum of the balance read and the amount.  When it throws, the
    store is as it was. *)
Lemma repository_transfer64_writes F T a s :
  spec (WalletRepository.transfer64 F T a) s
       (fun o s' =>
          match o with
          | Ok done =>
              done = true
              /\ exists rowF rowT,
                   wallets s !! F = Some rowF /\ wallets s !! T = Some rowT
                   /\ a <= w_balance rowF
                   /\ s' = Database.set_wallets s
                             (alter (Database.set_balance
                                       (add64 (w_balance rowT) a)) T
                                (alter (Database.set_balance
                                          (sub64 (w_balance rowF) a)) F
                                       (wallets s)))
          | Throw _ => s' = s
          end).
Proof.
  unfold WalletRepository.transfer64.
  wp; try reflexivity.
  apply spec_transaction_of.
  - intros fs s' Hexec. wp.
    apply exec_two_writes in Hexec as ->.
    funds_facts. split; [reflexivity|]. eauto 10.
  - wp. reflexivity.
Qed.

(** Between two wallets a transfer that returns has left the sender the
    binary64 difference of its balance and the amount, and the receiver
    the binary64 sum; no other wallet and no record is touched.  The sum
    of the two balances is the one before up to the rounding of the two
    operations, and not in general the one before. *)
Theorem repository_transfer_moves_the_amount F T a w w' :
  F <> T ->
  WalletRepository.transfer64 F T a w = (Ok true, w') ->
  exists rowF rowT,
    wallets (db w) !! F = Some rowF /\ wallets (db w) !! T = Some rowT
    /\ a <= w_balance rowF
    /\ wallets (db w') !! F
       = Some (mkWallet (sub64 (w_balance rowF) a) (w_currency rowF))
    /\ wallets (db w') !! T
       = Some (mkWallet (add64 (w_balance rowT) a) (w_currency rowT))
    /\ Qabs (sub64 (w_balance rowF) a + add64 (w_balance rowT) a
             - (w_balance rowF + w_balance rowT))
       <= (Qabs (w_balance rowF - a) + Qabs (w_balance rowT + a)) * u64
          + 2 * eta64
    /\ (forall u, u <> F -> u <> T -> wallets (db w') !! u = wallets (db w) !! u)
    /\ transactions (db w') = transactions (db w).
Proof.
  intros Hne Hrun.
  pose proof (repository_transfer64_writes F T a (db w) w eq_refl) as H.
  rewrite Hrun in H. simpl in H.
  destruct H as (_ & rowF & rowT & HF & HT & Hle & ->).
  exists rowF, rowT. unfold Database.set_wallets. cbn [wallets transactions].
  split; [exact HF|]. split; [exact HT|]. split; [exact Hle|].
  split; [|split; [|split; [|split; [|reflexivity]]]].
  - rewrite lookup_alter_ne by (intros E; apply Hne; symmetry; exact E).
    rewrite lookup_alter_eq, HF. reflexivity.
  - rewrite lookup_alter_eq, lookup_alter_ne by assumption.
    rewrite HT. reflexivity.
  - unfold sub64, add64.
    pose proof (fl64_error (w_balance rowF - a)) as H1.
    pose proof (fl64_error (w_balance rowT + a)) as H2.
    apply Qabs_Qle_condition in H1. apply Qabs_Qle_condition in H2.
    apply Qabs_Qle_condition. split; lra.
  - intros u HuF HuT.
    rewrite !lookup_alter_ne by (intros E; symmetry in E; contradiction).
    reflexivity.
Qed.

Lemma repository_transfer_moves_the_amount_witness :
  let w := mkWorld (seed_with_balances (dec (8397 # 100)) (dec (25603 # 100)))
             [] [] "2025-10-15T12:00:00.000Z" in
  let a := dec (1 # 100) in
  exists w' rowF rowT,
    WalletRepository.transfer64 "U1" "U2" a w = (Ok true, w')
    /\ balance_of (db w') "U1" = Some (dec (8396 # 100))
    /\ balance_of (db w') "U2"
       = Some (dec (25603999999999996 # 100000000000000))
    /\ wallets (db w) !! "U1" = Some rowF /\ wallets (db w) !! "U2" = Some rowT
    /\ a <= w_balance rowF
    /\ wallets (db w') !! "U1"
       = Some (mkWallet (sub64 (w_balance rowF) a) (w_currency rowF))
    /\ wallets (db w') !! "U2"
       = Some (mkWallet (add64 (w_balance rowT) a) (w_currency rowT))
    /\ Qabs (sub64 (w_balance rowF) a + add64 (w_balance rowT) a
             - (w_balance rowF + w_balance rowT))
       <= (Qabs (w_balance rowF - a) + Qabs (w_balance rowT + a)) * u64
          + 2 * eta64
    /\ (forall u, u <> "U1" -> u <> "U2" ->
                  wallets (db w') !! u = wallets (db w) !! u)
    /\ transactions (db w') = transactions (db w).
Proof.
  intros w a. eexists.
  assert (Hrun : WalletRepository.transfer64 "U1" "U2" a w
                 = (Ok true, snd (WalletRepository.transfer64 "U1" "U2" a w)))
    by (vm_compute; reflexivity).
  destruct (repository_transfer_moves_the_amount "U1" "U2" a w _
              ltac:(discriminate) Hrun) as (rowF & rowT & H).
  exists rowF, rowT. split; [exact Hrun|].
  split; [vm_compute; reflexivity|]. split; [vm_compute; reflexivity|].
  exact H.
Defined.

(** From a wallet to itself a transfer that returns has left the
    binary64 sum of the balance and the amount: the second write is the
    one that stays. *)
Theorem repository_transfer_to_oneself_adds u a w w' :
  WalletRepository.transfer64 u u a w = (Ok true, w') ->
  exists row,
    wallets (db w) !! u = Some row
    /\ a <= w_balance row
    /\ wallets (db w') !! u
       = Some (mkWallet (add64 (w_balance row) a) (w_currency row)).
Proof.
  intros Hrun.
  pose proof (repository_transfer64_writes u u a (db w) w eq_refl) as H.
  rewrite Hrun in H. simpl in H.
  destruct H as (_ & rowF & rowT & HF & HT & Hle & ->).
  assert (rowT = rowF) by congruence. subst rowT.
  exists rowF. simpl. repeat split; try assumption.
  rewrite !lookup_alter_eq, HF. reflexivity.
Qed.

Lemma repository_transfer_to_oneself_adds_witness :
  exists w' row,
    WalletRepository.transfer64 "U3" "U3" (dec (402 # 100)) world0 = (Ok true, w')
    /\ wallets (db world0) !! "U3" = Some row
    /\ dec (402 # 100) <= w_balance row
    /\ wallets (db w') !! "U3"
       = Some (mkWallet (add64 (w_balance row) (dec (402 # 100))) (w_currency row))
    /\ balance_of (db w') "U3"
       = Some (dec (34019999999999996 # 1000000000000000)).
Proof.
  eexists.
  assert (Hrun : WalletRepository.transfer64 "U3" "U3" (dec (402 # 100)) world0
                 = (Ok true,
                    snd (WalletRepository.transfer64 "U3" "U3" (dec (402 # 100))
                           world0)))
    by (vm_compute; reflexivity).
  destruct (repository_transfer_to_oneself_adds "U3" (dec (402 # 100)) world0 _ Hrun)
    as (row & H1 & H2 & H3).
  exists row. split; [exact Hrun|]. split; [exact H1|]. split; [exact H2|].
  split; [exact H3|]. vm_compute. reflexivity.
Defined.


(** ** What a payment and a top-up do, in binary64 *)

(** The reading of the monad for the bundles of binary64. *)
Ltac wp64_step :=
  lazymatch goal with
  | |- spec (WalletRepository.transaction64 _) _ _ =>
      unfold WalletRepository.transaction64, Database.transaction64;
      apply spec_transaction_of; [intros ? ? ? | ]
  | |- _ => wp_step
  end.

Ltac wp64 := repeat (wp64_step; cbv beta iota; cbn [negb]).

Lemma exec64_debit_bundle_inv a u t fs s s' :
  Database.exec_all_of Database.exec64
    [Database.DebitWallet a u; Database.InsertTransaction t] fs s = Some s' ->
  Database.tx_constraints s t = true
  /\ s' = Database.set_transactions
            (Database.set_wallets s
               (alter (Database.sub_balance64 a) u (wallets s)))
            (transactions s ++ [t])%list.
Proof.
  simpl. destruct (hd false fs); [discriminate|].
  destruct (hd false (tl fs)); [discriminate|].
  match goal with |- context [Database.tx_constraints ?s1 t] =>
    change (Database.tx_constraints s1 t) with (Database.tx_constraints s t) end.
  destruct (Database.tx_constraints s t); [|discriminate].
  intros [= <-]. auto.
Qed.

Lemma exec64_credit_bundle_inv a u t fs s s' :
  Database.exec_all_of Database.exec64
    [Database.CreditWallet a u; Database.InsertTransaction t] fs s = Some s' ->
  Database.tx_constraints s t = true
  /\ s' = Database.set_transactions
            (Database.set_wallets s
               (alter (Database.add_balance64 a) u (wallets s)))
            (transactions s ++ [t])%list.
Proof.
  simpl. destruct (hd false fs); [discriminate|].
  destruct (hd false (tl fs)); [discriminate|].
  match goal with |- context [Database.tx_constraints ?s1 t] =>
    change (Database.tx_constraints s1 t) with (Database.tx_constraints s t) end.
  destruct (Database.tx_constraints s t); [|discriminate].
  intros [= <-]. auto.
Qed.

Section Effects64.

Variable sql_text : jsval -> string.

(** A payment that succeeds was asked with a positive number that the
    balance covers, by an existing user to an existing merchant; it
    leaves in the wallet the binary64 difference of the balance and the
    amount, which is not negative, adds one payment record of the amount
    under an id not used before, and changes nothing else; the new
    balance of the reply is the balance stored. *)
Theorem payment_debits_and_records u m amount s :
  spec (PaymentService.processPayment64 sql_text u m amount) s
       (fun o s' => forall r, o = Ok r -> success r = true ->
          exists a row d,
            amount = JNum a /\ 0 < a
            /\ wallets s !! u = Some row /\ a <= w_balance row
            /\ is_Some (users s !! u)
            /\ is_Some (merchants s !! PaymentService.merchant_key sql_text m)
            /\ data r = Some d
            /\ Database.find_tx s (PaymentService.transactionId d) = None
            /\ s' = Database.set_transactions
                      (Database.set_wallets s
                         (alter (Database.sub_balance64 a) u (wallets s)))
                      (transactions s ++
                       [mkTx (PaymentService.transactionId d) u
                             (Some (PaymentService.merchant_key sql_text m))
                             a "TRY" payment tx_ok
                             [("payment_method", "wallet")]])%list
            /\ PaymentService.newBalance d = sub64 (w_balance row) a
            /\ (w_balance <$> wallets s' !! u)
               = Some (PaymentService.newBalance d)
            /\ 0 <= PaymentService.newBalance d).
Proof.
  unfold PaymentService.processPayment64. wp64; try failed_reply.
  intros r [= <-] _.
  match goal with H : Transaction.new _ _ _ _ _ _ _ _ = Ok _ |- _ =>
    apply Transaction_new_inv in H as (-> & _ & _ & Hpos) end.
  match goal with H : Database.exec_all_of _ _ _ _ = Some _ |- _ =>
    apply exec64_debit_bundle_inv in H as (Hc & ->) end.
  apply tx_constraints_inv in Hc as (Hfresh & Huser & Hmerchant).
  match goal with H : typeof_number amount = Some _ |- _ =>
    apply typeof_number_inv in H as -> end.
  funds_facts.
  eexists _, _, _.
  split; [reflexivity|]. split; [exact Hpos|].
  split; [eassumption|]. split; [eassumption|].
  split; [exact Huser|]. split; [exact Hmerchant|].
  split; [reflexivity|]. split; [exact Hfresh|].
  split; [reflexivity|]. split; [reflexivity|]. split.
  - cbn [Database.set_transactions Database.set_wallets wallets
         PaymentService.newBalance].
    rewrite lookup_alter_eq.
    match goal with H : wallets s !! u = Some _ |- _ => rewrite H end.
    reflexivity.
  - cbn [PaymentService.newBalance]. apply fl64_nonneg. lra.
Qed.

(** A top-up that succeeds was asked with a positive number for an
    existing wallet; it leaves in the wallet the binary64 sum of the
    balance and the amount, adds one topup record of the amount under an
    id not used before, and changes nothing else; the new balance of the
    reply is the balance stored. *)
Theorem topup_credits_and_records u amount s :
  spec (PaymentService.topUpWallet64 u amount) s
       (fun o s' => forall r, o = Ok r -> success r = true ->
          exists a row d,
            amount = JNum a /\ 0 < a
            /\ wallets s !! u = Some row
            /\ is_Some (users s !! u)
            /\ data r = Some d
            /\ Database.find_tx s (PaymentService.topup_transactionId d) = None
            /\ s' = Database.set_transactions
                      (Database.set_wallets s
                         (alter (Database.add_balance64 a) u (wallets s)))
                      (transactions s ++
                       [mkTx (PaymentService.topup_transactionId d) u None
                             a "TRY" topup tx_ok
                             [("method", "bank_transfer")]])%list
            /\ PaymentService.topup_newBalance d = add64 (w_balance row) a
            /\ (w_balance <$> wallets s' !! u)
               = Some (PaymentService.topup_newBalance d)).
Proof.
  unfold PaymentService.topUpWallet64. wp64; try failed_reply.
  intros r [= <-] _.
  match goal with H : Transaction.new _ _ _ _ _ _ _ _ = Ok _ |- _ =>
    apply Transaction_new_inv in H as (-> & _ & _ & Hpos) end.
  match goal with H : Database.exec_all_of _ _ _ _ = Some _ |- _ =>
    apply exec64_credit_bundle_inv in H as (Hc & ->) end.
  apply tx_constraints_inv in Hc as (Hfresh & Huser & _).
  match goal with H : typeof_number amount = Some _ |- _ =>
    apply typeof_number_inv in H as -> end.
  eexists _, _, _.
  split; [reflexivity|]. split; [exact Hpos|].
  split; [eassumption|]. split; [exact Huser|].
  split; [reflexivity|]. split; [exact Hfresh|].
  split; [reflexivity|]. split; [reflexivity|].
  cbn [Database.set_transactions Database.set_wallets wallets
       PaymentService.topup_newBalance].
  rewrite lookup_alter_eq.
  match goal with H : wallets s !! u = Some _ |- _ => rewrite H end.
  reflexivity.
Qed.

End Effects64.

(** A top-up of 4.02 on a balance of 30 stores and replies
    34.019999999999996, and a payment of 2.01 from a balance of 30 stores
    and replies 27.990000000000002. *)
Example topup_and_payment_in_binary64 :
  (exists r w',
     PaymentService.topUpWallet64 "U3" (JNum (dec (402 # 100))) world0 = (Ok r, w')
     /\ (PaymentService.topup_newBalance <$> data r)
        = Some (dec (34019999999999996 # 1000000000000000))
     /\ balance_of (db w') "U3"
        = Some (dec (34019999999999996 # 1000000000000000)))
  /\ (exists r w',
        PaymentService.processPayment64 (fun _ => "") "U3" (JStr "M1")
          (JNum (dec (201 # 100))) world0 = (Ok r, w')
        /\ (PaymentService.newBalance <$> data r)
           = Some (dec (27990000000000002 # 1000000000000000))
        /\ balance_of (db w') "U3"
           = Some (dec (27990000000000002 # 1000000000000000))).
Proof.
  split; eexists _, _; (split; [vm_compute; reflexivity|]);
    split; vm_compute; reflexivity.
Qed.

(** ** What a settlement does, in binary64 *)

Lemma exec64_transfer_bundle_inv a F T out_tx in_tx fs s s' :
  Database.exec_all_of Database.exec64
    [ Database.DebitWallet a F; Database.CreditWallet a T;
      Database.InsertTransaction out_tx; Database.InsertTransaction in_tx ]
    fs s = Some s' ->
  s' = Database.set_transactions
         (Database.set_wallets s
            (alter (Database.add_balance64 a) T
               (alter (Database.sub_balance64 a) F (wallets s))))
         (transactions s ++ [out_tx; in_tx])%list.
Proof.
  simpl.
  destruct (hd false fs); [discriminate|].
  destruct (hd false (tl fs)); [discriminate|].
  destruct (hd false (tl (tl fs))); [discriminate|].
  destruct (Database.tx_constraints _ out_tx); [|discriminate].
  destruct (hd false (tl (tl (tl fs)))); [discriminate|].
  destruct (Database.tx_constraints _ in_tx); [|discriminate].
  intros [= <-]. unfold Database.set_transactions, Database.set_wallets. simpl.
  rewrite <- app_assoc. reflexivity.
Qed.

(** A settlement that succeeds was asked by the debtor of a split that
    was not settled, with a balance that covers the share.  It leaves the
    debtor the binary64 difference of the balance and the share, gives
    the wallet of the payer, if there is one, the binary64 sum (no wallet
    is made), adds the two records of the transfer and marks the split
    settled. *)
Theorem settlement_moves_the_share i u s :
  spec (BillSplitService.settleBillSplit64 i u) s
       (fun o s' => forall r, o = Ok r -> success r = true ->
          exists b row d in_id,
            Database.find_split s i = Some b
            /\ debtor_user_id b = u
            /\ payer_user_id b <> u
            /\ sp_status b <> settled
            /\ wallets s !! u = Some row
            /\ share_amount b <= w_balance row
            /\ data r = Some d
            /\ BillSplitService.s_amount d = share_amount b
            /\ s' = with_split_status settled i
                      (settlement_transfer64 b
                         (BillSplitService.transferTransactionId d) in_id s)
            /\ (w_balance <$> wallets s' !! u)
               = Some (sub64 (w_balance row) (share_amount b))).
Proof.
  unfold BillSplitService.settleBillSplit64. wp64; try failed_reply.
  unfold BillSplitService.transferMoney64. wp64; try failed_reply.
  intros r [= <-] _.
  repeat match goal with
         | H : Transaction.new _ _ _ _ _ _ _ _ = Ok _ |- _ =>
             apply Transaction_new_inv in H as (-> & _)
         end.
  match goal with H : Database.exec_all_of _ _ _ _ = Some _ |- _ =>
    apply exec64_transfer_bundle_inv in H as -> end.
  match goal with H : Database.exec (Database.UpdateSplitStatus _ _) _ = Some _ |- _ =>
    injection H as <- end.
  match goal with H : negb (String.eqb _ u) = false |- _ =>
    rewrite negb_false_iff in H; apply String.eqb_eq in H end.
  match goal with H : BillSplit.isSettled _ = false |- _ =>
    apply isSettled_false in H end.
  match goal with H : data (ok _ _) = Some _ |- _ =>
    cbn in H; injection H as <- end.
  eexists _, _, _, _.
  split; [eassumption|]. split; [eassumption|].
  split; [congruence|]. split; [eassumption|].
  split; [eassumption|]. split; [eassumption|].
  split; [reflexivity|]. split; [reflexivity|]. split; [reflexivity|].
  cbn [with_split_status settlement_transfer64 Database.set_bill_splits
       Database.set_transactions Database.set_wallets wallets].
  rewrite lookup_alter_ne by congruence.
  match goal with H : debtor_user_id _ = u |- _ => rewrite H end.
  rewrite lookup_alter_eq.
  match goal with H : wallets s !! u = Some _ |- _ => rewrite H end.
  reflexivity.
Qed.


(** ** What a transfer does, in binary64 *)

(** A transfer that succeeds was asked with a positive number that the
    balance of the sender covers, between two different users with
    wallets.  It leaves the sender the binary64 difference of the balance
    and the amount, which is not negative, and the receiver the binary64
    sum; the sum of the two balances is as before up to the two rounding
    errors and no more.  No other wallet is touched, and the two records
    added, a transfer_out of the sender and a transfer_in of the
    receiver, carry the amount and the id of each other. *)
Theorem transfer_moves_the_amount F T amount s :
  spec (PaymentService.transferMoney64 F T amount) s
       (fun o s' => forall r, o = Ok r -> success r = true ->
          exists a rowF rowT out_id in_id,
            amount = JNum a /\ 0 < a /\ F <> T
            /\ wallets s !! F = Some rowF
            /\ wallets s !! T = Some rowT
            /\ a <= w_balance rowF
            /\ wallets s' !! F
               = Some (mkWallet (sub64 (w_balance rowF) a) (w_currency rowF))
            /\ wallets s' !! T
               = Some (mkWallet (add64 (w_balance rowT) a) (w_currency rowT))
            /\ 0 <= sub64 (w_balance rowF) a
            /\ Qabs (sub64 (w_balance rowF) a + add64 (w_balance rowT) a
                     - (w_balance rowF + w_balance rowT))
               <= (Qabs (w_balance rowF - a) + Qabs (w_balance rowT + a)) * u64
                  + 2 * eta64
            /\ (forall u, u <> F -> u <> T -> wallets s' !! u = wallets s !! u)
            /\ transactions s' =
                 (transactions s ++
                  [ mkTx out_id F None a "TRY" transfer_out tx_ok
                         [("to_user", T); ("related_tx", in_id)];
                    mkTx in_id T None a "TRY" transfer_in tx_ok
                         [("from_user", F); ("related_tx", out_id)] ])%list
            /\ data r = Some (PaymentService.mkTransferData out_id in_id a F T)).
Proof.
  unfold PaymentService.transferMoney64. wp64; try failed_reply.
  intros r [= <-] _.
  repeat match goal with
         | H : Transaction.new _ _ _ _ _ _ _ _ = Ok _ |- _ =>
             apply Transaction_new_inv in H as (-> & _)
         end.
  match goal with H : Database.exec_all_of _ _ _ _ = Some _ |- _ =>
    apply exec64_transfer_bundle_inv in H as -> end.
  match goal with H : typeof_number amount = Some _ |- _ =>
    apply typeof_number_inv in H as -> end.
  match goal with H : String.eqb F T = false |- _ =>
    apply String.eqb_neq in H; rename H into Hne end.
  funds_facts.
  match goal with
  | HF : wallets s !! F = Some ?rF, HT : wallets s !! T = Some ?rT |- _ =>
      exists q, rF, rT; eexists _, _
  end.
  cbn [Database.set_transactions Database.set_wallets wallets transactions].
  split; [reflexivity|]. split; [assumption|]. split; [exact Hne|].
  split; [eassumption|]. split; [eassumption|]. split; [assumption|].
  split; [|split; [|split; [|split; [|split; [|split]]]]].
  - rewrite lookup_alter_ne by (intros E; apply Hne; symmetry; exact E).
    rewrite lookup_alter_eq.
    match goal with H : wallets s !! F = Some _ |- _ => rewrite H end.
    reflexivity.
  - rewrite lookup_alter_eq, lookup_alter_ne by exact Hne.
    match goal with H : wallets s !! T = Some _ |- _ => rewrite H end.
    reflexivity.
  - apply fl64_nonneg. lra.
  - unfold sub64, add64.
    match goal with
    | |- context [fl64 (?x - q) + fl64 (?y + q)] =>
        pose proof (fl64_error (x - q)) as E1;
        pose proof (fl64_error (y + q)) as E2
    end.
    apply Qabs_Qle_condition in E1. apply Qabs_Qle_condition in E2.
    apply Qabs_Qle_condition. split; lra.
  - intros u' HuF HuT.
    rewrite !lookup_alter_ne by (intros E; symmetry in E; contradiction).
    reflexivity.
  - reflexivity.
  - reflexivity.
Qed.


(** ** The static helpers of BillSplit *)

Lemma fold_left_uw_weights64 (items : list BillSplit.UserWeight) :
  fold_left (fun sum item => add64 sum (BillSplit.uw_weight item)) items 0
  = sum64 (map BillSplit.uw_weight items).
Proof.
  unfold sum64. generalize 0. induction items as [|x l IH]; intros a; simpl.
  - reflexivity.
  - apply IH.
Qed.

Lemma Qsum_map_const {A} (c : Q) (l : list A) :
  Qsum (map (fun _ => c) l) == inject_Z (Z.of_nat (length l)) * c.
Proof.
  induction l as [|a l IH].
  - unfold Qsum. cbn. change (inject_Z (Z.of_nat 0)) with 0. ring.
  - cbn [map length]. rewrite Qsum_cons, IH, Nat2Z.inj_succ.
    unfold Z.succ. rewrite inject_Z_plus. change (inject_Z 1) with 1. ring.
Qed.

(** [calculateEqualSplit] succeeds exactly on a list that is not empty;
    it gives every user of the list the same share with weight 1,
    [Math.round((total / n) * 100) / 100] as binary64 computes it.  For a
    total between 0 and 10^9 each share is within half a cent of total / n
    up to a rounding error below 0.000001, and so is the sum of the shares
    of the total, per user. *)
Theorem calculateEqualSplit_shares totalAmount userIds :
  ((exists shares, BillSplit.calculateEqualSplit totalAmount userIds = Ok shares)
   <-> exists ids, userIds = Some ids /\ ids <> [])
  /\ forall shares,
       BillSplit.calculateEqualSplit totalAmount userIds = Ok shares ->
       exists ids,
         let n := inject_Z (Z.of_nat (length ids)) in
         userIds = Some ids
         /\ map BillSplit.share_userId shares = ids
         /\ Forall (fun sh =>
                      BillSplit.share_shareAmount sh
                      = round2_64 (div64 totalAmount n)
                      /\ BillSplit.share_weight sh = 1) shares
         /\ (0 <= totalAmount -> totalAmount <= 1000000000 ->
             Forall (fun sh =>
                       Qabs (BillSplit.share_shareAmount sh - totalAmount / n)
                       <= (1 # 200) + (1 # 1000000)) shares
             /\ Qabs (Qsum (map BillSplit.share_shareAmount shares) - totalAmount)
                <= n * ((1 # 200) + (1 # 1000000))).
Proof.
  unfold BillSplit.calculateEqualSplit. split.
  - split.
    + intros [shares H]. destruct userIds as [ids|]; [|discriminate].
      exists ids. split; [reflexivity|]. intros ->. discriminate.
    + intros (ids & -> & Hne). destruct ids as [|x l]; [contradiction|].
      cbn [length Nat.eqb]. eauto.
  - intros shares H. destruct userIds as [ids|]; [|discriminate].
    destruct (length ids =? 0)%nat eqn:Hlen; [discriminate|].
    apply Nat.eqb_neq in Hlen. injection H as <-.
    exists ids. cbv zeta.
    set (n := inject_Z (Z.of_nat (length ids))).
    set (share := round2_64 (div64 totalAmount n)).
    split; [reflexivity|]. split.
    { rewrite map_map. cbn [BillSplit.share_userId]. apply map_id. }
    split.
    { apply Forall_map. apply Forall_forall. intros x _. split; reflexivity. }
    intros H0 HB.
    assert (Hn : 1 <= n).
    { unfold n. change 1 with (inject_Z 1). rewrite <- Zle_Qle. lia. }
    pose proof (equal_share_error totalAmount n H0 HB Hn) as Herr.
    fold share in Herr.
    split.
    { apply Forall_map. apply Forall_forall. intros x _. exact Herr. }
    rewrite map_map. cbn [BillSplit.share_shareAmount].
    assert (Ec : Qsum (map (fun _ : string => totalAmount / n) ids)
                 == totalAmount).
    { rewrite Qsum_map_const. fold n. field. lra. }
    rewrite <- Ec at 1.
    pose proof (Qsum_map_diff (fun _ : string => share)
                  (fun _ : string => totalAmount / n) ids
                  ((1 # 200) + (1 # 1000000)) (fun _ _ => Herr)) as Hs.
    fold n in Hs. exact Hs.
Qed.


(** Weighted by equal weights the shares need not be those of the equal
    split: 0.35 between two users is 0.18 each, and 0.17 each with the
    weights 3 and 3. *)
Example weighted_split_of_equal_weights_differs :
  BillSplit.calculateEqualSplit (dec (35 # 100)) (Some ["U1"; "U2"])
    = Ok [ BillSplit.mkShare "U1" (dec (18 # 100)) 1;
           BillSplit.mkShare "U2" (dec (18 # 100)) 1 ]
  /\ BillSplit.calculateWeightedSplit (dec (35 # 100))
       (Some [ BillSplit.mkUserWeight "U1" 3; BillSplit.mkUserWeight "U2" 3 ])
     = Ok [ BillSplit.mkShare "U1" (dec (17 # 100)) 3;
            BillSplit.mkShare "U2" (dec (17 # 100)) 3 ].
Proof. split; vm_compute; reflexivity. Qed.


(** ** The pages of the history, as the repository returns them *)

Lemma fl64_pos_integer n d c :
  Zpos n = (c * Zpos d)%Z -> (c < 2 ^ 53)%Z -> fl64_pos n d == inject_Z c.
Proof.
  intros E Hc. unfold fl64_pos. rewrite Qred_correct, scaled_eq.
  assert (Hc0 : (0 < c)%Z) by nia.
  assert (He : (last_place n d <= 0)%Z).
  { unfold last_place. pose proof (log2_floor_spec n d) as HL. cbv zeta in HL.
    destruct (0 <=? log2_floor n d)%Z eqn:B; [|apply Z.leb_gt in B; lia].
    apply Z.leb_le in B. destruct HL as [HL _].
    assert (H : (2 ^ log2_floor n d <= c)%Z) by nia.
    assert (log2_floor n d < 53)%Z; [|lia].
    apply (Z.pow_lt_mono_r_iff 2); lia. }
  set (e := last_place n d) in *.
  destruct (0 <=? e)%Z eqn:B.
  - apply Z.leb_le in B. assert (e = 0%Z) as -> by lia.
    change (2 ^ 0)%Z with 1%Z. change (2 ^ 0) with 1.
    pose proof (nearest_even_spec (Z.pos n) (Z.pos d * 1) ltac:(lia)) as S.
    assert (nearest_even (Z.pos n) (Z.pos d * 1) = c) as -> by nia.
    ring.
  - apply Z.leb_gt in B.
    assert (P : (0 < 2 ^ (- e))%Z) by (apply Z.pow_pos_nonneg; lia).
    pose proof (nearest_even_spec (Z.pos n * 2 ^ (- e)) (Z.pos d) ltac:(lia)) as S.
    assert (nearest_even (Z.pos n * 2 ^ (- e)) (Z.pos d) = (c * 2 ^ (- e))%Z) as ->.
    { rewrite E in S |- *. set (k := (2 ^ (- e))%Z) in *.
      set (m := nearest_even (c * Z.pos d * k) (Z.pos d)) in *. nia. }
    rewrite inject_Z_mult, <- pow2_Q_nonneg by lia.
    rewrite <- Qmult_assoc, <- Qpower_plus by (intros Q; discriminate Q).
    replace (- e + e)%Z with 0%Z by lia. change (2 ^ 0) with 1. ring.
Qed.

Lemma fl64_of_integer x c :
  x == inject_Z c -> (Z.abs c < 2 ^ 53)%Z -> fl64 x == inject_Z c.
Proof.
  intros E Hc. rewrite (Q_of_parts x) in E. unfold fl64.
  destruct (Qnum x) as [|n|n] eqn:N.
  - unfold Qeq in E. simpl in E. assert (c = 0%Z) as -> by lia. reflexivity.
  - apply fl64_pos_integer; [|lia]. unfold Qeq in E. simpl in E. lia.
  - rewrite (fl64_pos_integer n (Qden x) (- c)).
    + rewrite inject_Z_opp. ring.
    + unfold Qeq in E. simpl in E. lia.
    + lia.
Qed.

Lemma Qceiling_unique y c :
  inject_Z c - 1 < y -> y <= inject_Z c -> Qceiling y = c.
Proof.
  intros H1 H2.
  pose proof (Qle_ceiling y) as A. pose proof (Qceiling_lt y) as B.
  assert (A' : (c - 1 < Qceiling y)%Z).
  { rewrite Zlt_Qlt. unfold Zminus. rewrite inject_Z_plus.
    change (inject_Z (- (1))) with (- (1)). lra. }
  assert (B' : (Qceiling y - 1 < c)%Z).
  { rewrite Zlt_Qlt. lra. }
  lia.
Qed.

Lemma ceil_div64 n ps :
  (0 <= n)%Z -> (0 < ps)%Z -> (n * ps < 2 ^ 52)%Z ->
  Qceiling (div64 (inject_Z n) (inject_Z ps))
  = Qceiling (inject_Z n / inject_Z ps).
Proof.
  intros Hn Hps Hsmall. unfold div64.
  set (x := inject_Z n / inject_Z ps).
  pose proof (Qle_ceiling x) as Hhi. pose proof (Qceiling_lt x) as Hlo.
  set (c := Qceiling x) in *.
  assert (HP : 1 <= inject_Z ps).
  { change 1 with (inject_Z 1). rewrite <- Zle_Qle. lia. }
  assert (Hx : x * inject_Z ps == inject_Z n) by (unfold x; field; lra).
  assert (H1 : (n <= c * ps)%Z).
  { rewrite Zle_Qle, inject_Z_mult. rewrite <- Hx. nra. }
  assert (H2 : ((c - 1) * ps < n)%Z).
  { rewrite Zlt_Qlt, inject_Z_mult. rewrite <- Hx. nra. }
  assert (Hc : (0 <= c)%Z) by nia.
  destruct (Z.eq_dec n (c * ps)%Z) as [E|E].
  - assert (Ex : x == inject_Z c).
    { unfold x. rewrite E, inject_Z_mult. field. lra. }
    assert (F : fl64 x == inject_Z c).
    { apply fl64_of_integer; [exact Ex|]. 
      assert (c <= n)%Z by nia. 
      assert (2 ^ 52 < 2 ^ 53)%Z by (vm_compute; reflexivity). nia. }
    apply Qceiling_unique; rewrite F; lra.
  - assert (Hn1 : (1 <= n)%Z).
    { destruct (Z.eq_dec n 0%Z) as [Z0|Z0]; [|lia]. exfalso.
      assert (C0 : c = 0%Z) by nia. apply E. rewrite C0, Z0. reflexivity. }
    assert (L1 : inject_Z n + 1 <= inject_Z c * inject_Z ps).
    { rewrite <- inject_Z_mult. change 1 with (inject_Z 1).
      rewrite <- inject_Z_plus, <- Zle_Qle. lia. }
    assert (L2 : (inject_Z c - 1) * inject_Z ps + 1 <= inject_Z n).
    { assert ((c - 1) * ps + 1 <= n)%Z as Hz by lia.
      rewrite Zle_Qle in Hz. rewrite inject_Z_plus, inject_Z_mult in Hz.
      unfold Zminus in Hz. rewrite inject_Z_plus in Hz.
      change (inject_Z (- (1))) with (- (1)) in Hz.
      change (inject_Z 1) with 1 in Hz. lra. }
    assert (L3 : inject_Z n * inject_Z ps <= 4503599627370496).
    { rewrite <- inject_Z_mult.
      change 4503599627370496 with (inject_Z (2 ^ 52)).
      rewrite <- Zle_Qle. lia. }
    assert (N1 : 1 <= inject_Z n).
    { change 1 with (inject_Z 1). rewrite <- Zle_Qle. lia. }
    assert (X0 : 0 <= x).
    { unfold x. apply Qle_shift_div_l; lra. }
    pose proof (fl64_error x) as Er. rewrite (Qabs_pos x X0) in Er.
    apply Qabs_Qle_condition in Er as [Er1 Er2].
    set (err := x * u64 + eta64) in *.
    assert (ErrP : err * inject_Z ps <= 3 # 4).
    { unfold err.
      assert (U : u64 == 1 # 9007199254740992) by reflexivity.
      assert (Et : eta64 <= 1 # 18014398509481984) by (vm_compute; discriminate).
      assert (Q1 : inject_Z ps <= 4503599627370496) by nra.
      assert (Q2 : eta64 * inject_Z ps <= (1 # 18014398509481984) * 4503599627370496).
      { assert (0 <= eta64) by (vm_compute; discriminate).
        nra. }
      assert (Q3 : x * u64 * inject_Z ps == inject_Z n * u64).
      { rewrite <- Hx. ring. }
      assert (Q4 : inject_Z n * u64 <= 4503599627370496 * (1 # 9007199254740992)).
      { rewrite U. nra. }
      assert (Q5 : (x * u64 + eta64) * inject_Z ps
                   == x * u64 * inject_Z ps + eta64 * inject_Z ps) by ring.
      rewrite Q5, Q3.
      assert ((1 # 18014398509481984) * 4503599627370496 == 1 # 4) by reflexivity.
      assert (4503599627370496 * (1 # 9007199254740992) == 1 # 2) by reflexivity.
      lra. }
    apply Qceiling_unique.
    + assert (G : (inject_Z c - 1) * inject_Z ps < (fl64 x) * inject_Z ps).
      { assert ((x - err) * inject_Z ps <= fl64 x * inject_Z ps).
        { apply Qmult_le_compat_r; lra. }
        assert ((x - err) * inject_Z ps == inject_Z n - err * inject_Z ps)
          by (rewrite <- Hx; ring).
        lra. }
      apply Qmult_lt_r in G; [exact G | lra].
    + assert (G : fl64 x * inject_Z ps <= inject_Z c * inject_Z ps).
      { assert (fl64 x * inject_Z ps <= (x + err) * inject_Z ps).
        { apply Qmult_le_compat_r; lra. }
        assert ((x + err) * inject_Z ps == inject_Z n + err * inject_Z ps)
          by (rewrite <- Hx; ring).
        lra. }
      apply Qmult_le_r in G; [exact G | lra].
Qed.

Lemma ceil_div_bounds (n : nat) (ps : Z) :
  (0 < ps)%Z -> (Z.of_nat n * ps < 2 ^ 52)%Z ->
  exists k : nat,
    TransactionRepository.ceil_div n ps = Some (Z.of_nat k)
    /\ (n <= k * Z.to_nat ps)%nat
    /\ (n = 0%nat -> k = 0%nat)
    /\ (0 < n -> (k - 1) * Z.to_nat ps < n)%nat.
Proof.
  intros Hps Hsmall. unfold TransactionRepository.ceil_div.
  assert (Hne : (ps =? 0)%Z = false) by (apply Z.eqb_neq; lia).
  rewrite Hne, ceil_div64 by lia.
  set (x := inject_Z (Z.of_nat n) / inject_Z ps).
  pose proof (Qle_ceiling x) as Hhi. pose proof (Qceiling_lt x) as Hlo.
  set (c := Qceiling x) in *.
  assert (Hpq : 0 < inject_Z ps).
  { change 0 with (inject_Z 0). rewrite <- Zlt_Qlt. exact Hps. }
  assert (Hx : x * inject_Z ps == inject_Z (Z.of_nat n)).
  { unfold x. field. lra. }
  assert (H1 : (Z.of_nat n <= c * ps)%Z).
  { rewrite Zle_Qle, inject_Z_mult. rewrite <- Hx. nra. }
  assert (H2 : ((c - 1) * ps < Z.of_nat n)%Z).
  { rewrite Zlt_Qlt, inject_Z_mult. rewrite <- Hx. nra. }
  assert (Hc : (0 <= c)%Z) by nia.
  exists (Z.to_nat c). rewrite Z2Nat.id by assumption.
  split; [reflexivity|]. split; [nia|]. split; nia.
Qed.

Lemma mapM_lift_throw {A B} (f : A -> outcome B) l w e w' :
  mapM (fun x => lift (f x)) l w = (Throw e, w') ->
  Exists (fun x => f x = Throw e) l.
Proof.
  revert w w'. induction l as [|x l IH]; intros w w'; simpl.
  - unfold_monad. discriminate.
  - unfold mbind, M_bind, bind at 1. unfold lift at 1.
    destruct (f x) as [b|e'] eqn:E.
    + unfold mbind, M_bind, bind at 1.
      destruct (mapM (M:=M) (fun x => lift (f x)) l w) as [[bs|e'] w2] eqn:R.
      * unfold_monad. discriminate.
      * intros [= <- <-]. apply Exists_cons_tl. eapply IH, R.
    + intros [= <- <-]. apply Exists_cons_hd. exact E.
Qed.

Section HistoryPages.

Variable by_created_at_desc : list TxRow -> list TxRow.

Lemma history_run userId page pageSize w :
  let r := TransactionRepository.getUserTransactionHistory by_created_at_desc
             userId page pageSize w in
  let rows := TransactionRepository.history_rows by_created_at_desc
                userId page pageSize (db w) in
  db (snd r) = db w
  /\ match fst r with
     | Ok h =>
         hd false (faults w) = false /\ hd false (tl (faults w)) = false
         /\ Forall2 (fun row t =>
                       TransactionRepository.fromJoinedRow
                         (row, TransactionRepository.merchant_name_of (db w) row)
                       = Ok t)
                    rows (TransactionRepository.history_transactions h)
         /\ TransactionRepository.pagination h
            = TransactionRepository.mkPagination page pageSize
                (length (TransactionRepository.user_rows userId (db w)))
                (TransactionRepository.ceil_div
                   (length (TransactionRepository.user_rows userId (db w)))
                   pageSize)
     | Throw e =>
         hd false (faults w) = true \/ hd false (tl (faults w)) = true
         \/ Exists (fun row => Transaction.fromRow row = Throw e) rows
     end.
Proof.
  intros r rows. subst r.
  unfold TransactionRepository.getUserTransactionHistory.
  unfold Database.get, Database.next_fault.
  unfold mbind, M_bind, bind, mret, M_ret, ret, throw. cbn [db faults fst snd].
  destruct (hd false (faults w)) eqn:F1; cbn [db faults fst snd]; [auto|].
  destruct (hd false (tl (faults w))) eqn:F2; cbn [db faults fst snd]; [auto|].
  fold rows.
  match goal with |- context [mapM ?f ?l ?w0] =>
    destruct (mapM f l w0) as [[ts|e] w2] eqn:R end.
  - pose proof R as R'. apply mapM_lift_inv in R' as [-> Hts].
    cbn [db fst snd TransactionRepository.history_transactions
         TransactionRepository.pagination].
    split; [reflexivity|]. split; [reflexivity|]. split; [reflexivity|].
    split; [|reflexivity].
    specialize (Hts ts eq_refl). apply Forall2_fmap_l in Hts. exact Hts.
  - pose proof R as R'. apply mapM_lift_inv in R' as [-> _].
    cbn [db fst snd]. split; [reflexivity|]. right. right.
    apply mapM_lift_throw in R. apply Exists_fmap in R.
    eapply Exists_impl; [exact R|]. intros row. cbn.
    unfold TransactionRepository.fromJoinedRow. cbn [fst snd].
    destruct (Transaction.fromRow row); [discriminate|]. intros [= ->]. reflexivity.
Qed.

(** Page by page, [getUserTransactionHistory] reads the history of a user
    and changes nothing.  With a positive page size (and a count of
    records times the page size below 2^52, where the division of
    [Math.ceil(total / pageSize)] is exact enough), a call returns exactly
    when the store answers both statements and [Transaction.fromRow]
    accepts every row of the page, and throws otherwise; what it returns
    are the rows of the page in order, each with the name of its merchant,
    and the same [total] and [totalPages] on every page.  The pages 1 to
    [totalPages] hold every record of the user exactly once, in the order
    of the query, none of them empty and none longer than the page size; a
    page after the last is empty; a page number below 1 gives the first
    page. *)
Theorem history_pages_hold_every_record userId pageSize w :
  (forall l, by_created_at_desc l ≡ₚ l) ->
  (0 < pageSize)%Z ->
  (Z.of_nat (length (TransactionRepository.user_rows userId (db w))) * pageSize
   < 2 ^ 52)%Z ->
  let history := fun page =>
    TransactionRepository.getUserTransactionHistory by_created_at_desc
      userId page pageSize w in
  let rows := by_created_at_desc (TransactionRepository.user_rows userId (db w)) in
  let page_rows := fun page =>
    TransactionRepository.history_rows by_created_at_desc userId page pageSize
      (db w) in
  exists totalPages : nat,
    (forall page,
        db (snd (history page)) = db w
        /\ ((exists h, fst (history page) = Ok h)
            <-> hd false (faults w) = false
                /\ hd false (tl (faults w)) = false
                /\ Forall (fun row => exists t, Transaction.fromRow row = Ok t)
                          (page_rows page))
        /\ forall h, fst (history page) = Ok h ->
             map TransactionRepository.tx_row
                 (TransactionRepository.history_transactions h)
             = page_rows page
             /\ map TransactionRepository.merchantName
                    (TransactionRepository.history_transactions h)
                = map (fun row =>
                         match TransactionRepository.merchant_name_of (db w) row with
                         | Some n => if str_truthy n then Some n else None
                         | None => None
                         end) (page_rows page)
             /\ TransactionRepository.pagination h
                = TransactionRepository.mkPagination page pageSize
                    (length rows) (Some (Z.of_nat totalPages)))
    /\ concat (map (fun p => page_rows (Z.of_nat p)) (seq 1 totalPages)) = rows
    /\ (forall p, (1 <= p <= totalPages)%nat ->
          page_rows (Z.of_nat p) <> []
          /\ (Z.of_nat (length (page_rows (Z.of_nat p))) <= pageSize)%Z)
    /\ (forall page, (Z.of_nat totalPages < page)%Z -> page_rows page = [])
    /\ (forall page, (page <= 1)%Z -> page_rows page = page_rows 1%Z).
Proof.
  intros Hperm Hps Hsmall history rows page_rows.
  assert (Hlen : length rows
                 = length (TransactionRepository.user_rows userId (db w))).
  { unfold rows. rewrite (Hperm _). reflexivity. }
  destruct (ceil_div_bounds (length (TransactionRepository.user_rows userId (db w)))
              pageSize Hps Hsmall) as (k & Hk & Hhi & Hzero & Hlo).
  rewrite <- Hlen in Hhi, Hzero, Hlo.
  set (psn := Z.to_nat pageSize) in *.
  assert (Hpsn : (0 < psn)%nat) by (unfold psn; lia).
  assert (Hpage : forall p, (1 <= p)%nat ->
            page_rows (Z.of_nat p) = take psn (drop ((p - 1) * psn) rows)).
  { intros p Hp. unfold page_rows, TransactionRepository.history_rows.
    apply sql_limit_page; assumption. }
  exists k. split; [|split; [|split; [|split]]].
  - intros page.
    pose proof (history_run userId page pageSize w) as Hrun.
    cbv zeta in Hrun. fold (history page) in Hrun. fold (page_rows page) in Hrun.
    destruct Hrun as [Hdb Hout]. split; [exact Hdb|]. split.
    + split.
      * intros [h Hh]. rewrite Hh in Hout.
        destruct Hout as (F1 & F2 & Hrows & _).
        split; [exact F1|]. split; [exact F2|].
        clear - Hrows. induction Hrows as [|row t l l' H _ IH]; constructor; auto.
        unfold TransactionRepository.fromJoinedRow in H. cbn [fst snd] in H.
        destruct (Transaction.fromRow row) as [t'|]; [eauto | discriminate].
      * intros (F1 & F2 & Hall).
        destruct (fst (history page)) as [h|e]; [eauto|]. exfalso.
        destruct Hout as [Hf|[Hf|Hex]]; [congruence | congruence |].
        rewrite Forall_forall in Hall. apply Exists_exists in Hex as (row & Hin & Hthrow).
        destruct (Hall row Hin) as [t Ht]. congruence.
    + intros h Hh. rewrite Hh in Hout.
      destruct Hout as (_ & _ & Hrows & Hpag).
      split; [|split].
      * clear - Hrows. induction Hrows as [|row t l l' H _ IH]; [reflexivity|].
        cbn [map]. f_equal; [|exact IH].
        unfold TransactionRepository.fromJoinedRow in H. cbn [fst snd] in H.
        destruct (Transaction.fromRow row) as [t'|] eqn:F; [|discriminate].
        injection H as <-. apply Transaction_fromRow_inv in F as [-> _]. reflexivity.
      * clear - Hrows. induction Hrows as [|row t l l' H _ IH]; [reflexivity|].
        cbn [map]. f_equal; [|exact IH].
        unfold TransactionRepository.fromJoinedRow in H. cbn [fst snd] in H.
        destruct (Transaction.fromRow row) as [t'|] eqn:F; [|discriminate].
        injection H as <-. reflexivity.
      * rewrite Hpag, Hk, Hlen. reflexivity.
  - rewrite <- (take_ge rows (k * psn)) by exact Hhi.
    rewrite <- pages_concat. f_equal. apply map_ext_in.
    intros p Hp. apply in_seq in Hp. apply Hpage. lia.
  - intros p [Hp1 Hp2]. rewrite Hpage by assumption. split.
    + intros E. apply (f_equal (@length _)) in E.
      rewrite length_take, length_drop in E. cbn [length] in E.
      assert ((p - 1) * psn <= (k - 1) * psn)%nat by (apply Nat.mul_le_mono_r; lia).
      assert (0 < length rows)%nat by (destruct (length rows); [lia | lia]).
      specialize (Hlo ltac:(assumption)). lia.
    + rewrite length_take. unfold psn. lia.
  - intros page Hpg. unfold page_rows, TransactionRepository.history_rows,
      TransactionRepository.sql_limit. fold rows.
    assert (Hl : (pageSize <? 0)%Z = false) by (apply Z.ltb_ge; lia).
    rewrite Hl. rewrite (drop_ge rows); [apply take_nil|].
    assert (Z.of_nat k * pageSize <= (page - 1) * pageSize)%Z by nia.
    assert (Z.of_nat (length rows) <= Z.of_nat k * pageSize)%Z.
    { unfold psn in Hhi. nia. }
    lia.
  - intros page Hpg. unfold page_rows, TransactionRepository.history_rows,
      TransactionRepository.sql_limit.
    replace (Z.to_nat ((page - 1) * pageSize)) with 0%nat by nia.
    reflexivity.
Qed.

End HistoryPages.

Lemma history_pages_hold_every_record_witness :
  let history := fun page =>
    TransactionRepository.getUserTransactionHistory (@rev TxRow) "U2" page 1 world0 in
  let rows := rev (TransactionRepository.user_rows "U2" (db world0)) in
  let page_rows := fun page =>
    TransactionRepository.history_rows (@rev TxRow) "U2" page 1 (db world0) in
  (forall l : list TxRow, rev l ≡ₚ l)
  /\ (0 < 1)%Z
  /\ (Z.of_nat (length (TransactionRepository.user_rows "U2" (db world0))) * 1
      < 2 ^ 52)%Z
  /\ map tx_id rows = ["TX_CB_003"; "TX_PAY_007"]
  /\ (exists h,
        fst (history 2%Z) = Ok h
        /\ map (fun t => tx_id (TransactionRepository.tx_row t))
               (TransactionRepository.history_transactions h) = ["TX_PAY_007"]
        /\ map TransactionRepository.merchantName
               (TransactionRepository.history_transactions h)
           = [Some "Kampus Kafe"]
        /\ TransactionRepository.pagination h
           = TransactionRepository.mkPagination 2 1 2 (Some 2%Z))
  /\ fst (TransactionRepository.getUserTransactionHistory (@rev TxRow) "U2" 1 1
            (mkWorld seed [false; true] [] "2025-10-15T12:00:00.000Z"))
     = Throw StorageError
  /\ exists totalPages : nat,
       (forall page,
           db (snd (history page)) = db world0
           /\ ((exists h, fst (history page) = Ok h)
               <-> hd false (faults world0) = false
                   /\ hd false (tl (faults world0)) = false
                   /\ Forall (fun row => exists t, Transaction.fromRow row = Ok t)
                             (page_rows page))
           /\ forall h, fst (history page) = Ok h ->
                map TransactionRepository.tx_row
                    (TransactionRepository.history_transactions h)
                = page_rows page
                /\ map TransactionRepository.merchantName
                       (TransactionRepository.history_transactions h)
                   = map (fun row =>
                            match TransactionRepository.merchant_name_of
                                    (db world0) row with
                            | Some n => if str_truthy n then Some n else None
                            | None => None
                            end) (page_rows page)
                /\ TransactionRepository.pagination h
                   = TransactionRepository.mkPagination page 1
                       (length rows) (Some (Z.of_nat totalPages)))
       /\ concat (map (fun p => page_rows (Z.of_nat p)) (seq 1 totalPages)) = rows
       /\ (forall p, (1 <= p <= totalPages)%nat ->
             page_rows (Z.of_nat p) <> []
             /\ (Z.of_nat (length (page_rows (Z.of_nat p))) <= 1)%Z)
       /\ (forall page, (Z.of_nat totalPages < page)%Z -> page_rows page = [])
       /\ (forall page, (page <= 1)%Z -> page_rows page = page_rows 1%Z).
Proof.
  intros history rows page_rows.
  assert (Hperm : forall l : list TxRow, rev l ≡ₚ l)
    by (intros l; apply Permutation_sym, Permutation_rev).
  assert (Hps : (0 < 1)%Z) by lia.
  assert (Hsmall : (Z.of_nat (length (TransactionRepository.user_rows "U2"
                                        (db world0))) * 1 < 2 ^ 52)%Z)
    by (vm_compute; reflexivity).
  split; [exact Hperm|]. split; [exact Hps|]. split; [exact Hsmall|].
  split; [reflexivity|].
  split; [eexists; split; [vm_compute; reflexivity|]; repeat split; reflexivity|].
  split; [vm_compute; reflexivity|].
  exact (history_pages_hold_every_record (@rev TxRow) "U2" 1 world0
           Hperm Hps Hsmall).
Defined.
